(** * Run tracer of langchainjs: lifecycle state machine and persistence adapter

    Shallow embedding of
    - [BaseTracer] (callbacks/handlers/tracer.ts, bundled in
      src/langchain/document_loaders/index.ts): the run registry, the
      execution-order resolver and the start/end/error handlers;
    - [LangChainTracer] (src/unnamed/part_000): tenant and session
      resolution, conversion of a run tree to its wire record, submission.

    Conventions.
    - JavaScript objects are shared by reference: the registry ([runMap]) and
      the child lists of a parent hold references to the same run object.
      Run objects therefore live in a store ([heap], a list indexed by
      location) and both the registry and the child lists hold locations.
    - [number] is modelled by [Z] (all values met here are small integers,
      on which IEEE doubles are exact).
    - A thrown [Error] is the [Throws] outcome of a state-passing
      computation; the state changes made before the throw are kept, as in
      the source.
    - Each handler is one atomic step: the suspension points of [await] are
      not interleaved with other handlers. External collaborators (clock,
      session bootstrap, hooks, transport) are parameters.
    - Ids are strings. The source tests some of them for truthiness
      ([if (run.parent_uuid)], [if (this.tenantId)]), which takes the empty
      string for a missing id; [truthy] keeps that, and the statements
      about a parent or a cached tenant id are made for non-empty ids. *)

From Stdlib Require Import ZArith Lia.
From stdpp Require Import base option list gmap strings.

Set Default Proof Using "Type".

(** ** Errors and the state-and-exception monad *)

(** The source throws [Error(message)]; one constructor per message. *)
Inductive Error : Type :=
| ParentNotFound (parentRunId : string)
    (* "Parent run ${id} not found" *)
| CallerNotFound (parentRunId : string)
    (* "Caller run ${id} not found" *)
| InvalidParentKind
    (* "Caller run can only be a tool or chain" *)
| NoSuchOpenRun (what : string)
    (* "No LLM run to end." / "No chain run to end." / "No tool run to end" *)
| NoTenantAvailable (endpoint : string)
    (* "No tenants found for endpoint ${endpoint}" *)
| TransportFailure (what : string) (status : Z) (statusText body : string)
    (* "Failed to ...: ${status} ${statusText} ${body}" *)
| External (message : string)
    (* an error raised by a collaborator: hook, session bootstrap *)
| BadReference.
    (* a location outside the store; JavaScript references cannot dangle,
       the registry invariant below shows it is never raised *)

Inductive Outcome (A : Type) : Type :=
| Returns (a : A)
| Throws (e : Error).
Arguments Returns {A} a.
Arguments Throws {A} e.

Definition Eff (S A : Type) : Type := S -> S * Outcome A.

Definition ret {S A} (a : A) : Eff S A := fun s => (s, Returns a).
Definition throw {S A} (e : Error) : Eff S A := fun s => (s, Throws e).
Definition bind {S A B} (c : Eff S A) (k : A -> Eff S B) : Eff S B :=
  fun s => match c s with
           | (s', Returns a) => k a s'
           | (s', Throws e) => (s', Throws e)
           end.
Definition get {S} : Eff S S := fun s => (s, Returns s).
Definition modify {S} (f : S -> S) : Eff S unit := fun s => (f s, Returns tt).

Notation "'let*' x ':=' c 'in' k" := (bind c (fun x => k))
  (at level 10, x name, c at level 100, k at level 200).
Notation "c '>>' k" := (bind c (fun _ => k))
  (at level 190, right associativity).

(** JavaScript truthiness of an optional string: [undefined] and the empty
    string are falsy. *)
Definition truthy (o : option string) : option string :=
  match o with
  | Some s => if decide (s = EmptyString) then None else Some s
  | None => None
  end.

(** ** BaseTracer *)

Module Tracer.

Inductive RunType : Type := llm | chain | tool.

#[global] Instance RunType_eq_dec : EqDecision RunType.
Proof. solve_decision. Defined.

Record TracerSession : Type := mkSession {
  id : Z;
  session_start_time : Z;
  session_name : option string;
}.

(** [BaseTracerSession], which is also [TracerSessionCreate]. *)
Module SessionCreate.
Record t : Type := mk {
  start_time : Z;
  name : option string;
}.
End SessionCreate.

(** Locations of the store. *)
Abbreviation loc := nat.

(** [serialized: { name: string }] *)
Record Serialized : Type := mkSerialized { name : string }.

(** The union [LLMRun | ChainRun | ToolRun] as one record: the fields of
    [BaseRun], then the fields of each variant. A field that the variant of
    a given run does not have is left at its empty value and never read. *)
Record Run : Type := mkRun {
  uuid : string;
  parent_uuid : option string;
  start_time : Z;
  end_time : Z;
  execution_order : Z;
  child_execution_order : Z;
  serialized : Serialized;
  session_id : Z;
  error : option string;
  type : RunType;
  (* LLMRun *)
  prompts : list string;
  response : option string;
  (* ChainRun, AgentRun *)
  inputs : string;
  outputs : option string;
  actions : option (list string);
  (* ToolRun *)
  tool_input : string;
  output : option string;
  action : string;
  (* ChainRun and ToolRun *)
  child_llm_runs : list loc;
  child_chain_runs : list loc;
  child_tool_runs : list loc;
}.

(** Field assignments [run.f = v]. *)
Definition set_end_time (v : Z) (r : Run) : Run :=
  mkRun (uuid r) (parent_uuid r) (start_time r) v (execution_order r)
    (child_execution_order r) (serialized r) (session_id r) (error r) (type r)
    (prompts r) (response r) (inputs r) (outputs r) (actions r)
    (tool_input r) (output r) (action r)
    (child_llm_runs r) (child_chain_runs r) (child_tool_runs r).

Definition set_child_execution_order (v : Z) (r : Run) : Run :=
  mkRun (uuid r) (parent_uuid r) (start_time r) (end_time r) (execution_order r)
    v (serialized r) (session_id r) (error r) (type r)
    (prompts r) (response r) (inputs r) (outputs r) (actions r)
    (tool_input r) (output r) (action r)
    (child_llm_runs r) (child_chain_runs r) (child_tool_runs r).

Definition set_error (v : option string) (r : Run) : Run :=
  mkRun (uuid r) (parent_uuid r) (start_time r) (end_time r) (execution_order r)
    (child_execution_order r) (serialized r) (session_id r) v (type r)
    (prompts r) (response r) (inputs r) (outputs r) (actions r)
    (tool_input r) (output r) (action r)
    (child_llm_runs r) (child_chain_runs r) (child_tool_runs r).

Definition set_response (v : option string) (r : Run) : Run :=
  mkRun (uuid r) (parent_uuid r) (start_time r) (end_time r) (execution_order r)
    (child_execution_order r) (serialized r) (session_id r) (error r) (type r)
    (prompts r) v (inputs r) (outputs r) (actions r)
    (tool_input r) (output r) (action r)
    (child_llm_runs r) (child_chain_runs r) (child_tool_runs r).

Definition set_outputs (v : option string) (r : Run) : Run :=
  mkRun (uuid r) (parent_uuid r) (start_time r) (end_time r) (execution_order r)
    (child_execution_order r) (serialized r) (session_id r) (error r) (type r)
    (prompts r) (response r) (inputs r) v (actions r)
    (tool_input r) (output r) (action r)
    (child_llm_runs r) (child_chain_runs r) (child_tool_runs r).

Definition set_actions (v : option (list string)) (r : Run) : Run :=
  mkRun (uuid r) (parent_uuid r) (start_time r) (end_time r) (execution_order r)
    (child_execution_order r) (serialized r) (session_id r) (error r) (type r)
    (prompts r) (response r) (inputs r) (outputs r) v
    (tool_input r) (output r) (action r)
    (child_llm_runs r) (child_chain_runs r) (child_tool_runs r).

Definition set_output (v : option string) (r : Run) : Run :=
  mkRun (uuid r) (parent_uuid r) (start_time r) (end_time r) (execution_order r)
    (child_execution_order r) (serialized r) (session_id r) (error r) (type r)
    (prompts r) (response r) (inputs r) (outputs r) (actions r)
    (tool_input r) v (action r)
    (child_llm_runs r) (child_chain_runs r) (child_tool_runs r).

Definition set_children (cl cc ct : list loc) (r : Run) : Run :=
  mkRun (uuid r) (parent_uuid r) (start_time r) (end_time r) (execution_order r)
    (child_execution_order r) (serialized r) (session_id r) (error r) (type r)
    (prompts r) (response r) (inputs r) (outputs r) (actions r)
    (tool_input r) (output r) (action r) cl cc ct.

Section BaseTracer.

(** State of the concrete subclass and of the outside world. *)
Context {W : Type}.

(** [protected session?; protected runMap: Map<string, Run>] and the store
    of run objects. *)
Record State : Type := mkState {
  session : option TracerSession;
  runMap : gmap string loc;
  heap : list Run;
  world : W;
}.

Definition set_session (v : option TracerSession) (t : State) : State :=
  mkState v (runMap t) (heap t) (world t).
Definition set_runMap (v : gmap string loc) (t : State) : State :=
  mkState (session t) v (heap t) (world t).
Definition set_heap (v : list Run) (t : State) : State :=
  mkState (session t) (runMap t) v (world t).
Definition set_world (v : W) (t : State) : State :=
  mkState (session t) (runMap t) (heap t) v.

Definition M (A : Type) : Type := Eff State A.

(** A collaborator call: runs on the world only. *)
Definition external {A} (f : W -> W * Outcome A) : M A :=
  fun t => let '(w, o) := f (world t) in (set_world w t, o).

(** Abstract methods of the class. [persistRun] receives the run object,
    hence the store and the location. *)
Variable loadDefaultSession : W -> W * Outcome TracerSession.
Variable persistRun : list Run -> loc -> W -> W * Outcome unit.

(** [JSON.stringify(tool)] *)
Variable JSON_stringify : Serialized -> string.

(** The optional custom event handlers. A handler observes the run it is
    given; it does not touch the registry. *)
Definition Hook : Type := Run -> W -> W * Outcome unit.

Record Hooks : Type := mkHooks {
  onLLMStart : option Hook;
  onLLMEnd : option Hook;
  onLLMError : option Hook;
  onChainStart : option Hook;
  onChainEnd : option Hook;
  onChainError : option Hook;
  onToolStart : option Hook;
  onToolEnd : option Hook;
  onToolError : option Hook;
  onAgentAction : option Hook;
}.

Variable hooks : Hooks.

(** [await this.onX?.(run)] *)
Definition call_hook (h : option Hook) (run : Run) : M unit :=
  match h with
  | Some f => external (f run)
  | None => ret tt
  end.

(** Dereference of a run object. *)
Definition deref (l : loc) : M Run :=
  fun t => match heap t !! l with
           | Some r => (t, Returns r)
           | None => (t, Throws BadReference)
           end.

(** In-place mutation of the object at [l]. *)
Definition mutate (l : loc) (f : Run -> Run) : M unit :=
  fun t => match heap t !! l with
           | Some r => (set_heap (<[l := f r]> (heap t)) t, Returns tt)
           | None => (t, Throws BadReference)
           end.

(** [_addChildRun]: the final [throw new Error("Invalid run type")] is not
    reachable for a [RunType]. [childRun] is the reference being pushed. *)
Definition _addChildRun (parentRun : Run) (childRun : loc) (childType : RunType) : Run :=
  match childType with
  | llm =>
      set_children (child_llm_runs parentRun ++ [childRun])
        (child_chain_runs parentRun) (child_tool_runs parentRun) parentRun
  | chain =>
      set_children (child_llm_runs parentRun)
        (child_chain_runs parentRun ++ [childRun]) (child_tool_runs parentRun) parentRun
  | tool =>
      set_children (child_llm_runs parentRun) (child_chain_runs parentRun)
        (child_tool_runs parentRun ++ [childRun]) parentRun
  end.

(** [_startTrace(run)]. The new object gets the next free location; it
    enters the store when the first reference to it is stored. Returns that
    location. *)
Definition _startTrace (run : Run) : M loc :=
  let* t := get in
  let l := length (heap t) in
  (match truthy (parent_uuid run) with
   | Some parent_uuid =>
       match runMap t !! parent_uuid with
       | Some p =>
           let* parentRun := deref p in
           if negb (bool_decide (type parentRun = tool) || bool_decide (type parentRun = chain))
           then throw InvalidParentKind
           else mutate p (fun parentRun => _addChildRun parentRun l (type run))
       | None => throw (CallerNotFound parent_uuid)
       end
   | None => ret tt
   end) >>
  modify (fun t => set_runMap (<[uuid run := l]> (runMap t))
                     (set_heap (heap t ++ [run]) t)) >>
  ret l.

(** [_endTrace(run)] *)
Definition _endTrace (l : loc) : M unit :=
  let* run := deref l in
  (match truthy (parent_uuid run) with
   | None =>
       let* t := get in
       external (persistRun (heap t) l)
   | Some parent_uuid =>
       let* t := get in
       match runMap t !! parent_uuid with
       | None => throw (ParentNotFound parent_uuid)
       | Some p =>
           mutate p (fun parentRun =>
             set_child_execution_order
               (Z.max (child_execution_order parentRun) (child_execution_order run))
               parentRun)
       end
   end) >>
  modify (fun t => set_runMap (delete (uuid run) (runMap t)) t).

(** [_getExecutionOrder(parentRunId)] *)
Definition _getExecutionOrder (parentRunId : option string) : M Z :=
  match parentRunId with
  | None => ret 1%Z
  | Some parentRunId =>
      let* t := get in
      match runMap t !! parentRunId with
      | None => throw (ParentNotFound parentRunId)
      | Some p =>
          let* parentRun := deref p in
          ret (child_execution_order parentRun + 1)%Z
      end
  end.

(** [if (this.session === undefined) this.session = await this.loadDefaultSession()] *)
Definition ensure_session : M TracerSession :=
  let* t := get in
  match session t with
  | Some s => ret s
  | None =>
      let* s := external loadDefaultSession in
      modify (set_session (Some s)) >>
      ret s
  end.

(** The three start handlers. [now] is the value of [Date.now()]. *)
Definition handleLLMStart (llm_desc : Serialized) (prompts_ : list string)
    (runId : string) (parentRunId : option string) (now : Z) : M unit :=
  let* session := ensure_session in
  let* execution_order_ := _getExecutionOrder parentRunId in
  let run :=
    {| uuid := runId; parent_uuid := parentRunId;
       start_time := now; end_time := 0;
       serialized := llm_desc; prompts := prompts_;
       session_id := id session;
       execution_order := execution_order_;
       child_execution_order := execution_order_;
       type := llm;
       error := None; response := None;
       inputs := EmptyString; outputs := None; actions := None;
       tool_input := EmptyString; output := None; action := EmptyString;
       child_llm_runs := []; child_chain_runs := []; child_tool_runs := [] |} in
  _startTrace run >>
  call_hook (onLLMStart hooks) run.

Definition handleChainStart (chain_desc : Serialized) (inputs_ : string)
    (runId : string) (parentRunId : option string) (now : Z) : M unit :=
  let* session := ensure_session in
  let* execution_order_ := _getExecutionOrder parentRunId in
  let run :=
    {| uuid := runId; parent_uuid := parentRunId;
       start_time := now; end_time := 0;
       serialized := chain_desc; inputs := inputs_;
       session_id := id session;
       execution_order := execution_order_;
       child_execution_order := execution_order_;
       type := chain;
       child_llm_runs := []; child_chain_runs := []; child_tool_runs := [];
       error := None; prompts := []; response := None;
       outputs := None; actions := None;
       tool_input := EmptyString; output := None; action := EmptyString |} in
  _startTrace run >>
  call_hook (onChainStart hooks) run.

Definition handleToolStart (tool_desc : Serialized) (input : string)
    (runId : string) (parentRunId : option string) (now : Z) : M unit :=
  let* session := ensure_session in
  let* execution_order_ := _getExecutionOrder parentRunId in
  let run :=
    {| uuid := runId; parent_uuid := parentRunId;
       start_time := now; end_time := 0;
       serialized := tool_desc; tool_input := input;
       session_id := id session;
       execution_order := execution_order_;
       child_execution_order := execution_order_;
       type := tool;
       action := JSON_stringify tool_desc;
       child_llm_runs := []; child_chain_runs := []; child_tool_runs := [];
       error := None; prompts := []; response := None;
       inputs := EmptyString; outputs := None; actions := None;
       output := None |} in
  _startTrace run >>
  call_hook (onToolStart hooks) run.

(** The end and error handlers: look the run up, check its kind, stamp it,
    call the hook, then [_endTrace]. *)
Definition handleLLMEnd (output_ : string) (runId : string) (now : Z) : M unit :=
  let* t := get in
  match runMap t !! runId with
  | None => throw (NoSuchOpenRun "No LLM run to end.")
  | Some l =>
      let* run := deref l in
      if negb (bool_decide (type run = llm))
      then throw (NoSuchOpenRun "No LLM run to end.")
      else
        mutate l (fun llmRun => set_response (Some output_) (set_end_time now llmRun)) >>
        let* llmRun := deref l in
        call_hook (onLLMEnd hooks) llmRun >>
        _endTrace l
  end.

Definition handleLLMError (error_message : string) (runId : string) (now : Z) : M unit :=
  let* t := get in
  match runMap t !! runId with
  | None => throw (NoSuchOpenRun "No LLM run to end.")
  | Some l =>
      let* run := deref l in
      if negb (bool_decide (type run = llm))
      then throw (NoSuchOpenRun "No LLM run to end.")
      else
        mutate l (fun llmRun => set_error (Some error_message) (set_end_time now llmRun)) >>
        let* llmRun := deref l in
        call_hook (onLLMError hooks) llmRun >>
        _endTrace l
  end.

Definition handleChainEnd (outputs_ : string) (runId : string) (now : Z) : M unit :=
  let* t := get in
  match runMap t !! runId with
  | None => throw (NoSuchOpenRun "No chain run to end.")
  | Some l =>
      let* run := deref l in
      if negb (bool_decide (type run = chain))
      then throw (NoSuchOpenRun "No chain run to end.")
      else
        mutate l (fun chainRun => set_outputs (Some outputs_) (set_end_time now chainRun)) >>
        let* chainRun := deref l in
        call_hook (onChainEnd hooks) chainRun >>
        _endTrace l
  end.

Definition handleChainError (error_message : string) (runId : string) (now : Z) : M unit :=
  let* t := get in
  match runMap t !! runId with
  | None => throw (NoSuchOpenRun "No chain run to end.")
  | Some l =>
      let* run := deref l in
      if negb (bool_decide (type run = chain))
      then throw (NoSuchOpenRun "No chain run to end.")
      else
        mutate l (fun chainRun => set_error (Some error_message) (set_end_time now chainRun)) >>
        let* chainRun := deref l in
        call_hook (onChainError hooks) chainRun >>
        _endTrace l
  end.

Definition handleToolEnd (output_ : string) (runId : string) (now : Z) : M unit :=
  let* t := get in
  match runMap t !! runId with
  | None => throw (NoSuchOpenRun "No tool run to end")
  | Some l =>
      let* run := deref l in
      if negb (bool_decide (type run = tool))
      then throw (NoSuchOpenRun "No tool run to end")
      else
        mutate l (fun toolRun => set_output (Some output_) (set_end_time now toolRun)) >>
        let* toolRun := deref l in
        call_hook (onToolEnd hooks) toolRun >>
        _endTrace l
  end.

Definition handleToolError (error_message : string) (runId : string) (now : Z) : M unit :=
  let* t := get in
  match runMap t !! runId with
  | None => throw (NoSuchOpenRun "No tool run to end")
  | Some l =>
      let* run := deref l in
      if negb (bool_decide (type run = tool))
      then throw (NoSuchOpenRun "No tool run to end")
      else
        mutate l (fun toolRun => set_error (Some error_message) (set_end_time now toolRun)) >>
        let* toolRun := deref l in
        call_hook (onToolError hooks) toolRun >>
        _endTrace l
  end.

(** [handleAgentAction]: silently returns on an unknown or non-chain run. *)
Definition handleAgentAction (action_ : string) (runId : string) : M unit :=
  let* t := get in
  match runMap t !! runId with
  | None => ret tt
  | Some l =>
      let* run := deref l in
      if negb (bool_decide (type run = chain))
      then ret tt
      else
        mutate l (fun agentRun =>
          set_actions (Some (default [] (actions agentRun) ++ [action_])) agentRun) >>
        let* agentRun := deref l in
        call_hook (onAgentAction hooks) agentRun
  end.

(** ** Lifecycle events

    One constructor per handler; [handle] dispatches, [run_events] feeds a
    call sequence to the tracer, keeping the state whatever each call
    returns or throws. *)
Inductive Event : Type :=
| LLMStart (llm_desc : Serialized) (prompts_ : list string)
    (runId : string) (parentRunId : option string) (now : Z)
| LLMEnd (output_ : string) (runId : string) (now : Z)
| LLMError (error_message : string) (runId : string) (now : Z)
| ChainStart (chain_desc : Serialized) (inputs_ : string)
    (runId : string) (parentRunId : option string) (now : Z)
| ChainEnd (outputs_ : string) (runId : string) (now : Z)
| ChainError (error_message : string) (runId : string) (now : Z)
| ToolStart (tool_desc : Serialized) (input : string)
    (runId : string) (parentRunId : option string) (now : Z)
| ToolEnd (output_ : string) (runId : string) (now : Z)
| ToolError (error_message : string) (runId : string) (now : Z)
| AgentAction (action_ : string) (runId : string).

Definition handle (e : Event) : M unit :=
  match e with
  | LLMStart d ps a par now => handleLLMStart d ps a par now
  | LLMEnd out a now => handleLLMEnd out a now
  | LLMError msg a now => handleLLMError msg a now
  | ChainStart d i a par now => handleChainStart d i a par now
  | ChainEnd out a now => handleChainEnd out a now
  | ChainError msg a now => handleChainError msg a now
  | ToolStart d i a par now => handleToolStart d i a par now
  | ToolEnd out a now => handleToolEnd out a now
  | ToolError msg a now => handleToolError msg a now
  | AgentAction act a => handleAgentAction act a
  end.

Definition run_events (es : list Event) (t : State) : State :=
  foldl (fun t e => (handle e t).1) t es.

(** A Start event: kind, run id, parent id. *)
Definition start_of (e : Event) : option (RunType * string * option string) :=
  match e with
  | LLMStart _ _ a par _ => Some (llm, a, par)
  | ChainStart _ _ a par _ => Some (chain, a, par)
  | ToolStart _ _ a par _ => Some (tool, a, par)
  | _ => None
  end.

(** An End or Fail event: kind and run id. *)
Definition close_of (e : Event) : option (RunType * string) :=
  match e with
  | LLMEnd _ a _ | LLMError _ a _ => Some (llm, a)
  | ChainEnd _ a _ | ChainError _ a _ => Some (chain, a)
  | ToolEnd _ a _ | ToolError _ a _ => Some (tool, a)
  | _ => None
  end.

(** What an End or Fail event writes into the run before the hook runs. *)
Definition close_update (e : Event) (r : Run) : Run :=
  match e with
  | LLMEnd out _ now => set_response (Some out) (set_end_time now r)
  | ChainEnd out _ now => set_outputs (Some out) (set_end_time now r)
  | ToolEnd out _ now => set_output (Some out) (set_end_time now r)
  | LLMError msg _ now | ChainError msg _ now | ToolError msg _ now =>
      set_error (Some msg) (set_end_time now r)
  | _ => r
  end.

(** The hook slot an event calls. *)
Definition hook_of (e : Event) : option Hook :=
  match e with
  | LLMStart _ _ _ _ _ => onLLMStart hooks
  | LLMEnd _ _ _ => onLLMEnd hooks
  | LLMError _ _ _ => onLLMError hooks
  | ChainStart _ _ _ _ _ => onChainStart hooks
  | ChainEnd _ _ _ => onChainEnd hooks
  | ChainError _ _ _ => onChainError hooks
  | ToolStart _ _ _ _ _ => onToolStart hooks
  | ToolEnd _ _ _ => onToolEnd hooks
  | ToolError _ _ _ => onToolError hooks
  | AgentAction _ _ => onAgentAction hooks
  end.

(** The end timestamp and the payload or error message of an End or Fail
    event are in the run. *)
Definition stamped (e : Event) (r : Run) : Prop :=
  match e with
  | LLMEnd out _ now => end_time r = now /\ response r = Some out
  | ChainEnd out _ now => end_time r = now /\ outputs r = Some out
  | ToolEnd out _ now => end_time r = now /\ output r = Some out
  | LLMError msg _ now | ChainError msg _ now | ToolError msg _ now =>
      end_time r = now /\ error r = Some msg
  | _ => True
  end.

(** The hook of [e] returns normally on run [r] in world [w]. *)
Definition hook_returns (e : Event) (r : Run) (w : W) : Prop :=
  match hook_of e with
  | Some f => (f r w).2 = Returns tt
  | None => True
  end.

(** The call sequence [es], run from [t], closes the object [la] that is
    registered under [a]: somewhere in [es] an End or Fail event for [a]
    finds [la] under that id and returns. *)
Definition closes_run (es : list Event) (a : string) (la : loc) (t : State) : Prop :=
  exists es1 eC es2 kC,
    es = es1 ++ eC :: es2 /\
    close_of eC = Some (kC, a) /\
    runMap (run_events es1 t) !! a = Some la /\
    (handle eC (run_events es1 t)).2 = Returns tt.

(** A leaf child of [p]: its Start event and the End or Fail event that
    closes it. *)
Definition leaf_child (p : string) (c : Event * Event) : Prop :=
  exists k a, start_of c.1 = Some (k, a, Some p) /\
              close_of c.2 = Some (k, a) /\ a <> p.

(** Children run one after the other: each is closed before the next
    starts. *)
Definition one_by_one (cs : list (Event * Event)) : list Event :=
  concat (map (fun c => [c.1; c.2]) cs).

(** The world the hook of [e] leaves behind. *)
Definition hook_world (e : Event) (r : Run) (w : W) : W :=
  match hook_of e with
  | Some f => (f r w).1
  | None => w
  end.

(** The state in which [_endTrace] runs when the End or Fail event [e]
    reaches it: the run at [l], [run] before the event, carries its stamp
    and the hook has run. *)
Definition closing_state (e : Event) (l : loc) (run : Run) (t : State) : State :=
  mkState (session t) (runMap t) (<[l := close_update e run]> (heap t))
    (hook_world e (close_update e run) (world t)).

(** The shared shape of the three start handlers and of the six end and
    error handlers. *)
Definition start_shape (mk : TracerSession -> Z -> Run) (h : option Hook)
    (parentRunId : option string) : M unit :=
  let* session := ensure_session in
  let* execution_order_ := _getExecutionOrder parentRunId in
  let run := mk session execution_order_ in
  _startTrace run >>
  call_hook h run.

Definition close_shape (k : RunType) (what : string) (upd : Run -> Run)
    (h : option Hook) (runId : string) : M unit :=
  let* t := get in
  match runMap t !! runId with
  | None => throw (NoSuchOpenRun what)
  | Some l =>
      let* run := deref l in
      if negb (bool_decide (type run = k))
      then throw (NoSuchOpenRun what)
      else
        mutate l upd >>
        let* run := deref l in
        call_hook h run >>
        _endTrace l
  end.

(** ** Registry invariant and what a step may change *)

(** The tracer as constructed: no session, empty registry. *)
Definition initial (w : W) : State := mkState None ∅ [] w.

(** Every registered id leads to an object carrying that id, and no run is
    ahead of its own child-execution-order. *)
Record WF (t : State) : Prop := mkWF {
  wf_ref : forall a l, runMap t !! a = Some l ->
           exists r, heap t !! l = Some r /\ uuid r = a;
  wf_order : forall l r, heap t !! l = Some r ->
             (execution_order r <= child_execution_order r)%Z;
}.

(** [r'] is a later version of the object [r]: its id, parent id, kind and
    execution order are those of [r], its child-execution-order has not
    decreased. *)
Record evolves (r r' : Run) : Prop := mkEvolves {
  ev_uuid : uuid r' = uuid r;
  ev_parent : parent_uuid r' = parent_uuid r;
  ev_type : type r' = type r;
  ev_order : execution_order r' = execution_order r;
  ev_child_order : (child_execution_order r <= child_execution_order r')%Z;
}.

(** [t'] is a later state of [t]: objects are never freed and only evolve;
    an id is bound either as before or to an object allocated since. *)
Record extends (t t' : State) : Prop := mkExtends {
  ext_heap : forall l r, heap t !! l = Some r ->
             exists r', heap t' !! l = Some r' /\ evolves r r';
  ext_map : forall a l, runMap t' !! a = Some l ->
            runMap t !! a = Some l \/ length (heap t) <= l;
}.

(** A computation that keeps the invariant and only moves forward. *)
Definition safe {A} (c : M A) : Prop :=
  forall t, (WF t -> WF (c t).1) /\ extends t (c t).1.

(** The registry after a successful Start of run [a] from state [t]: a new
    object at the first free location, registered under [a], of kind [k],
    with parent id [par] and both orders equal to [v]. *)
Definition new_run_at (t t' : State) (k : RunType) (a : string)
    (par : option string) (v : Z) : Prop :=
  exists r, heap t' !! length (heap t) = Some r /\
            runMap t' !! a = Some (length (heap t)) /\
            uuid r = a /\ type r = k /\ parent_uuid r = par /\
            execution_order r = v /\ child_execution_order r = v.

(** The state after [_startTrace] has registered [run]; [h] is the store
    once the parent, if any, has been given its new child. *)
Definition registered (run : Run) (h : list Run) (t : State) : State :=
  mkState (session t) (<[uuid run := length (heap t)]> (runMap t)) (h ++ [run]) (world t).

(** What the object literal of a start handler holds. *)
Record builds (mk : TracerSession -> Z -> Run) (k : RunType) (a : string)
    (par : option string) : Prop := mkBuilds {
  b_uuid : forall s v, uuid (mk s v) = a;
  b_type : forall s v, type (mk s v) = k;
  b_parent : forall s v, parent_uuid (mk s v) = par;
  b_order : forall s v, execution_order (mk s v) = v;
  b_child_order : forall s v, child_execution_order (mk s v) = v;
}.

(** ** The rest of the class *)

(** [abstract persistSession(session: TracerSessionCreate)] *)
Variable persistSession : SessionCreate.t -> W -> W * Outcome TracerSession.

(** [newSession(sessionName?)]; [now] is the value of [Date.now()]. *)
Definition newSession (sessionName : option string) (now : Z) : M TracerSession :=
  let sessionCreate := SessionCreate.mk now sessionName in
  let* session_ := external (persistSession sessionCreate) in
  modify (set_session (Some session_)) >>
  ret session_.

(** The message of the end and error handlers of kind [k]. *)
Definition no_run_message (k : RunType) : string :=
  match k with
  | llm => "No LLM run to end."
  | chain => "No chain run to end."
  | tool => "No tool run to end"
  end.

(** The action an AgentAction event records. *)
Definition action_of (e : Event) : option (string * string) :=
  match e with
  | AgentAction act a => Some (act, a)
  | _ => None
  end.

(** All the children of a run. *)
Definition children (r : Run) : list loc :=
  child_llm_runs r ++ child_chain_runs r ++ child_tool_runs r.

(** [r'] is a later version of [r] in what is written once: the fields set
    by the start handler are the same, the child lists have only been
    appended to. *)
Record grows (r r' : Run) : Prop := mkGrows {
  g_start_time : start_time r' = start_time r;
  g_serialized : serialized r' = serialized r;
  g_session_id : session_id r' = session_id r;
  g_prompts : prompts r' = prompts r;
  g_inputs : inputs r' = inputs r;
  g_tool_input : tool_input r' = tool_input r;
  g_action : action r' = action r;
  g_llm : child_llm_runs r `prefix_of` child_llm_runs r';
  g_chain : child_chain_runs r `prefix_of` child_chain_runs r';
  g_tool : child_tool_runs r `prefix_of` child_tool_runs r';
}.

(** [r'] has the place of [r] in the tree: same id, parent id, kind,
    execution order and children. *)
Record frozen (r r' : Run) : Prop := mkFrozen {
  fz_uuid : uuid r' = uuid r;
  fz_parent : parent_uuid r' = parent_uuid r;
  fz_type : type r' = type r;
  fz_order : execution_order r' = execution_order r;
  fz_llm : child_llm_runs r' = child_llm_runs r;
  fz_chain : child_chain_runs r' = child_chain_runs r;
  fz_tool : child_tool_runs r' = child_tool_runs r;
}.

(** The run objects form a forest. A run without parent id has execution
    order 1, any other at least 2; an LLM run has no children; a child was
    created after its parent, names it as its parent, comes after it in
    execution order, is of the kind of the list it is in, and is listed
    once. *)
Record Forest (t : State) : Prop := mkForest {
  f_root : forall l r, heap t !! l = Some r -> parent_uuid r = None ->
           execution_order r = 1%Z;
  f_inner : forall l r, heap t !! l = Some r -> parent_uuid r <> None ->
            (2 <= execution_order r)%Z;
  f_leaf : forall l r, heap t !! l = Some r -> type r = llm -> children r = [];
  f_child : forall lp P c, heap t !! lp = Some P -> c ∈ children P ->
            lp < c /\
            exists r, heap t !! c = Some r /\ parent_uuid r = Some (uuid P) /\
                      (execution_order P < execution_order r)%Z;
  f_kind : forall lp P c r, heap t !! lp = Some P -> heap t !! c = Some r ->
           (c ∈ child_llm_runs P -> type r = llm) /\
           (c ∈ child_chain_runs P -> type r = chain) /\
           (c ∈ child_tool_runs P -> type r = tool);
  f_once : forall lp P, heap t !! lp = Some P -> NoDup (children P);
}.

(** The run a start handler builds has no children yet, and carries the
    id of the session. *)
Record builds_fresh (mk : TracerSession -> Z -> Run) : Prop := mkBuildsFresh {
  bf_children : forall s v, children (mk s v) = [];
  bf_session : forall s v, session_id (mk s v) = id s;
  bf_end_time : forall s v, end_time (mk s v) = 0%Z;
}.

(** What [_getExecutionOrder] answers for [par] in [t]. *)
Definition resolves (t : State) (par : option string) (v : Z) : Prop :=
  match par with
  | None => v = 1%Z
  | Some p => exists lp P, runMap t !! p = Some lp /\ heap t !! lp = Some P /\
                           v = (child_execution_order P + 1)%Z
  end.

(** The store [hp] is the store of [t] once [_startTrace] has given the
    parent named by [par], if that id counts as one, its new child of kind
    [k]. *)
Definition attaches (t : State) (par : option string) (k : RunType)
    (hp : list Run) : Prop :=
  match truthy par with
  | None => hp = heap t
  | Some p => exists lp P, runMap t !! p = Some lp /\ heap t !! lp = Some P /\
                           type P <> llm /\
                           hp = <[lp := _addChildRun P (length (heap t)) k]> (heap t)
  end.

(** A run as a start handler has just built it. *)
Record fresh_run (r : Run) (k : RunType) (a : string) (par : option string)
    (v : Z) (s : TracerSession) : Prop := mkFreshRun {
  fr_uuid : uuid r = a;
  fr_type : type r = k;
  fr_parent : parent_uuid r = par;
  fr_order : execution_order r = v;
  fr_child_order : child_execution_order r = v;
  fr_children : children r = [];
  fr_session : session_id r = id s;
  fr_end_time : end_time r = 0%Z;
}.

(** No id of the registry leads to [l]. *)
Definition unregistered (l : loc) (t : State) : Prop :=
  forall a, runMap t !! a <> Some l.

(** What a Start event of kind [k] for the id [a] under [par] may do to
    [t], giving [t'] and the outcome [o]: throw with the registry and the
    run objects as before, or append one new run to the store, register
    it, and give it to its parent. A session that is set stays. *)
Definition start_result (t t' : State) (o : Outcome unit) (k : RunType)
    (a : string) (par : option string) : Prop :=
  (forall s0, session t = Some s0 -> session t' = Some s0) /\
  ((heap t' = heap t /\ runMap t' = runMap t /\ exists err, o = Throws err) \/
   exists s v new hp,
     session t' = Some s /\
     resolves t par v /\ fresh_run new k a par v s /\ attaches t par k hp /\
     heap t' = hp ++ [new] /\
     runMap t' = <[a := length (heap t)]> (runMap t)).

(** What an End or Fail event [e] of kind [k] for the id [a] may do to [t]:
    throw at once with the registry and the run objects as before; or stamp
    the run and then throw (from the hook, from [persistRun], or for want
    of the parent), or close a root, or close a child, whose parent then
    moves up to it. The session is as before. *)
Definition close_result (e : Event) (t t' : State) (o : Outcome unit)
    (k : RunType) (a : string) : Prop :=
  session t' = session t /\
  ((heap t' = heap t /\ runMap t' = runMap t /\ exists err, o = Throws err) \/
   exists l r,
     runMap t !! a = Some l /\ heap t !! l = Some r /\ type r = k /\
     ((heap t' = <[l := close_update e r]> (heap t) /\ runMap t' = runMap t /\
       exists err, o = Throws err) \/
      (heap t' = <[l := close_update e r]> (heap t) /\
       runMap t' = delete (uuid r) (runMap t) /\
       truthy (parent_uuid r) = None /\ o = Returns tt) \/
      (exists p lp P,
         truthy (parent_uuid r) = Some p /\ runMap t !! p = Some lp /\
         <[l := close_update e r]> (heap t) !! lp = Some P /\
         heap t' =
           <[lp := set_child_execution_order
                     (Z.max (child_execution_order P) (child_execution_order r)) P]>
             (<[l := close_update e r]> (heap t)) /\
         runMap t' = delete (uuid r) (runMap t) /\ o = Returns tt))).

(** What an AgentAction event may do: nothing, or append the action to the
    actions of a chain run. *)
Definition agent_result (act a : string) (t t' : State) : Prop :=
  session t' = session t /\ runMap t' = runMap t /\
  (heap t' = heap t \/
   exists l r, runMap t !! a = Some l /\ heap t !! l = Some r /\ type r = chain /\
               heap t' = <[l := set_actions (Some (default [] (actions r) ++ [act])) r]>
                           (heap t)).

(** Every call of the sequence [es], made in turn from [t], returns. *)
Fixpoint returns_all (es : list Event) (t : State) : Prop :=
  match es with
  | [] => True
  | e :: rest => (handle e t).2 = Returns tt /\ returns_all rest (handle e t).1
  end.

(** [P'] is the parent [P] once it has been given the child [c] of kind
    [k]: [c] is the last entry of the child list of that kind, the two
    other lists and every other field are those of [P]. *)
Record adopts (P P' : Run) (k : RunType) (c : loc) : Prop := mkAdopts {
  ad_llm : child_llm_runs P' = child_llm_runs P ++ (if decide (k = llm) then [c] else []);
  ad_chain :
    child_chain_runs P' = child_chain_runs P ++ (if decide (k = chain) then [c] else []);
  ad_tool : child_tool_runs P' = child_tool_runs P ++ (if decide (k = tool) then [c] else []);
  ad_rest : set_children [] [] [] P' = set_children [] [] [] P;
}.

End BaseTracer.
End Tracer.

(** ** LangChainTracer (src/unnamed/part_000) *)

Module TracerLangChain.

(** [TracerSession] of this file: [id] and [tenant_id] are uuids. *)
Module Session.
Record t : Type := mk {
  id : string;
  tenant_id : string;
  start_time : Z;
  name : option string;
}.
End Session.

(** An element of the array answered by [GET /tenants]. *)
Module Tenant.
Record t : Type := mk { id : string }.
End Tenant.

(** [Run], as imported from tracer.js: the fields [_convertToCreate] reads.
    Opaque JSON values ([serialized], [inputs], [outputs]) are strings,
    [extra] is a string-keyed object. *)
Module Run.
#[local] Unset Elimination Schemes.
Inductive t : Type := mk {
  id : string;
  name : string;
  start_time : Z;
  end_time : Z;
  run_type : string;
  extra : option (gmap string string);
  execution_order : Z;
  serialized : string;
  error : option string;
  inputs : string;
  outputs : option string;
  child_runs : list t;
}.
End Run.

(** [RunCreate], the wire record. *)
Module RunCreate.
#[local] Unset Elimination Schemes.
Inductive t : Type := mk {
  id : string;
  name : string;
  start_time : Z;
  end_time : Z;
  run_type : string;
  reference_example_id : option string;
  extra : gmap string string;
  execution_order : Z;
  serialized : string;
  error : option string;
  inputs : string;
  outputs : string;
  session_id : string;
  child_runs : list t;
}.
End RunCreate.

(** What the transport is asked to send. [body] is the value handed to
    [JSON.stringify]. *)
Inductive Body : Type :=
| NoBody
| SessionBody (name tenant_id : string) (extra : option string)
| RunBody (persistedRun : RunCreate.t).

Record Request : Type := mkRequest {
  url : string;
  method : string;
  headers : list (string * string);
  body : Body;
}.

(** What the transport answers: [ok], [status], [statusText], the body as
    [text()] and as [json()], the latter already of the shape the endpoint
    answers with. *)
Record Response (A : Type) : Type := mkResponse {
  ok : bool;
  status : Z;
  statusText : string;
  text : string;
  json : A;
}.
Arguments mkResponse {A}.
Arguments ok {A}.
Arguments status {A}.
Arguments statusText {A}.
Arguments text {A}.
Arguments json {A}.

(** [LangChainTracerFields] and the environment variables the constructor
    reads. *)
Record LangChainTracerFields : Type := mkFields {
  f_exampleId : option string;
  f_tenantId : option string;
  f_sessionName : option string;
  f_sessionExtra : option string;
}.

Record Env : Type := mkEnv {
  LANGCHAIN_ENDPOINT : option string;
  LANGCHAIN_API_KEY : option string;
  LANGCHAIN_TENANT_ID : option string;
  LANGCHAIN_SESSION : option string;
}.

(** The fields of the class, and [sent]: every request handed to the
    transport so far, oldest first. *)
Record State : Type := mkState {
  endpoint : string;
  st_headers : list (string * string);
  sessionName : string;
  sessionExtra : option string;
  session : option Session.t;
  exampleId : option string;
  tenantId : option string;
  sent : list Request;
}.

Definition set_session (v : option Session.t) (t : State) : State :=
  mkState (endpoint t) (st_headers t) (sessionName t) (sessionExtra t) v
    (exampleId t) (tenantId t) (sent t).
Definition set_tenantId (v : option string) (t : State) : State :=
  mkState (endpoint t) (st_headers t) (sessionName t) (sessionExtra t) (session t)
    (exampleId t) v (sent t).
Definition set_sent (v : list Request) (t : State) : State :=
  mkState (endpoint t) (st_headers t) (sessionName t) (sessionExtra t) (session t)
    (exampleId t) (tenantId t) v.

(** The constructor. [||] falls back on a falsy value, [??] on a missing one. *)
Definition new (fields : LangChainTracerFields) (env : Env) : State :=
  {| endpoint := default "http://localhost:8000" (truthy (LANGCHAIN_ENDPOINT env));
     st_headers :=
       [("Content-Type", "application/json")] ++
       match truthy (LANGCHAIN_API_KEY env) with
       | Some key => [("x-api-key", key)]
       | None => []
       end;
     tenantId :=
       match f_tenantId fields with
       | Some v => Some v
       | None => LANGCHAIN_TENANT_ID env
       end;
     sessionName :=
       match f_sessionName fields with
       | Some v => v
       | None => default "default" (LANGCHAIN_SESSION env)
       end;
     sessionExtra := f_sessionExtra fields;
     exampleId := f_exampleId fields;
     session := None;
     sent := [] |}.

Section LangChainTracer.

(** The remote store behind [this.caller.call(fetch, ...)]: its answer to a
    request, given the requests received before. *)
Variable remote_tenants : list Request -> Request -> Response (option (list Tenant.t)).
Variable remote_sessions : list Request -> Request -> Response Session.t.
Variable remote_runs : list Request -> Request -> Response unit.

(** [getRuntimeEnvironment()] *)
Variable runtime : string.

Definition M (A : Type) : Type := Eff State A.

(** [await this.caller.call(fetch, endpoint, init)] *)
Definition call {A} (remote : list Request -> Request -> Response A)
    (req : Request) : M (Response A) :=
  fun t => (set_sent (sent t ++ [req]) t, Returns (remote (sent t) req)).

(** [ensureTenantId] *)
Definition ensureTenantId : M string :=
  let* t := get in
  match truthy (tenantId t) with
  | Some tenantId_ => ret tenantId_
  | None =>
      let endpoint_ := (endpoint t ++ "/tenants")%string in
      let* response :=
        call remote_tenants
          {| url := endpoint_; method := "GET"; headers := st_headers t; body := NoBody |} in
      if negb (ok response)
      then throw (TransportFailure "Failed to fetch tenant ID"
                    (status response) (statusText response) (text response))
      else
        match json response with
        | None | Some [] => throw (NoTenantAvailable endpoint_)
        | Some (tenant :: _) =>
            modify (set_tenantId (Some (Tenant.id tenant))) >>
            ret (Tenant.id tenant)
        end
  end.

(** [ensureSession] *)
Definition ensureSession : M Session.t :=
  let* t := get in
  match session t with
  | Some session_ => ret session_
  | None =>
      let* tenantId_ := ensureTenantId in
      let endpoint_ := (endpoint t ++ "/sessions?upsert=true")%string in
      let* res :=
        call remote_sessions
          {| url := endpoint_; method := "POST"; headers := st_headers t;
             body := SessionBody (sessionName t) tenantId_ (sessionExtra t) |} in
      if negb (ok res)
      then throw (TransportFailure "Failed to create session"
                    (status res) (statusText res) (text res))
      else
        modify (set_session (Some (json res))) >>
        ret (json res)
  end.

(** [await Promise.all(xs.map(f))]: the calls are made in order; the first
    rejection is the outcome. *)
Section PromiseAllMap.
Context {A B : Type} (f : A -> M B).
Fixpoint Promise_all_map (xs : list A) : M (list B) :=
  match xs with
  | [] => ret []
  | x :: rest =>
      let* y := f x in
      let* ys := Promise_all_map rest in
      ret (y :: ys)
  end.
End PromiseAllMap.

(** [_convertToCreate(run, example_id = undefined)]. The children are
    converted by [this._convertToCreate(child_run)], that is with the
    default value of [example_id]. *)
Fixpoint _convertToCreate (run : Run.t) (example_id : option string) {struct run}
    : M RunCreate.t :=
  let* session_ := ensureSession in
  let runExtra := <["runtime" := runtime]> (default ∅ (Run.extra run)) in
  let* child_runs_ :=
    Promise_all_map (fun child_run => _convertToCreate child_run None)
      (Run.child_runs run) in
  ret {| RunCreate.id := Run.id run;
         RunCreate.name := Run.name run;
         RunCreate.start_time := Run.start_time run;
         RunCreate.end_time := Run.end_time run;
         RunCreate.run_type := Run.run_type run;
         RunCreate.reference_example_id := example_id;
         RunCreate.extra := runExtra;
         RunCreate.execution_order := Run.execution_order run;
         RunCreate.serialized := Run.serialized run;
         RunCreate.error := Run.error run;
         RunCreate.inputs := Run.inputs run;
         RunCreate.outputs := default "{}" (Run.outputs run);
         RunCreate.session_id := Session.id session_;
         RunCreate.child_runs := child_runs_ |}.

(** [persistRun(run)] *)
Definition persistRun (run : Run.t) : M unit :=
  let* t := get in
  let* persistedRun := _convertToCreate run (exampleId t) in
  let endpoint_ := (endpoint t ++ "/runs")%string in
  let* response :=
    call remote_runs
      {| url := endpoint_; method := "POST"; headers := st_headers t;
         body := RunBody persistedRun |} in
  if negb (ok response)
  then throw (TransportFailure "Failed to persist run"
                (status response) (statusText response) (text response))
  else ret tt.

(** The calls a tracer receives during its lifetime, and their effect on
    its state. *)
Inductive Call : Type :=
| CallEnsureTenantId
| CallEnsureSession
| CallConvertToCreate (run : Run.t) (example_id : option string)
| CallPersistRun (run : Run.t).

Definition perform (c : Call) (t : State) : State :=
  match c with
  | CallEnsureTenantId => (ensureTenantId t).1
  | CallEnsureSession => (ensureSession t).1
  | CallConvertToCreate run example_id => (_convertToCreate run example_id t).1
  | CallPersistRun run => (persistRun run t).1
  end.

Definition perform_all (cs : list Call) (t : State) : State :=
  foldl (fun t c => perform c t) t cs.

End LangChainTracer.

(** The records below the root of a wire record: its children and theirs. *)
Fixpoint descendants (c : RunCreate.t) : list RunCreate.t :=
  (fix over (ds : list RunCreate.t) : list RunCreate.t :=
     match ds with
     | [] => []
     | d :: rest => d :: descendants d ++ over rest
     end) (RunCreate.child_runs c).

(** What is kept from [t] to [t']: a tenant id that counts as present, and
    a session. *)
Definition stable (t t' : State) : Prop :=
  (forall tid, truthy (tenantId t) = Some tid -> tenantId t' = tenantId t) /\
  (forall s, session t = Some s -> session t' = Some s).

(** The request of [ensureTenantId]. *)
Definition tenants_request (t : State) : Request :=
  {| url := (endpoint t ++ "/tenants")%string; method := "GET";
     headers := st_headers t; body := NoBody |}.

(** A request that creates a session. *)
Definition creates_session (req : Request) : bool :=
  match body req with
  | SessionBody _ _ _ => true
  | _ => false
  end.

(** The request of [ensureSession] for the tenant [tenantId_], and the
    request of [persistRun] for the record [persistedRun]. *)
Definition session_request (t : State) (tenantId_ : string) : Request :=
  {| url := (endpoint t ++ "/sessions?upsert=true")%string; method := "POST";
     headers := st_headers t;
     body := SessionBody (sessionName t) tenantId_ (sessionExtra t) |}.

Definition runs_request (t : State) (persistedRun : RunCreate.t) : Request :=
  {| url := (endpoint t ++ "/runs")%string; method := "POST";
     headers := st_headers t; body := RunBody persistedRun |}.

(** A request that a tracer with the tenant id [tid] may make: a POST, and
    if it creates a session, then for that tenant. *)
Definition for_tenant (tid : string) (req : Request) : Prop :=
  method req = "POST" /\
  forall name tenant_id extra, body req = SessionBody name tenant_id extra -> tenant_id = tid.

(** What a call adds to the requests made when the tracer has the tenant
    id [tid]. *)
Definition adds_for (tid : string) (t u : State) : Prop :=
  tenantId u = tenantId t /\
  exists new, sent u = sent t ++ new /\ Forall (for_tenant tid) new.

(** The wire record of a run tree as a function of the tree, for a given
    session id and runtime descriptor: what [_convertToCreate] is compared
    with. Only the root takes [example_id]. *)
Fixpoint wire (session_id_ runtime : string) (example_id : option string)
    (run : Run.t) {struct run} : RunCreate.t :=
  {| RunCreate.id := Run.id run;
     RunCreate.name := Run.name run;
     RunCreate.start_time := Run.start_time run;
     RunCreate.end_time := Run.end_time run;
     RunCreate.run_type := Run.run_type run;
     RunCreate.reference_example_id := example_id;
     RunCreate.extra := <["runtime" := runtime]> (default ∅ (Run.extra run));
     RunCreate.execution_order := Run.execution_order run;
     RunCreate.serialized := Run.serialized run;
     RunCreate.error := Run.error run;
     RunCreate.inputs := Run.inputs run;
     RunCreate.outputs := default "{}" (Run.outputs run);
     RunCreate.session_id := session_id_;
     RunCreate.child_runs := map (wire session_id_ runtime None) (Run.child_runs run) |}.

(** The runs below the root of a run tree, in the order of [descendants]. *)
Fixpoint run_descendants (run : Run.t) : list Run.t :=
  (fix over (rs : list Run.t) : list Run.t :=
     match rs with
     | [] => []
     | r :: rest => r :: run_descendants r ++ over rest
     end) (Run.child_runs run).

End TracerLangChain.

(** ** The legacy LangChainTracer (end of tracer.ts)

    The class catches nothing: a rejected [fetch] and a rejected or
    unusable [response.json()] are thrown to the caller. A response that
    is not ok is not an error: the class writes a line on the console and
    goes on. *)

Module LegacyTracer.
Import Tracer.

(** What is handed to [JSON.stringify] for the body of a request: a run
    object (the store and its location) or a session to create. *)
Inductive Body : Type :=
| NoBody
| RunBody (store : list Run) (run : loc)
| SessionBody (sessionCreate : SessionCreate.t).

Record Request : Type := mkRequest {
  url : string;
  method : string;
  headers : list (string * string);
  body : Body;
}.

(** A line written by [console.error]: the text before the status, the
    status and the status text. *)
Record ConsoleError : Type := mkConsoleError {
  what : string;
  err_status : Z;
  err_statusText : string;
}.

(** The fields of the subclass and what is outside: the clock read by
    [Date.now()], the requests made so far, the console. *)
Record World : Type := mkWorld {
  endpoint : string;
  st_headers : list (string * string);
  clock : Z;
  sent : list Request;
  console : list ConsoleError;
}.

Definition set_sent (v : list Request) (w : World) : World :=
  mkWorld (endpoint w) (st_headers w) (clock w) v (console w).
Definition set_console (v : list ConsoleError) (w : World) : World :=
  mkWorld (endpoint w) (st_headers w) (clock w) (sent w) v.

(** The field initialisers and the constructor. *)
Definition new (env : TracerLangChain.Env) (now : Z) : World :=
  {| endpoint :=
       default "http://localhost:8000" (truthy (TracerLangChain.LANGCHAIN_ENDPOINT env));
     st_headers :=
       [("Content-Type", "application/json")] ++
       match truthy (TracerLangChain.LANGCHAIN_API_KEY env) with
       | Some key => [("x-api-key", key)]
       | None => []
       end;
     clock := now;
     sent := [];
     console := [] |}.

(** The requests of [_handleSessionResponse] for a session name, of
    [persistSession] and of [persistRun] for a run of kind [k], and the
    session used when none can be loaded. *)
Definition sessions_request (w : World) (sessionName : string) : Request :=
  {| url := (endpoint w ++ "/sessions?name=" ++ sessionName)%string; method := "GET";
     headers := st_headers w; body := NoBody |}.

Definition new_session_request (w : World) (sessionCreate : SessionCreate.t) : Request :=
  {| url := (endpoint w ++ "/sessions")%string; method := "POST";
     headers := st_headers w; body := SessionBody sessionCreate |}.

Definition run_path (k : RunType) : string :=
  match k with
  | llm => "/llm-runs"
  | chain => "/chain-runs"
  | tool => "/tool-runs"
  end.

Definition run_request (w : World) (h : list Run) (l : loc) (k : RunType) : Request :=
  {| url := (endpoint w ++ run_path k)%string; method := "POST";
     headers := st_headers w; body := RunBody h l |}.

Definition fallback_session (w : World) : TracerSession := mkSession 1 (clock w) None.

(** The world after the request [req] and, if [ok] is false, the console
    line [line]. *)
Definition answered (req : Request) (ok : bool) (line : ConsoleError) (w : World)
    : World :=
  set_console (console w ++ (if ok then [] else [line])) (set_sent (sent w ++ [req]) w).

Section LegacyTracer.

(** The remote store and the transport behind [fetch], given the requests
    made before: the promise of [fetch] is rejected ([Throws]) or resolves
    with a response. The [json] of a response is the outcome of
    [await response.json()] together with the first use the class makes of
    the value: for [POST /sessions] the [id] read from it, for
    [GET /sessions] the array whose [length] is read and which is
    destructured; it is [Throws] where the source throws there (the body
    is not JSON, the value is [null] or [undefined], the value is not an
    array). The elements of the array are sessions, as the cast
    [as TracerSession[]] of the source has it. *)
Variable remote_runs :
  list Request -> Request -> Outcome (TracerLangChain.Response unit).
Variable remote_new_session :
  list Request -> Request -> Outcome (TracerLangChain.Response (Outcome Z)).
Variable remote_sessions :
  list Request -> Request ->
  Outcome (TracerLangChain.Response (Outcome (list TracerSession))).

(** [await fetch(endpoint, init)] *)
Definition fetch {A}
    (remote : list Request -> Request -> Outcome (TracerLangChain.Response A))
    (req : Request) (w : World) : World * Outcome (TracerLangChain.Response A) :=
  (set_sent (sent w ++ [req]) w, remote (sent w) req).

(** [console.error(...)] *)
Definition console_error (line : ConsoleError) (w : World) : World :=
  set_console (console w ++ [line]) w.

(** [persistRun(run)] *)
Definition persistRun (h : list Run) (l : loc) (w : World) : World * Outcome unit :=
  match h !! l with
  | None => (w, Throws BadReference)
  | Some run =>
      let endpoint_ :=
        (if bool_decide (type run = llm) then endpoint w ++ "/llm-runs"
         else if bool_decide (type run = chain) then endpoint w ++ "/chain-runs"
         else endpoint w ++ "/tool-runs")%string in
      match
        fetch remote_runs
          {| url := endpoint_; method := "POST"; headers := st_headers w;
             body := RunBody h l |} w
      with
      | (w1, Throws err) => (w1, Throws err)
      | (w1, Returns response) =>
          if negb (TracerLangChain.ok response)
          then (console_error
                  (mkConsoleError "Failed to persist run"
                     (TracerLangChain.status response)
                     (TracerLangChain.statusText response))
                  w1, Returns tt)
          else (w1, Returns tt)
      end
  end.

(** [persistSession(sessionCreate)] *)
Definition persistSession (sessionCreate : SessionCreate.t) (w : World)
    : World * Outcome TracerSession :=
  let endpoint_ := (endpoint w ++ "/sessions")%string in
  match
    fetch remote_new_session
      {| url := endpoint_; method := "POST"; headers := st_headers w;
         body := SessionBody sessionCreate |} w
  with
  | (w1, Throws err) => (w1, Throws err)
  | (w1, Returns response) =>
      if negb (TracerLangChain.ok response)
      then (console_error
              (mkConsoleError "Failed to persist session"
                 (TracerLangChain.status response) (TracerLangChain.statusText response))
              w1,
            Returns (mkSession 1 (SessionCreate.start_time sessionCreate)
                       (SessionCreate.name sessionCreate)))
      else
        match TracerLangChain.json response with
        | Throws err => (w1, Throws err)
        | Returns id_ =>
            (w1, Returns (mkSession id_ (SessionCreate.start_time sessionCreate)
                            (SessionCreate.name sessionCreate)))
        end
  end.

(** [_handleSessionResponse(endpoint)] *)
Definition _handleSessionResponse (endpoint_ : string) : @M World TracerSession :=
  let* response :=
    external (fun w =>
      fetch remote_sessions
        {| url := endpoint_; method := "GET"; headers := st_headers w;
           body := NoBody |} w) in
  if negb (TracerLangChain.ok response)
  then
    external (fun w =>
      (console_error
         (mkConsoleError "Failed to load session"
            (TracerLangChain.status response) (TracerLangChain.statusText response)) w,
       Returns tt)) >>
    let* now := external (fun w => (w, Returns (clock w))) in
    let tracerSession := mkSession 1 now None in
    modify (set_session (Some tracerSession)) >>
    ret tracerSession
  else
    match TracerLangChain.json response with
    | Throws err => throw err
    | Returns [] =>
        let* now := external (fun w => (w, Returns (clock w))) in
        let tracerSession := mkSession 1 now None in
        modify (set_session (Some tracerSession)) >>
        ret tracerSession
    | Returns (tracerSession :: _) =>
        modify (set_session (Some tracerSession)) >>
        ret tracerSession
    end.

(** [loadSession(sessionName)] and [loadDefaultSession()] *)
Definition loadSession (sessionName : string) : @M World TracerSession :=
  let* t := get in
  _handleSessionResponse (endpoint (world t) ++ "/sessions?name=" ++ sessionName)%string.

Definition loadDefaultSession : @M World TracerSession :=
  let* t := get in
  _handleSessionResponse (endpoint (world t) ++ "/sessions?name=default")%string.

(** [loadDefaultSession] as the start handlers of [BaseTracer] use it,
    [this.session = await this.loadDefaultSession()]: its answer and what
    it does to the world. *)
Definition loadDefaultSession_world (w : World) : World * Outcome TracerSession :=
  let '(t, o) := loadDefaultSession (initial w) in (world t, o).

Variable JSON_stringify : Serialized -> string.
Variable hooks : @Hooks World.

(** The handlers of [BaseTracer] in this subclass. *)
Definition handle : Event -> @M World unit :=
  Tracer.handle loadDefaultSession_world persistRun JSON_stringify hooks.

Definition newSession : option string -> Z -> @M World TracerSession :=
  Tracer.newSession persistSession.

End LegacyTracer.
End LegacyTracer.

(** ** BaseTracer with the persistence of LangChainTracer *)

Module Combined.
Import Tracer.

Definition run_type_name (k : RunType) : string :=
  match k with
  | llm => "llm"
  | chain => "chain"
  | tool => "tool"
  end.

(** Modelled from the spec: the revision of tracer.js that part_000 imports
    its [Run] from is not under src/. The run object of [BaseTracer] is
    read as that [Run] field by field ([uuid] as [id], the name of
    [serialized] as [name], [type] as [run_type], the payload of the kind
    as [inputs] and [outputs]), its three child lists as the one
    [child_runs]. [fuel] bounds the depth; the length of the store is
    enough, a child being allocated after its parent. *)
Fixpoint as_run (fuel : nat) (h : list Run) (l : loc) : option TracerLangChain.Run.t :=
  match fuel with
  | O => None
  | S fuel' =>
      match h !! l with
      | None => None
      | Some r =>
          Some {| TracerLangChain.Run.id := uuid r;
                  TracerLangChain.Run.name := name (serialized r);
                  TracerLangChain.Run.start_time := start_time r;
                  TracerLangChain.Run.end_time := end_time r;
                  TracerLangChain.Run.run_type := run_type_name (type r);
                  TracerLangChain.Run.extra := None;
                  TracerLangChain.Run.execution_order := execution_order r;
                  TracerLangChain.Run.serialized := name (serialized r);
                  TracerLangChain.Run.error := error r;
                  TracerLangChain.Run.inputs :=
                    match type r with
                    | llm => String.concat ", " (prompts r)
                    | chain => inputs r
                    | tool => tool_input r
                    end;
                  TracerLangChain.Run.outputs :=
                    match type r with
                    | llm => response r
                    | chain => outputs r
                    | tool => output r
                    end;
                  TracerLangChain.Run.child_runs :=
                    omap (as_run fuel' h)
                      (child_llm_runs r ++ child_chain_runs r ++ child_tool_runs r) |}
      end
  end.

Section Combined.

Variable remote_tenants :
  list TracerLangChain.Request -> TracerLangChain.Request ->
  TracerLangChain.Response (option (list TracerLangChain.Tenant.t)).
Variable remote_sessions :
  list TracerLangChain.Request -> TracerLangChain.Request ->
  TracerLangChain.Response TracerLangChain.Session.t.
Variable remote_runs :
  list TracerLangChain.Request -> TracerLangChain.Request ->
  TracerLangChain.Response unit.
Variable runtime : string.

(** [persistRun] of the subclass, as [_endTrace] calls it. *)
Definition persistRun (h : list Run) (l : loc) (w : TracerLangChain.State)
    : TracerLangChain.State * Outcome unit :=
  match as_run (length h) h l with
  | Some run =>
      TracerLangChain.persistRun remote_tenants remote_sessions remote_runs runtime run w
  | None => (w, Throws BadReference)
  end.

End Combined.
End Combined.

(** ** Concrete tracers and call sequences *)

Module Scenario.
Import Tracer.

(** The session the legacy tracer falls back on. *)
Definition defaultSession : TracerSession := mkSession 1 0 None.

Definition loadDefaultSession {W} (w : W) : W * Outcome TracerSession :=
  (w, Returns defaultSession).

Definition persist_ok (h : list Run) (l : loc) (w : unit) : unit * Outcome unit :=
  (w, Returns tt).

Definition stringify (d : Serialized) : string := name d.

Definition no_hooks {W} : @Hooks W :=
  mkHooks None None None None None None None None None None.

(** A tracer whose [onLLMEnd] hook throws. *)
Definition failing_hook : @Hook unit :=
  fun _ w => (w, Throws (External "hook failed")).

Definition hooks_failing_onLLMEnd : @Hooks unit :=
  mkHooks None (Some failing_hook) None None None None None None None None.

(** chain A (root); llm B and llm C under A; chain X under A and llm Y
    under X; tool T1 under a missing parent; llm L (root); an llm run whose
    id is the empty string and llm F with that id as parent id. *)
Definition start_A : Event := ChainStart (mkSerialized "chain") "question" "A" None 100.
Definition start_B : Event := LLMStart (mkSerialized "llm") ["prompt"] "B" (Some "A") 101.
Definition end_B : Event := LLMEnd "answer" "B" 102.
Definition start_C : Event := LLMStart (mkSerialized "llm") ["prompt"] "C" (Some "A") 103.
Definition end_C : Event := LLMEnd "answer" "C" 104.
Definition end_A : Event := ChainEnd "result" "A" 105.
Definition start_T1 : Event := ToolStart (mkSerialized "tool") "input" "T1" (Some "missing") 100.
Definition start_X : Event := ChainStart (mkSerialized "chain") "sub" "X" (Some "A") 101.
Definition start_Y : Event := LLMStart (mkSerialized "llm") ["prompt"] "Y" (Some "X") 102.
Definition end_Y : Event := LLMEnd "answer" "Y" 103.
Definition end_X : Event := ChainEnd "sub-result" "X" 104.
Definition start_E : Event := LLMStart (mkSerialized "llm") ["prompt"] "" None 100.
Definition start_F : Event := LLMStart (mkSerialized "llm") ["prompt"] "F" (Some "") 101.
Definition start_L : Event := LLMStart (mkSerialized "llm") ["prompt"] "L" None 100.
Definition start_B_under_L : Event :=
  LLMStart (mkSerialized "llm") ["prompt"] "B" (Some "L") 101.

Definition handle : Event -> @State unit -> @State unit * Outcome unit :=
  Tracer.handle loadDefaultSession persist_ok stringify no_hooks.
Definition run_events : list Event -> @State unit -> @State unit :=
  Tracer.run_events loadDefaultSession persist_ok stringify no_hooks.

(** A remote store with one tenant, that creates sessions and refuses
    runs. *)
Definition one_tenant (sent : list TracerLangChain.Request) (req : TracerLangChain.Request)
    : TracerLangChain.Response (option (list TracerLangChain.Tenant.t)) :=
  TracerLangChain.mkResponse true 200 "OK" "" (Some [TracerLangChain.Tenant.mk "tenant-1"]).

Definition no_tenant (sent : list TracerLangChain.Request) (req : TracerLangChain.Request)
    : TracerLangChain.Response (option (list TracerLangChain.Tenant.t)) :=
  TracerLangChain.mkResponse true 200 "OK" "[]" (Some []).

Definition session_created (sent : list TracerLangChain.Request)
    (req : TracerLangChain.Request) : TracerLangChain.Response TracerLangChain.Session.t :=
  TracerLangChain.mkResponse true 200 "OK" ""
    (TracerLangChain.Session.mk "session-1" "tenant-1" 0 (Some "default")).

Definition runs_refused (sent : list TracerLangChain.Request)
    (req : TracerLangChain.Request) : TracerLangChain.Response unit :=
  TracerLangChain.mkResponse false 500 "Internal Server Error" "no" tt.

Definition runs_accepted (sent : list TracerLangChain.Request)
    (req : TracerLangChain.Request) : TracerLangChain.Response unit :=
  TracerLangChain.mkResponse true 200 "OK" "" tt.

(** A tracer constructed with an example id and nothing else. *)
Definition adapter : TracerLangChain.State :=
  TracerLangChain.new
    (TracerLangChain.mkFields (Some "example-1") None None None)
    (TracerLangChain.mkEnv None None None None).

(** The tracer after it has resolved its tenant id, and its session. *)
Definition adapter_with_tenant : TracerLangChain.State :=
  Eval vm_compute in (TracerLangChain.ensureTenantId one_tenant adapter).1.
Definition adapter_with_session : TracerLangChain.State :=
  Eval vm_compute in (TracerLangChain.ensureSession one_tenant session_created adapter).1.
Definition the_session : TracerLangChain.Session.t :=
  TracerLangChain.Session.mk "session-1" "tenant-1" 0 (Some "default").

(** The combined tracer against the store that refuses runs. *)
Definition handle_refused :
    Event -> @State TracerLangChain.State -> @State TracerLangChain.State * Outcome unit :=
  Tracer.handle loadDefaultSession
    (Combined.persistRun one_tenant session_created runs_refused "node")
    stringify no_hooks.

(** Stores that refuse the tenant query, and the session. *)
Definition tenants_refused (sent : list TracerLangChain.Request)
    (req : TracerLangChain.Request)
    : TracerLangChain.Response (option (list TracerLangChain.Tenant.t)) :=
  TracerLangChain.mkResponse false 403 "Forbidden" "no" None.

Definition session_refused (sent : list TracerLangChain.Request)
    (req : TracerLangChain.Request) : TracerLangChain.Response TracerLangChain.Session.t :=
  TracerLangChain.mkResponse false 500 "Internal Server Error" "no"
    (TracerLangChain.Session.mk "" "" 0 None).

(** Constructor arguments and an environment that names a tenant. *)
Definition adapter_fields : TracerLangChain.LangChainTracerFields :=
  TracerLangChain.mkFields (Some "example-1") None None None.
Definition adapter_fields_tenant : TracerLangChain.LangChainTracerFields :=
  TracerLangChain.mkFields None (Some "field-tenant") None None.
Definition adapter_fields_empty_tenant : TracerLangChain.LangChainTracerFields :=
  TracerLangChain.mkFields None (Some EmptyString) None None.
Definition env_with_tenant : TracerLangChain.Env :=
  TracerLangChain.mkEnv None None (Some "env-tenant") None.

(** Two agent actions on the chain A, and a second Start under the id A. *)
Definition actions_on_A : list Event := [AgentAction "search" "A"; AgentAction "lookup" "A"].
Definition restart_A : Event := ChainStart (mkSerialized "chain") "again" "A" None 110.

(** The legacy tracer against a store that knows no session and refuses
    runs, and against a transport that rejects every request; the clock
    shows 1000. *)
Definition legacy_world : LegacyTracer.World :=
  LegacyTracer.new (TracerLangChain.mkEnv None None None None) 1000.

Definition legacy_no_session (sent : list LegacyTracer.Request) (req : LegacyTracer.Request)
    : Outcome (TracerLangChain.Response (Outcome (list TracerSession))) :=
  Returns (TracerLangChain.mkResponse false 404 "Not Found" ""
             (Throws (External "Unexpected end of JSON input"))).

Definition legacy_runs_refused (sent : list LegacyTracer.Request)
    (req : LegacyTracer.Request) : Outcome (TracerLangChain.Response unit) :=
  Returns (TracerLangChain.mkResponse false 500 "Internal Server Error" "no" tt).

Definition legacy_unreachable {A} (sent : list LegacyTracer.Request)
    (req : LegacyTracer.Request) : Outcome (TracerLangChain.Response A) :=
  Throws (External "fetch failed").

Definition legacy_handle :
    Event -> @State LegacyTracer.World -> @State LegacyTracer.World * Outcome unit :=
  LegacyTracer.handle legacy_runs_refused legacy_no_session stringify no_hooks.

Definition legacy_handle_unreachable :
    Event -> @State LegacyTracer.World -> @State LegacyTracer.World * Outcome unit :=
  LegacyTracer.handle legacy_unreachable legacy_no_session stringify no_hooks.

(** A root run with one child, for the conversion. *)
Definition child_run : TracerLangChain.Run.t :=
  TracerLangChain.Run.mk "B" "llm" 101 102 "llm" None 2 "llm" None "prompt" (Some "answer") [].
Definition root_run : TracerLangChain.Run.t :=
  TracerLangChain.Run.mk "A" "chain" 100 105 "chain" None 1 "chain" None "question"
    (Some "result") [child_run].

End Scenario.

(** * Truthiness *)

Lemma truthy_Some p : p <> EmptyString -> truthy (Some p) = Some p.
Proof. intros Hp. unfold truthy. by destruct (decide _). Qed.

Lemma truthy_Some_inv o p : truthy o = Some p -> o = Some p /\ p <> EmptyString.
Proof.
  destruct o as [s|]; [|done]. unfold truthy. destruct (decide _); [done|].
  by intros [= <-].
Qed.

(** * Properties of BaseTracer *)

Module TracerFacts.
Import Tracer.

Section Facts.

Context {W : Type}.
Variable loadDefaultSession : W -> W * Outcome TracerSession.
Variable persistRun : list Run -> loc -> W -> W * Outcome unit.
Variable JSON_stringify : Serialized -> string.
Variable hooks : @Hooks W.

#[local] Abbreviation State := (@State W).
#[local] Abbreviation M := (@M W).
#[local] Abbreviation handle := (Tracer.handle loadDefaultSession persistRun JSON_stringify hooks).
#[local] Abbreviation run_events := (Tracer.run_events loadDefaultSession persistRun JSON_stringify hooks).
#[local] Abbreviation ensure_session := (Tracer.ensure_session loadDefaultSession).
#[local] Abbreviation _endTrace := (Tracer._endTrace persistRun).
#[local] Abbreviation start_shape := (Tracer.start_shape loadDefaultSession).
#[local] Abbreviation close_shape := (Tracer.close_shape persistRun).
#[local] Abbreviation hook_of := (Tracer.hook_of hooks).
#[local] Abbreviation hook_returns := (Tracer.hook_returns hooks).
#[local] Abbreviation hook_world := (Tracer.hook_world hooks).
#[local] Abbreviation closing_state := (Tracer.closing_state hooks).
#[local] Abbreviation closes_run :=
  (Tracer.closes_run loadDefaultSession persistRun JSON_stringify hooks).
#[local] Abbreviation returns_all :=
  (Tracer.returns_all loadDefaultSession persistRun JSON_stringify hooks).

Implicit Types (t : State) (r : Run) (l : loc) (e : Event).

(** ** The handlers have the shared shapes *)

Lemma handle_start e k a par :
  start_of e = Some (k, a, par) ->
  exists mk, builds mk k a par /\ handle e = start_shape mk (hook_of e) par.
Proof.
  destruct e; intros [= <- <- <-]; eexists; (split; [|reflexivity]);
    by constructor.
Qed.

Lemma handle_close e k a :
  close_of e = Some (k, a) ->
  exists what, handle e = close_shape k what (close_update e) (hook_of e) a.
Proof. destruct e; intros [= <- <-]; eexists; reflexivity. Qed.

(** ** Later versions of objects and states *)

Lemma evolves_refl r : evolves r r.
Proof. constructor; auto; lia. Qed.

Lemma evolves_trans r1 r2 r3 : evolves r1 r2 -> evolves r2 r3 -> evolves r1 r3.
Proof.
  intros [] []; constructor; try congruence; lia.
Qed.

Lemma extends_refl t : extends t t.
Proof.
  constructor; [|by left].
  intros l r Hl. exists r. split; [done | apply evolves_refl].
Qed.

Lemma extends_same t t' :
  heap t' = heap t -> runMap t' = runMap t -> extends t t'.
Proof.
  intros Hh Hm. constructor; rewrite ?Hh, ?Hm; [|by left].
  intros l r Hl. exists r. split; [done | apply evolves_refl].
Qed.

Lemma WF_same t t' :
  heap t' = heap t -> runMap t' = runMap t -> WF t -> WF t'.
Proof. intros Hh Hm [H1 H2]. constructor; rewrite ?Hh, ?Hm; done. Qed.

Lemma extends_length t t' : extends t t' -> length (heap t) <= length (heap t').
Proof.
  intros [Hh _].
  destruct (decide (length (heap t) <= length (heap t'))) as [|Hn]; [done|].
  destruct (lookup_lt_is_Some_2 (heap t) (length (heap t'))) as [r Hr]; [lia|].
  destruct (Hh _ _ Hr) as (r' & Hr' & _).
  apply lookup_lt_Some in Hr'. lia.
Qed.

Lemma extends_trans t1 t2 t3 : extends t1 t2 -> extends t2 t3 -> extends t1 t3.
Proof.
  intros H12 H23. pose proof (extends_length _ _ H12) as Hlen.
  destruct H12 as [Hh12 Hm12], H23 as [Hh23 Hm23]. constructor.
  - intros l r Hl. destruct (Hh12 _ _ Hl) as (r2 & Hl2 & He2).
    destruct (Hh23 _ _ Hl2) as (r3 & Hl3 & He3).
    exists r3. split; [done | by eapply evolves_trans].
  - intros a l Hl. destruct (Hm23 _ _ Hl) as [Hl2|Hge]; [|right; lia].
    destruct (Hm12 _ _ Hl2) as [?|?]; [by left | by right].
Qed.

(** ** Every primitive of the tracer is safe *)

Lemma safe_ret {A} (a : A) : safe (W:=W) (ret a).
Proof. intros t. split; [done | apply extends_refl]. Qed.

Lemma safe_throw {A} (err : Error) : safe (W:=W) (A:=A) (throw err).
Proof. intros t. split; [done | apply extends_refl]. Qed.

Lemma safe_get : @safe W State get.
Proof. intros t. split; [done | apply extends_refl]. Qed.

Lemma safe_bind {A B} (c : M A) (k : A -> M B) :
  safe c -> (forall a, safe (k a)) -> safe (bind c k).
Proof.
  intros Hc Hk t. unfold bind.
  destruct (Hc t) as [Hwf Hext]. destruct (c t) as [t1 [a|err]]; simpl in *.
  - destruct (Hk a t1) as [Hwf' Hext']. split; [auto|].
    by eapply extends_trans.
  - done.
Qed.

Lemma safe_modify (f : State -> State) :
  (forall t, (WF t -> WF (f t)) /\ extends t (f t)) -> safe (modify f).
Proof. intros Hf t. apply Hf. Qed.

Lemma safe_external {A} (f : W -> W * Outcome A) : safe (external f).
Proof.
  intros t. unfold external. destruct (f (world t)) as [w o]; simpl.
  split; [by apply WF_same | by apply extends_same].
Qed.

Lemma safe_call_hook (h : option (@Hook W)) r : safe (call_hook h r).
Proof. destruct h; [apply safe_external | apply safe_ret]. Qed.

Lemma safe_deref l : safe (W:=W) (deref l).
Proof.
  intros t. unfold deref. destruct (heap t !! l); (split; [done | apply extends_refl]).
Qed.

Lemma safe_mutate l (f : Run -> Run) :
  (forall r, evolves r (f r)) -> safe (W:=W) (mutate l f).
Proof.
  intros Hf t. unfold mutate.
  destruct (heap t !! l) as [r|] eqn:Hl; simpl; [|split; [done | apply extends_refl]].
  assert (Hlt : l < length (heap t)) by by eapply lookup_lt_Some.
  split.
  - intros [H1 H2]. constructor; simpl.
    + intros a l' Ha. destruct (H1 _ _ Ha) as (r' & Hr' & Hu).
      destruct (decide (l = l')) as [<-|Hne].
      * exists (f r). rewrite list_lookup_insert_eq by done.
        split; [done|]. rewrite (ev_uuid _ _ (Hf r)). by simplify_eq.
      * exists r'. by rewrite list_lookup_insert_ne.
    + intros l' r' Hr'. destruct (decide (l = l')) as [<-|Hne].
      * rewrite list_lookup_insert_eq in Hr' by done. injection Hr' as <-.
        destruct (Hf r) as [_ _ _ Ho Hc]. specialize (H2 _ _ Hl). lia.
      * rewrite list_lookup_insert_ne in Hr' by done. eauto.
  - constructor; simpl; [|by left].
    intros l' r' Hr'. destruct (decide (l = l')) as [<-|Hne].
    + exists (f r). rewrite list_lookup_insert_eq by done.
      split; [done|]. simplify_eq. apply Hf.
    + exists r'. rewrite list_lookup_insert_ne by done.
      split; [done | apply evolves_refl].
Qed.

Lemma safe__getExecutionOrder par : safe (W:=W) (_getExecutionOrder par).
Proof.
  destruct par as [p|]; [|apply safe_ret].
  apply safe_bind; [apply safe_get|]. intros t.
  destruct (runMap t !! p); [|apply safe_throw].
  apply safe_bind; [apply safe_deref|]. intros ?. apply safe_ret.
Qed.

Lemma safe_ensure_session : safe ensure_session.
Proof.
  apply safe_bind; [apply safe_get|]. intros t.
  destruct (session t); [apply safe_ret|].
  apply safe_bind; [apply safe_external|]. intros s.
  apply safe_bind; [|intros; apply safe_ret].
  apply safe_modify. intros t'. split.
  - by apply WF_same.
  - by apply extends_same.
Qed.

Lemma evolves__addChildRun r l k : evolves r (_addChildRun r l k).
Proof. destruct k; constructor; simpl; auto; lia. Qed.

Lemma mutate_length l (f : Run -> Run) t :
  length (heap (mutate (W:=W) l f t).1) = length (heap t).
Proof.
  unfold mutate. destruct (heap t !! l); simpl; [apply length_insert | done].
Qed.

(** Registering a new object at the first free location. *)
Lemma register_safe run t :
  (execution_order run <= child_execution_order run)%Z ->
  let t' := set_runMap (<[uuid run := length (heap t)]> (runMap t))
              (set_heap (heap t ++ [run]) t) in
  (WF t -> WF t') /\ extends t t'.
Proof.
  intros Hrun t'. split.
  - intros [H1 H2]. constructor; simpl.
    + intros a l Ha. destruct (decide (uuid run = a)) as [<-|Hne].
      * rewrite lookup_insert_eq in Ha. injection Ha as <-.
        exists run. split; [|done]. by apply list_lookup_middle.
      * rewrite lookup_insert_ne in Ha by done.
        destruct (H1 _ _ Ha) as (r & Hr & Hu). exists r.
        split; [|done]. rewrite lookup_app_l; [done|]. by eapply lookup_lt_Some.
    + intros l r Hl. apply lookup_app_Some in Hl as [Hl|[_ Hl]]; [eauto|].
      apply list_lookup_singleton_Some in Hl as [_ <-]. done.
  - constructor; simpl.
    + intros l r Hl. exists r. split; [|apply evolves_refl].
      rewrite lookup_app_l; [done|]. by eapply lookup_lt_Some.
    + intros a l Ha. destruct (decide (uuid run = a)) as [<-|Hne].
      * rewrite lookup_insert_eq in Ha. injection Ha as <-. by right.
      * rewrite lookup_insert_ne in Ha by done. by left.
Qed.

Lemma safe__startTrace run :
  (execution_order run <= child_execution_order run)%Z ->
  safe (W:=W) (_startTrace run).
Proof.
  intros Hrun t. destruct (_startTrace run t) as [t' o] eqn:E; simpl.
  unfold _startTrace in E. unfold bind at 1, get at 1 in E.
  cbv beta iota in E.
  match type of E with context [bind ?c _ t] => set (link := c) in E end.
  assert (Hlink : safe link /\ length (heap (link t).1) = length (heap t)).
  { subst link. destruct (truthy (parent_uuid run)) as [p|]; [|by split; [apply safe_ret|]].
    destruct (runMap t !! p) as [lp|]; [|by split; [apply safe_throw|]].
    split.
    - apply safe_bind; [apply safe_deref|]. intros parentRun.
      destruct (negb _); [apply safe_throw|].
      apply safe_mutate. intros r. apply evolves__addChildRun.
    - unfold bind, deref. destruct (heap t !! lp) as [parentRun|]; [|done].
      destruct (negb _); [done|]. apply mutate_length. }
  destruct Hlink as [Hsafe Hlen]. destruct (Hsafe t) as [Hwf Hext].
  unfold bind at 1 in E. destruct (link t) as [t1 [[]|err]]; simpl in *.
  - unfold bind, modify, ret in E; simpl in E. injection E as <- _.
    rewrite <- Hlen.
    destruct (register_safe run t1 Hrun) as [Hwf' Hext'].
    split; [auto | by eapply extends_trans].
  - injection E as <- _. by split.
Qed.

Lemma evolves_set_child_execution_order r v :
  evolves r (set_child_execution_order (Z.max (child_execution_order r) v) r).
Proof. constructor; simpl; auto; lia. Qed.

Lemma safe__endTrace l : safe (_endTrace l).
Proof.
  apply safe_bind; [apply safe_deref|]. intros run.
  apply safe_bind.
  - destruct (truthy (parent_uuid run)) as [p|].
    + apply safe_bind; [apply safe_get|]. intros t.
      destruct (runMap t !! p); [|apply safe_throw].
      apply safe_mutate. intros r. apply evolves_set_child_execution_order.
    + apply safe_bind; [apply safe_get|]. intros t. apply safe_external.
  - intros _. apply safe_modify. intros t. split.
    + intros [H1 H2]. constructor; simpl; [|done].
      intros a l' Ha. apply lookup_delete_Some in Ha as [_ Ha]. eauto.
    + constructor; simpl.
      * intros l' r Hl. exists r. split; [done | apply evolves_refl].
      * intros a l' Ha. apply lookup_delete_Some in Ha as [_ Ha]. by left.
Qed.

Lemma safe_start_shape mk h k a par :
  builds mk k a par -> safe (start_shape mk h par).
Proof.
  intros Hmk.
  apply safe_bind; [apply safe_ensure_session|]. intros s.
  apply safe_bind; [apply safe__getExecutionOrder|]. intros v.
  apply safe_bind; [|intros; apply safe_call_hook].
  apply safe__startTrace. rewrite (b_order _ _ _ _ Hmk), (b_child_order _ _ _ _ Hmk). lia.
Qed.

(** The stamps of End and Fail, and the action log, leave the identity and
    the orders of a run alone. *)
Lemma evolves_close_update e r : evolves r (close_update e r).
Proof. destruct e; simpl; apply evolves_refl || (constructor; simpl; auto; lia). Qed.

Lemma safe_close_shape k what upd h a :
  (forall r, evolves r (upd r)) -> safe (close_shape k what upd h a).
Proof.
  intros Hupd. apply safe_bind; [apply safe_get|]. intros t.
  destruct (runMap t !! a) as [l|]; [|apply safe_throw].
  apply safe_bind; [apply safe_deref|]. intros run.
  destruct (negb _); [apply safe_throw|].
  apply safe_bind; [by apply safe_mutate|]. intros _.
  apply safe_bind; [apply safe_deref|]. intros run'.
  apply safe_bind; [apply safe_call_hook|]. intros _.
  apply safe__endTrace.
Qed.

Lemma safe_handleAgentAction act a : safe (handleAgentAction hooks act a).
Proof.
  apply safe_bind; [apply safe_get|]. intros t.
  destruct (runMap t !! a) as [l|]; [|apply safe_ret].
  apply safe_bind; [apply safe_deref|]. intros run.
  destruct (negb _); [apply safe_ret|].
  apply safe_bind.
  - apply safe_mutate. intros r. constructor; simpl; auto; lia.
  - intros _. apply safe_bind; [apply safe_deref|]. intros run'.
    apply safe_call_hook.
Qed.

Lemma safe_handle e : safe (handle e).
Proof.
  destruct (start_of e) as [[[k a] par]|] eqn:Hs.
  { destruct (handle_start _ _ _ _ Hs) as (mk & Hmk & ->).
    by eapply safe_start_shape. }
  destruct (close_of e) as [[k a]|] eqn:Hc.
  { destruct (handle_close _ _ _ Hc) as (what & ->).
    apply safe_close_shape. intros r. apply evolves_close_update. }
  destruct e; try discriminate. apply safe_handleAgentAction.
Qed.

Lemma run_events_app es1 es2 t :
  run_events (es1 ++ es2) t = run_events es2 (run_events es1 t).
Proof. apply foldl_app. Qed.

Lemma safe_run_events es t :
  (WF t -> WF (run_events es t)) /\ extends t (run_events es t).
Proof.
  revert t. induction es as [|e es IH]; intros t; simpl.
  - split; [done | apply extends_refl].
  - destruct (safe_handle e t) as [Hwf Hext].
    destruct (IH (handle e t).1) as [Hwf' Hext'].
    split; [auto | by eapply extends_trans].
Qed.

Lemma WF_initial (w : W) : WF (initial w).
Proof. constructor; simpl; intros ??; [rewrite lookup_empty | rewrite lookup_nil]; done. Qed.

(** Every state reached from the constructed tracer satisfies the registry
    invariant: in particular [BadReference] is never thrown. *)
Lemma WF_reachable (w : W) es : WF (run_events es (initial w)).
Proof. apply safe_run_events, WF_initial. Qed.

(** ** What each operation computes *)

Lemma _getExecutionOrder_found p lp P t :
  runMap t !! p = Some lp -> heap t !! lp = Some P ->
  _getExecutionOrder (Some p) t = (t, Returns (child_execution_order P + 1)%Z).
Proof.
  intros Hp HP. unfold _getExecutionOrder, bind, get, deref. by rewrite Hp, HP.
Qed.

Lemma _getExecutionOrder_missing p t :
  runMap t !! p = None ->
  _getExecutionOrder (Some p) t = (t, Throws (ParentNotFound p)).
Proof. intros Hp. unfold _getExecutionOrder, bind, get. by rewrite Hp. Qed.

Lemma _getExecutionOrder_state par t : (_getExecutionOrder par t).1 = t.
Proof.
  destruct par as [p|]; [|done]. unfold _getExecutionOrder, bind, get, deref.
  destruct (runMap t !! p) as [lp|]; [|done]. by destruct (heap t !! lp).
Qed.

(** The session bootstrap leaves the registry alone, whatever it returns. *)
Lemma ensure_session_registry t :
  heap (ensure_session t).1 = heap t /\ runMap (ensure_session t).1 = runMap t.
Proof.
  unfold Tracer.ensure_session, bind, get, external, modify, ret.
  destruct (session t); [done|].
  destruct (loadDefaultSession (world t)) as [w [s|err]]; done.
Qed.

Lemma ensure_session_set t s : session t = Some s -> ensure_session t = (t, Returns s).
Proof. intros Hs. unfold Tracer.ensure_session, bind, get. by rewrite Hs. Qed.

Lemma call_hook_registry (h : option (@Hook W)) r t :
  heap (call_hook h r t).1 = heap t /\ runMap (call_hook h r t).1 = runMap t /\
  session (call_hook h r t).1 = session t.
Proof.
  destruct h as [f|]; [|done]. unfold call_hook, external.
  by destruct (f r (world t)).
Qed.

Lemma _startTrace_root run t :
  truthy (parent_uuid run) = None ->
  _startTrace run t = (registered run (heap t) t, Returns (length (heap t))).
Proof. intros Hp. unfold _startTrace, bind, get. by rewrite Hp. Qed.

Lemma _startTrace_child run p lp P t :
  truthy (parent_uuid run) = Some p ->
  runMap t !! p = Some lp -> heap t !! lp = Some P -> type P <> llm ->
  _startTrace run t =
    (registered run (<[lp := _addChildRun P (length (heap t)) (type run)]> (heap t)) t,
     Returns (length (heap t))).
Proof.
  intros Hp Hlp HP Hty. unfold _startTrace, bind, get, deref, mutate.
  rewrite Hp; simpl. rewrite Hlp, HP.
  destruct (type P); [done| |]; simpl; by rewrite HP.
Qed.

Lemma _startTrace_invalid run p lp P t :
  truthy (parent_uuid run) = Some p ->
  runMap t !! p = Some lp -> heap t !! lp = Some P -> type P = llm ->
  _startTrace run t = (t, Throws InvalidParentKind).
Proof.
  intros Hp Hlp HP Hty. unfold _startTrace, bind, get, deref.
  rewrite Hp; simpl. by rewrite Hlp, HP, Hty.
Qed.

(** The three ways [_endTrace] goes. *)
Lemma _endTrace_root l run t w o :
  heap t !! l = Some run -> truthy (parent_uuid run) = None ->
  persistRun (heap t) l (world t) = (w, o) ->
  _endTrace l t =
    match o with
    | Returns _ => (set_runMap (delete (uuid run) (runMap t)) (set_world w t), Returns tt)
    | Throws err => (set_world w t, Throws err)
    end.
Proof.
  intros Hl Hp Hpersist. unfold Tracer._endTrace, bind, deref, get, external, modify.
  rewrite Hl, Hp; simpl. rewrite Hpersist. by destruct o.
Qed.

Lemma _endTrace_orphan l run p t :
  heap t !! l = Some run -> truthy (parent_uuid run) = Some p ->
  runMap t !! p = None ->
  _endTrace l t = (t, Throws (ParentNotFound p)).
Proof.
  intros Hl Hp Hlp. unfold Tracer._endTrace, bind, deref, get.
  rewrite Hl, Hp; simpl. by rewrite Hlp.
Qed.

Lemma _endTrace_child l run p lp P t :
  heap t !! l = Some run -> truthy (parent_uuid run) = Some p ->
  runMap t !! p = Some lp -> heap t !! lp = Some P ->
  _endTrace l t =
    (set_runMap (delete (uuid run) (runMap t))
       (set_heap (<[lp := set_child_execution_order
                             (Z.max (child_execution_order P) (child_execution_order run)) P]>
                    (heap t)) t),
     Returns tt).
Proof.
  intros Hl Hp Hlp HP. unfold Tracer._endTrace, bind, deref, get, mutate, modify.
  rewrite Hl, Hp; simpl. rewrite Hlp, HP. done.
Qed.

(** A start handler, step by step. *)
Lemma start_shape_eq mk h par t t1 s :
  ensure_session t = (t1, Returns s) ->
  start_shape mk h par t =
    match (_getExecutionOrder par t1).2 with
    | Throws err => (t1, Throws err)
    | Returns v =>
        match _startTrace (mk s v) t1 with
        | (t2, Returns _) => call_hook h (mk s v) t2
        | (t2, Throws err) => (t2, Throws err)
        end
    end.
Proof.
  intros Hs. unfold Tracer.start_shape. unfold bind at 1. rewrite Hs.
  unfold bind at 1. pose proof (_getExecutionOrder_state par t1) as Hst.
  destruct (_getExecutionOrder par t1) as [t1' [v|err]]; simpl in *; subst t1'; [|done].
  unfold bind at 1. by destruct (_startTrace (mk s v) t1) as [t2 [l|err]].
Qed.

Lemma start_shape_no_session mk h par t w err :
  session t = None -> loadDefaultSession (world t) = (w, Throws err) ->
  start_shape mk h par t = (set_world w t, Throws err).
Proof.
  intros Hs Hl. unfold Tracer.start_shape, Tracer.ensure_session, bind, get, external.
  by rewrite Hs, Hl.
Qed.

(** An end or error handler on an open run of the right kind: it stamps the
    run, calls the hook and, if the hook returns, closes the run. *)
Lemma close_shape_eq k what upd h a l run t :
  runMap t !! a = Some l -> heap t !! l = Some run -> type run = k ->
  close_shape k what upd h a t =
    match call_hook h (upd run) (set_heap (<[l := upd run]> (heap t)) t) with
    | (t2, Returns _) => _endTrace l t2
    | (t2, Throws err) => (t2, Throws err)
    end.
Proof.
  intros Ha Hl Hk. unfold Tracer.close_shape. unfold bind at 1, get at 1.
  rewrite Ha. unfold bind at 1, deref at 1. rewrite Hl.
  rewrite bool_decide_true by done. simpl.
  unfold bind at 1, mutate. rewrite Hl.
  unfold bind at 1, deref at 1. simpl.
  rewrite list_lookup_insert_eq by by eapply lookup_lt_Some.
  unfold bind at 1. by destruct (call_hook _ _ _) as [t2 [[]|err]].
Qed.

(** ** Start, case by case *)

Lemma start_shape_missing mk h p t t1 s :
  ensure_session t = (t1, Returns s) -> runMap t !! p = None ->
  start_shape mk h (Some p) t = (t1, Throws (ParentNotFound p)).
Proof.
  intros Hs Hp. rewrite (start_shape_eq _ _ _ _ _ _ Hs).
  destruct (ensure_session_registry t) as [_ Hm]. rewrite Hs in Hm; simpl in Hm.
  rewrite _getExecutionOrder_missing by by rewrite Hm. done.
Qed.

Lemma start_shape_invalid mk h k a p lp P t t1 s :
  builds mk k a (Some p) -> ensure_session t = (t1, Returns s) ->
  p <> EmptyString -> runMap t !! p = Some lp -> heap t !! lp = Some P ->
  type P = llm ->
  start_shape mk h (Some p) t = (t1, Throws InvalidParentKind).
Proof.
  intros Hmk Hs Hne Hp HP Hty. rewrite (start_shape_eq _ _ _ _ _ _ Hs).
  destruct (ensure_session_registry t) as [Hh Hm]. rewrite Hs in Hh, Hm; simpl in Hh, Hm.
  rewrite (_getExecutionOrder_found p lp P) by by rewrite ?Hh, ?Hm. simpl.
  rewrite (_startTrace_invalid _ p lp P); rewrite ?Hh, ?Hm; try done.
  rewrite (b_parent _ _ _ _ Hmk). by apply truthy_Some.
Qed.

Lemma start_shape_child mk h k a p lp P t t1 s :
  builds mk k a (Some p) -> ensure_session t = (t1, Returns s) ->
  p <> EmptyString -> runMap t !! p = Some lp -> heap t !! lp = Some P ->
  type P <> llm ->
  let run := mk s (child_execution_order P + 1)%Z in
  start_shape mk h (Some p) t =
    call_hook h run
      (registered run (<[lp := _addChildRun P (length (heap t)) k]> (heap t)) t1).
Proof.
  intros Hmk Hs Hne Hp HP Hty run. rewrite (start_shape_eq _ _ _ _ _ _ Hs).
  destruct (ensure_session_registry t) as [Hh Hm]. rewrite Hs in Hh, Hm; simpl in Hh, Hm.
  rewrite (_getExecutionOrder_found p lp P) by by rewrite ?Hh, ?Hm. simpl.
  rewrite (_startTrace_child _ p lp P); rewrite ?Hh, ?Hm; try done.
  - by rewrite (b_type _ _ _ _ Hmk).
  - rewrite (b_parent _ _ _ _ Hmk). by apply truthy_Some.
Qed.

Lemma start_shape_detached mk h k a par v t t1 s :
  builds mk k a par -> ensure_session t = (t1, Returns s) ->
  truthy par = None -> (_getExecutionOrder par t1).2 = Returns v ->
  start_shape mk h par t = call_hook h (mk s v) (registered (mk s v) (heap t) t1).
Proof.
  intros Hmk Hs Hpar Hv. rewrite (start_shape_eq _ _ _ _ _ _ Hs), Hv.
  destruct (ensure_session_registry t) as [Hh Hm]. rewrite Hs in Hh, Hm; simpl in Hh, Hm.
  rewrite _startTrace_root by by rewrite (b_parent _ _ _ _ Hmk).
  by rewrite Hh.
Qed.

Lemma new_run_at_registered mk h k a par v t t1 s hp :
  builds mk k a par -> heap t1 = heap t -> length hp = length (heap t) ->
  new_run_at t (call_hook h (mk s v) (registered (mk s v) hp t1)).1 k a par v.
Proof.
  intros [Hu Hk Hp Ho Hc] Hh Hlen. exists (mk s v).
  destruct (call_hook_registry h (mk s v) (registered (mk s v) hp t1)) as (-> & -> & _).
  simpl. rewrite Hu, Hh, lookup_insert_eq. split_and!; try done.
  by apply list_lookup_middle.
Qed.

(** Outcome of a Start event once the session is there. *)
Lemma start_shape_spec mk h k a par t t1 s :
  builds mk k a par -> ensure_session t = (t1, Returns s) ->
  match par with
  | None => new_run_at t (start_shape mk h par t).1 k a par 1
  | Some p =>
      match runMap t !! p with
      | None => start_shape mk h par t = (t1, Throws (ParentNotFound p))
      | Some lp =>
          forall P, heap t !! lp = Some P ->
          if decide (p <> EmptyString /\ type P = llm)
          then start_shape mk h par t = (t1, Throws InvalidParentKind)
          else new_run_at t (start_shape mk h par t).1 k a par
                 (child_execution_order P + 1)
      end
  end.
Proof.
  intros Hmk Hs.
  destruct (ensure_session_registry t) as [Hh Hm]. rewrite Hs in Hh, Hm; simpl in Hh, Hm.
  destruct par as [p|].
  - destruct (runMap t !! p) as [lp|] eqn:Hp; [|by eapply start_shape_missing].
    intros P HP. destruct (decide _) as [[Hne Hty]|Hn].
    + by eapply start_shape_invalid.
    + destruct (decide (p = EmptyString)) as [->|Hne].
      * erewrite start_shape_detached; [by eapply new_run_at_registered |done..|].
        by rewrite (_getExecutionOrder_found _ lp P) by by rewrite ?Hh, ?Hm.
      * erewrite start_shape_child; [|done..|tauto].
        eapply new_run_at_registered; [done..|]. by rewrite length_insert.
  - erewrite start_shape_detached; [by eapply new_run_at_registered |done..].
Qed.

Lemma start_shape_session_fails mk h par t t1 err :
  ensure_session t = (t1, Throws err) ->
  start_shape mk h par t = (t1, Throws err).
Proof. intros Hs. unfold Tracer.start_shape. unfold bind at 1. by rewrite Hs. Qed.

(** C1. For every Start event, once the session is there: without a parent
    id the resolver returns 1; with a parent id found in the registry it
    returns the child-execution-order of the parent plus 1; with a parent
    id not in the registry it throws "Parent run not found", and so does
    the handler. Whenever the handler creates the run (it does unless the
    parent is an LLM run), the run sits at the first free location, is
    registered under its id, and both its execution order and its
    child-execution-order are the resolved value. *)
Theorem start_execution_order e k a par t t1 s :
  start_of e = Some (k, a, par) ->
  ensure_session t = (t1, Returns s) ->
  match par with
  | None =>
      _getExecutionOrder None t1 = (t1, Returns 1%Z) /\
      new_run_at t (handle e t).1 k a None 1
  | Some p =>
      match runMap t !! p with
      | None =>
          _getExecutionOrder (Some p) t1 = (t1, Throws (ParentNotFound p)) /\
          handle e t = (t1, Throws (ParentNotFound p))
      | Some lp =>
          forall P, heap t !! lp = Some P ->
          _getExecutionOrder (Some p) t1 =
            (t1, Returns (child_execution_order P + 1)%Z) /\
          if decide (p <> EmptyString /\ type P = llm)
          then handle e t = (t1, Throws InvalidParentKind)
          else new_run_at t (handle e t).1 k a (Some p) (child_execution_order P + 1)
      end
  end.
Proof.
  intros He Hs. destruct (handle_start _ _ _ _ He) as (mk & Hmk & ->).
  pose proof (start_shape_spec mk (hook_of e) k a par t t1 s Hmk Hs) as Hspec.
  destruct (ensure_session_registry t) as [Hh Hm]. rewrite Hs in Hh, Hm; simpl in Hh, Hm.
  destruct par as [p|]; [|done].
  destruct (runMap t !! p) as [lp|] eqn:Hp.
  - intros P HP. split; [|by apply Hspec].
    apply (_getExecutionOrder_found p lp P); by rewrite ?Hh, ?Hm.
  - split; [|done]. apply _getExecutionOrder_missing. by rewrite Hm.
Qed.

(** C7. A Start event whose parent id is not in the registry throws, and
    leaves the registry exactly as it was: same bindings, same store (so no
    run is inserted and no child list changes). The error is "Parent run
    not found" whenever the session bootstrap, which comes first, has not
    itself thrown. *)
Theorem start_missing_parent e k a p t :
  start_of e = Some (k, a, Some p) ->
  runMap t !! p = None ->
  runMap (handle e t).1 = runMap t /\
  heap (handle e t).1 = heap t /\
  (exists err, (handle e t).2 = Throws err) /\
  (forall t1 s, ensure_session t = (t1, Returns s) ->
     (handle e t).2 = Throws (ParentNotFound p)).
Proof.
  intros He Hp. destruct (handle_start _ _ _ _ He) as (mk & Hmk & ->).
  destruct (ensure_session_registry t) as [Hh Hm].
  destruct (ensure_session t) as [t1 [s|err]] eqn:Hs; simpl in Hh, Hm.
  - rewrite (start_shape_missing _ _ _ _ _ _ Hs Hp); simpl.
    split_and!; eauto.
  - rewrite (start_shape_session_fails _ _ _ _ _ _ Hs); simpl.
    split_and!; eauto. intros ?? [=].
Qed.

Lemma adopts__addChildRun P c k : adopts P (_addChildRun P c k) k c.
Proof. destruct k; constructor; simpl; by rewrite ?(right_id_L [] (++)). Qed.

(** C8. A Start event whose (non-empty) parent id resolves to an LLM run
    throws "Caller run can only be a tool or chain"; the registry is as
    before, so the new run is not inserted. Under a chain or a tool run the
    location of the new run is appended to the parent's child list of its
    kind, nothing else in the parent changes, and the run is registered. *)
Theorem start_under_parent_kind e k a p lp P t t1 s :
  start_of e = Some (k, a, Some p) ->
  p <> EmptyString ->
  runMap t !! p = Some lp -> heap t !! lp = Some P ->
  ensure_session t = (t1, Returns s) ->
  match type P with
  | llm =>
      handle e t = (t1, Throws InvalidParentKind) /\
      runMap t1 = runMap t /\ heap t1 = heap t
  | _ =>
      (exists P', heap (handle e t).1 !! lp = Some P' /\
                  adopts P P' k (length (heap t))) /\
      runMap (handle e t).1 !! a = Some (length (heap t))
  end.
Proof.
  intros He Hne Hp HP Hs. destruct (handle_start _ _ _ _ He) as (mk & Hmk & ->).
  destruct (ensure_session_registry t) as [Hh Hm]. rewrite Hs in Hh, Hm; simpl in Hh, Hm.
  assert (Hlt : lp < length (heap t)) by by eapply lookup_lt_Some.
  assert (Hchild : type P <> llm ->
    (exists P', heap (start_shape mk (hook_of e) (Some p) t).1 !! lp = Some P' /\
                adopts P P' k (length (heap t))) /\
    runMap (start_shape mk (hook_of e) (Some p) t).1 !! a = Some (length (heap t))).
  { intros Hty. erewrite start_shape_child by done.
    match goal with |- context [call_hook ?h ?r ?u] =>
      destruct (call_hook_registry h r u) as (-> & -> & _) end.
    simpl. rewrite (b_uuid _ _ _ _ Hmk), Hh, lookup_insert_eq. split; [|done].
    exists (_addChildRun P (length (heap t)) k). split; [|apply adopts__addChildRun].
    rewrite lookup_app_l by by rewrite length_insert.
    by apply list_lookup_insert_eq. }
  destruct (type P) eqn:Hty; [|by apply Hchild..].
  split_and!; try done. by eapply start_shape_invalid.
Qed.

(** ** End and Fail *)

Lemma close_update_parent e r : parent_uuid (close_update e r) = parent_uuid r.
Proof. apply evolves_close_update. Qed.

Lemma close_update_child_order e r :
  child_execution_order (close_update e r) = child_execution_order r.
Proof. by destruct e. Qed.

Lemma close_update_uuid e r : uuid (close_update e r) = uuid r.
Proof. apply evolves_close_update. Qed.

Lemma stamped_close_update e r : stamped e (close_update e r).
Proof. by destruct e. Qed.

Lemma handle_close_eq e k a l run t :
  close_of e = Some (k, a) ->
  runMap t !! a = Some l -> heap t !! l = Some run -> type run = k ->
  handle e t =
    match call_hook (hook_of e) (close_update e run)
            (set_heap (<[l := close_update e run]> (heap t)) t) with
    | (t2, Returns _) => _endTrace l t2
    | (t2, Throws err) => (t2, Throws err)
    end.
Proof.
  intros He Ha Hl Hk. destruct (handle_close _ _ _ He) as (what & ->).
  by apply close_shape_eq.
Qed.

(** When the hook returns, the handler is [_endTrace] in [closing_state]. *)
Lemma handle_close_returns e k a l run t :
  close_of e = Some (k, a) ->
  runMap t !! a = Some l -> heap t !! l = Some run -> type run = k ->
  hook_returns e (close_update e run) (world t) ->
  handle e t = _endTrace l (closing_state e l run t).
Proof.
  intros He Ha Hl Hk Hh. rewrite (handle_close_eq _ _ _ _ _ _ He Ha Hl Hk).
  unfold Tracer.hook_returns in Hh.
  unfold Tracer.closing_state, Tracer.hook_world, call_hook, external.
  destruct (hook_of e) as [f|]; simpl; [|by destruct t].
  destruct (f _ _) as [w o]; simpl in *. by subst o.
Qed.

Lemma closing_state_run e l run t :
  heap t !! l = Some run ->
  heap (closing_state e l run t) !! l = Some (close_update e run).
Proof. intros Hl. simpl. apply list_lookup_insert_eq. by eapply lookup_lt_Some. Qed.

(** Close of a run with a registered parent. *)
Lemma close_child e k a l run p lp P t :
  close_of e = Some (k, a) ->
  runMap t !! a = Some l -> heap t !! l = Some run -> type run = k ->
  hook_returns e (close_update e run) (world t) ->
  truthy (parent_uuid run) = Some p ->
  runMap t !! p = Some lp -> heap t !! lp = Some P ->
  exists P',
    handle e t =
      (mkState (session t) (delete (uuid run) (runMap t))
         (<[lp := P']> (heap (closing_state e l run t)))
         (world (closing_state e l run t)), Returns tt) /\
    evolves P P' /\
    child_execution_order P' =
      Z.max (child_execution_order P) (child_execution_order run).
Proof.
  intros He Ha Hl Hk Hh Hp Hlp HP.
  rewrite (handle_close_returns _ _ _ _ _ _ He Ha Hl Hk Hh).
  assert (Hlt : l < length (heap t)) by by eapply lookup_lt_Some.
  set (t2 := closing_state e l run t).
  assert (HP2 : exists P2, heap t2 !! lp = Some P2 /\ evolves P P2 /\
                           child_execution_order P2 = child_execution_order P).
  { subst t2; simpl. destruct (decide (l = lp)) as [<-|Hne].
    - exists (close_update e run). rewrite list_lookup_insert_eq by done.
      simplify_eq. split_and!; [done|apply evolves_close_update|apply close_update_child_order].
    - exists P. rewrite list_lookup_insert_ne by done.
      split_and!; [done|apply evolves_refl|done]. }
  destruct HP2 as (P2 & HP2 & Hev & Hc).
  eexists. split.
  - rewrite (_endTrace_child _ (close_update e run) p lp P2);
      [|by apply closing_state_run|by rewrite close_update_parent|done..].
    by rewrite close_update_uuid, close_update_child_order.
  - split; [|simpl; by rewrite Hc].
    eapply evolves_trans; [done|]. apply evolves_set_child_execution_order.
Qed.

(** C2. For every End or Fail event on an open run of the right kind whose
    hook returns. If the run has a parent id: when the parent is no longer
    registered the handler throws "Parent run not found"; otherwise it
    returns, the child-execution-order of the parent object becomes the
    maximum of its previous value and that of the closing run, the
    persistence adapter is not called, and the closing run is removed from
    the registry. If the run has no parent id, the run is handed to
    [persistRun]: the outcome of the handler is the outcome of that call,
    and when it returns the closing run is removed from the registry. A run
    has a parent id when [parent_uuid] is truthy, the test of [_endTrace]. *)
Theorem close_spec e k a l run t :
  close_of e = Some (k, a) ->
  WF t ->
  runMap t !! a = Some l -> heap t !! l = Some run -> type run = k ->
  hook_returns e (close_update e run) (world t) ->
  let t2 := closing_state e l run t in
  match truthy (parent_uuid run) with
  | Some p =>
      match runMap t !! p with
      | None => handle e t = (t2, Throws (ParentNotFound p))
      | Some lp =>
          forall P, heap t !! lp = Some P ->
          (handle e t).2 = Returns tt /\
          runMap (handle e t).1 = delete a (runMap t) /\
          (exists P', heap (handle e t).1 !! lp = Some P' /\
                      child_execution_order P' =
                        Z.max (child_execution_order P) (child_execution_order run)) /\
          world (handle e t).1 = world t2
      end
  | None =>
      handle e t =
        match persistRun (heap t2) l (world t2) with
        | (w, Returns _) =>
            (mkState (session t) (delete a (runMap t)) (heap t2) w, Returns tt)
        | (w, Throws err) =>
            (mkState (session t) (runMap t) (heap t2) w, Throws err)
        end
  end.
Proof.
  intros He Hwf Ha Hl Hk Hh t2.
  destruct (wf_ref _ Hwf _ _ Ha) as (run' & Hl' & Hu). simplify_eq.
  destruct (truthy (parent_uuid run)) as [p|] eqn:Hp.
  - destruct (runMap t !! p) as [lp|] eqn:Hlp.
    + intros P HP.
      destruct (close_child _ _ _ _ _ _ _ _ _ He Ha Hl eq_refl Hh Hp Hlp HP)
        as (P' & -> & Hev & Hc). simpl.
      split_and!; try done. exists P'. split; [|done].
      apply list_lookup_insert_eq. rewrite length_insert. by eapply lookup_lt_Some.
    + rewrite (handle_close_returns _ _ _ _ _ _ He Ha Hl eq_refl Hh).
      apply (_endTrace_orphan _ (close_update e run));
        [by apply closing_state_run|by rewrite close_update_parent|done].
  - rewrite (handle_close_returns _ _ _ _ _ _ He Ha Hl eq_refl Hh).
    destruct (persistRun (heap t2) l (world t2)) as [w o] eqn:Hpersist.
    rewrite (_endTrace_root _ (close_update e run) _ w o);
      [|by apply closing_state_run|by rewrite close_update_parent|done].
    rewrite close_update_uuid. by destruct o.
Qed.

(** C5, as the code has it. For every End or Fail event on an open run of
    the right kind whose hook returns: the closing run is removed from the
    registry when the handler returns, and only then. When the handler
    throws, the registry is as before the call; in particular when
    [persistRun] throws for a root run, that error reaches the caller and
    the root is still registered. *)
Theorem close_removes_on_return e k a l run t :
  close_of e = Some (k, a) ->
  WF t ->
  runMap t !! a = Some l -> heap t !! l = Some run -> type run = k ->
  hook_returns e (close_update e run) (world t) ->
  let t2 := closing_state e l run t in
  ((handle e t).2 = Returns tt -> runMap (handle e t).1 !! a = None) /\
  (forall err, (handle e t).2 = Throws err -> runMap (handle e t).1 = runMap t) /\
  (forall w err,
     truthy (parent_uuid run) = None ->
     persistRun (heap t2) l (world t2) = (w, Throws err) ->
     (handle e t).2 = Throws err /\ runMap (handle e t).1 !! a = Some l).
Proof.
  intros He Hwf Ha Hl Hk Hh t2.
  destruct (wf_ref _ Hwf _ _ Ha) as (run' & Hl' & Hu). simplify_eq.
  assert (Hroot : forall w o, truthy (parent_uuid run) = None ->
    persistRun (heap t2) l (world t2) = (w, o) ->
    handle e t = match o with
                 | Returns _ =>
                     (set_runMap (delete (uuid run) (runMap t2)) (set_world w t2), Returns tt)
                 | Throws err => (set_world w t2, Throws err)
                 end).
  { intros w o Hp Hpersist.
    rewrite (handle_close_returns _ _ _ _ _ _ He Ha Hl eq_refl Hh).
    rewrite (_endTrace_root _ (close_update e run) _ w o);
      [|by apply closing_state_run|by rewrite close_update_parent|done].
    by rewrite close_update_uuid. }
  split_and!.
  - destruct (truthy (parent_uuid run)) as [p|] eqn:Hp.
    + destruct (runMap t !! p) as [lp|] eqn:Hlp.
      * destruct (wf_ref _ Hwf _ _ Hlp) as (P & HP & _).
        destruct (close_child _ _ _ _ _ _ _ _ _ He Ha Hl eq_refl Hh Hp Hlp HP)
          as (P' & -> & _). simpl. intros _. apply lookup_delete_eq.
      * rewrite (handle_close_returns _ _ _ _ _ _ He Ha Hl eq_refl Hh).
        rewrite (_endTrace_orphan _ (close_update e run) p);
          [done|by apply closing_state_run|by rewrite close_update_parent|done].
    + destruct (persistRun (heap t2) l (world t2)) as [w o] eqn:Hpersist.
      rewrite (Hroot w o eq_refl eq_refl). destruct o; [|done].
      simpl. intros _. apply lookup_delete_eq.
  - intros err. destruct (truthy (parent_uuid run)) as [p|] eqn:Hp.
    + destruct (runMap t !! p) as [lp|] eqn:Hlp.
      * destruct (wf_ref _ Hwf _ _ Hlp) as (P & HP & _).
        destruct (close_child _ _ _ _ _ _ _ _ _ He Ha Hl eq_refl Hh Hp Hlp HP)
          as (P' & -> & _). done.
      * rewrite (handle_close_returns _ _ _ _ _ _ He Ha Hl eq_refl Hh).
        rewrite (_endTrace_orphan _ (close_update e run) p);
          [done|by apply closing_state_run|by rewrite close_update_parent|done].
    + destruct (persistRun (heap t2) l (world t2)) as [w o] eqn:Hpersist.
      rewrite (Hroot w o eq_refl eq_refl). by destruct o.
  - intros w err Hp Hpersist. by rewrite (Hroot w _ Hp Hpersist).
Qed.

(** C10. For every End or Fail event on an open run of the right kind whose
    hook throws: the handler throws that error and [_endTrace] is not
    reached. The registry keeps every binding, the run included; the run
    carries the end timestamp and the payload or error message of the
    event; no object, the parent included, has its child-execution-order
    changed; nothing is handed to [persistRun] (the world is the one the
    hook left). *)
Theorem hook_failure_skips_close e k a l run t f w err :
  close_of e = Some (k, a) ->
  runMap t !! a = Some l -> heap t !! l = Some run -> type run = k ->
  hook_of e = Some f ->
  f (close_update e run) (world t) = (w, Throws err) ->
  (handle e t).2 = Throws err /\
  runMap (handle e t).1 = runMap t /\
  (exists run', heap (handle e t).1 !! l = Some run' /\ stamped e run') /\
  (forall l' r, heap t !! l' = Some r ->
     exists r', heap (handle e t).1 !! l' = Some r' /\
                child_execution_order r' = child_execution_order r) /\
  world (handle e t).1 = w.
Proof.
  intros He Ha Hl Hk Hf Hthrow.
  rewrite (handle_close_eq _ _ _ _ _ _ He Ha Hl Hk).
  assert (Hlt : l < length (heap t)) by by eapply lookup_lt_Some.
  rewrite Hf. unfold call_hook, external. simpl. rewrite Hthrow. simpl.
  split_and!; try done.
  - exists (close_update e run). rewrite list_lookup_insert_eq by done.
    split; [done | apply stamped_close_update].
  - intros l' r Hr. destruct (decide (l = l')) as [<-|Hne].
    + exists (close_update e run). rewrite list_lookup_insert_eq by done.
      split; [done|]. rewrite close_update_child_order. by simplify_eq.
    + exists r. by rewrite list_lookup_insert_ne.
Qed.

(** ** Call sequences *)

Lemma start_returns e k a p lp P t :
  start_of e = Some (k, a, Some p) ->
  runMap t !! p = Some lp -> heap t !! lp = Some P ->
  (handle e t).2 = Returns tt ->
  new_run_at t (handle e t).1 k a (Some p) (child_execution_order P + 1).
Proof.
  intros He Hp HP Hret. destruct (handle_start _ _ _ _ He) as (mk & Hmk & Heq).
  rewrite Heq in *.
  destruct (ensure_session t) as [t1 [s|err]] eqn:Hs.
  - pose proof (start_shape_spec mk (hook_of e) k a (Some p) t t1 s Hmk Hs) as Hspec.
    simpl in Hspec. rewrite Hp in Hspec. specialize (Hspec P HP).
    destruct (decide _); [|done]. by rewrite Hspec in Hret.
  - by rewrite (start_shape_session_fails _ _ _ _ _ _ Hs) in Hret.
Qed.

Lemma close_shape_wrong_kind k what upd h a l run t :
  runMap t !! a = Some l -> heap t !! l = Some run -> type run <> k ->
  close_shape k what upd h a t = (t, Throws (NoSuchOpenRun what)).
Proof.
  intros Ha Hl Hk. unfold Tracer.close_shape, bind, get, deref.
  rewrite Ha, Hl. by rewrite bool_decide_false.
Qed.

(** An End or Fail event that returns, on a run with a parent id, has found
    the parent and left it at least as far as the run. *)
Lemma close_returns_child e k a l run p t :
  close_of e = Some (k, a) ->
  WF t ->
  runMap t !! a = Some l -> heap t !! l = Some run ->
  truthy (parent_uuid run) = Some p ->
  (handle e t).2 = Returns tt ->
  exists lp P',
    runMap t !! p = Some lp /\
    heap (handle e t).1 !! lp = Some P' /\
    (child_execution_order run <= child_execution_order P')%Z /\
    runMap (handle e t).1 = delete a (runMap t).
Proof.
  intros He Hwf Ha Hl Hp Hret.
  destruct (wf_ref _ Hwf _ _ Ha) as (run' & Hl' & Hu). simplify_eq.
  destruct (decide (type run = k)) as [Hk|Hk]; cycle 1.
  { destruct (handle_close _ _ _ He) as (what & Heq). rewrite Heq in Hret.
    by rewrite (close_shape_wrong_kind _ _ _ _ _ _ _ _ Ha Hl Hk) in Hret. }
  assert (Hh : hook_returns e (close_update e run) (world t)).
  { rewrite (handle_close_eq _ _ _ _ _ _ He Ha Hl Hk) in Hret.
    unfold Tracer.hook_returns. unfold call_hook, external in Hret.
    destruct (hook_of e) as [f|]; [|done]. simpl in Hret.
    destruct (f _ _) as [w [[]|err]]; done. }
  destruct (runMap t !! p) as [lp|] eqn:Hlp; cycle 1.
  { rewrite (handle_close_returns _ _ _ _ _ _ He Ha Hl Hk Hh) in Hret.
    rewrite (_endTrace_orphan _ (close_update e run) p) in Hret;
      [done|by apply closing_state_run|by rewrite close_update_parent|done]. }
  destruct (wf_ref _ Hwf _ _ Hlp) as (P & HP & _).
  destruct (close_child _ _ _ _ _ _ _ _ _ He Ha Hl Hk Hh Hp Hlp HP)
    as (P' & -> & Hev & Hc).
  exists lp, P'. simpl. split_and!; try done; [|lia].
  apply list_lookup_insert_eq. rewrite length_insert. by eapply lookup_lt_Some.
Qed.

Lemma call_hook_returns e r t :
  hook_returns e r (world t) ->
  call_hook (hook_of e) r t = (set_world (hook_world e r (world t)) t, Returns tt).
Proof.
  unfold Tracer.hook_returns, Tracer.hook_world, call_hook, external.
  destruct (hook_of e) as [f|]; [|by destruct t].
  destruct (f r (world t)) as [w o]; simpl. by intros ->.
Qed.

Lemma call_hook_returned e r t :
  (call_hook (hook_of e) r t).2 = Returns tt -> hook_returns e r (world t).
Proof.
  unfold Tracer.hook_returns, call_hook, external.
  destruct (hook_of e) as [f|]; [|done]. by destruct (f r (world t)).
Qed.

Lemma handle_close_returned e k a l run t :
  close_of e = Some (k, a) ->
  runMap t !! a = Some l -> heap t !! l = Some run -> type run = k ->
  (handle e t).2 = Returns tt ->
  hook_returns e (close_update e run) (world t).
Proof.
  intros He Ha Hl Hk Hret.
  rewrite (handle_close_eq _ _ _ _ _ _ He Ha Hl Hk) in Hret.
  apply (call_hook_returned e _ (set_heap (<[l := close_update e run]> (heap t)) t)).
  by destruct (call_hook _ _ _) as [t2 [[]|err]].
Qed.

(** One leaf child of [p], started and closed, both calls returning: the
    child gets the child-execution-order of the parent plus 1, and leaves
    the parent just there. *)
Lemma leaf_child_step t s p lp P c :
  session t = Some s -> p <> EmptyString ->
  runMap t !! p = Some lp -> heap t !! lp = Some P -> type P <> llm ->
  leaf_child p c ->
  (handle c.1 t).2 = Returns tt ->
  (handle c.2 (handle c.1 t).1).2 = Returns tt ->
  let t' := run_events [c.1; c.2] t in
  exists r P',
    session t' = Some s /\ runMap t' !! p = Some lp /\
    heap t' !! lp = Some P' /\ type P' = type P /\
    child_execution_order P' = (child_execution_order P + 1)%Z /\
    length (heap t') = S (length (heap t)) /\
    heap t' !! length (heap t) = Some r /\
    start_of c.1 = Some (type r, uuid r, Some p) /\
    execution_order r = (child_execution_order P + 1)%Z.
Proof.
  intros Hs Hne Hp HP Hty (k & a & HeS & HeC & Hap) HretS HretC t'.
  destruct c as [eS eC]; simpl in *.
  assert (Hlt : lp < length (heap t)) by by eapply lookup_lt_Some.
  destruct (handle_start _ _ _ _ HeS) as (mk & Hmk & HeqS).
  set (run := mk s (child_execution_order P + 1)%Z).
  set (h1 := <[lp := _addChildRun P (length (heap t)) k]> (heap t)).
  assert (Ht1 : handle eS t =
    (set_world (hook_world eS run (world t)) (registered run h1 t), Returns tt)).
  { rewrite HeqS in HretS |- *.
    rewrite (start_shape_child mk _ k a p lp P t t s Hmk (ensure_session_set _ _ Hs))
      in HretS |- * by done.
    rewrite call_hook_returns; [done|]. exact (call_hook_returned _ _ _ HretS). }
  rewrite Ht1 in HretC; simpl in HretC.
  subst t'. unfold Tracer.run_events; simpl. rewrite Ht1; simpl.
  set (t1 := set_world _ _).
  assert (Hlen1 : length h1 = length (heap t)) by apply length_insert.
  assert (Hu : uuid run = a) by apply (b_uuid _ _ _ _ Hmk).
  assert (Ha1 : runMap t1 !! a = Some (length (heap t))).
  { simpl. by rewrite Hu, lookup_insert_eq. }
  assert (Hl1 : heap t1 !! length (heap t) = Some run).
  { simpl. by apply list_lookup_middle. }
  assert (Hp1 : runMap t1 !! p = Some lp).
  { simpl. by rewrite Hu, lookup_insert_ne. }
  assert (HP1 : heap t1 !! lp = Some (_addChildRun P (length (heap t)) k)).
  { simpl. rewrite lookup_app_l by lia. by apply list_lookup_insert_eq. }
  assert (Hk : type run = k) by apply (b_type _ _ _ _ Hmk).
  assert (Hpar : truthy (parent_uuid run) = Some p).
  { unfold run. rewrite (b_parent _ _ _ _ Hmk). by apply truthy_Some. }
  destruct (close_child eC k a _ run p lp _ t1 HeC Ha1 Hl1 Hk
              (handle_close_returned eC k a _ run t1 HeC Ha1 Hl1 Hk HretC)
              Hpar Hp1 HP1) as (P' & -> & Hev & Hc).
  simpl. exists (close_update eC run), P'.
  rewrite Hu.
  assert (Hlen2 : length (<[length (heap t) := close_update eC run]> (h1 ++ [run]))
                  = S (length (heap t))).
  { rewrite length_insert, length_app; simpl. lia. }
  split_and!; try done.
  - by rewrite lookup_delete_ne, lookup_insert_ne.
  - apply list_lookup_insert_eq. lia.
  - rewrite (ev_type _ _ Hev). by destruct k.
  - rewrite Hc. unfold run. rewrite (b_child_order _ _ _ _ Hmk).
    replace (child_execution_order (_addChildRun P (length (heap t)) k))
      with (child_execution_order P) by by destruct k.
    lia.
  - by rewrite length_insert.
  - rewrite list_lookup_insert_ne by lia.
    apply list_lookup_insert_eq. rewrite length_app; simpl. lia.
  - rewrite (ev_type _ _ (evolves_close_update eC run)), close_update_uuid.
    unfold run. by rewrite (b_type _ _ _ _ Hmk), (b_uuid _ _ _ _ Hmk).
  - rewrite (ev_order _ _ (evolves_close_update eC run)).
    apply (b_order _ _ _ _ Hmk).
Qed.

(** C4, as the code has it. A chain or tool run [P] is registered under
    the non-empty id [p] and the session is set. The calls made are, with
    nothing in between, Start and End (or Fail) of a first child of [p],
    then of a second, and so on, each child under an id other than [p] and
    closed by the handler of its kind, and every one of these calls
    returns. Then the Nth child (counted from 1) gets the
    child-execution-order [P] had before the first call plus N, and [P]
    ends at the order of the last child. *)
Theorem sequential_children t s p lp P kids :
  session t = Some s -> p <> EmptyString ->
  runMap t !! p = Some lp -> heap t !! lp = Some P -> type P <> llm ->
  Forall (leaf_child p) kids ->
  returns_all (one_by_one kids) t ->
  let t' := run_events (one_by_one kids) t in
  (forall N c, kids !! N = Some c ->
     exists r, heap t' !! (length (heap t) + N) = Some r /\
               start_of c.1 = Some (type r, uuid r, Some p) /\
               execution_order r = (child_execution_order P + Z.of_nat (S N))%Z) /\
  (exists P', heap t' !! lp = Some P' /\
              child_execution_order P' =
                (child_execution_order P + Z.of_nat (length kids))%Z).
Proof.
  intros Hs Hne Hp HP Hty Hkids. revert t P Hs Hp HP Hty.
  induction Hkids as [|c kids Hc Hkids IH]; intros t P Hs Hp HP Hty Hret t'.
  - split; [by intros N c; rewrite lookup_nil|].
    exists P. split; [done|]. simpl. lia.
  - change (one_by_one (c :: kids)) with (c.1 :: c.2 :: one_by_one kids) in Hret.
    destruct Hret as (HretS & HretC & Hrest).
    destruct (leaf_child_step t s p lp P c Hs Hne Hp HP Hty Hc HretS HretC)
      as (r & P1 & Hs1 & Hp1 & HP1 & Hty1 & Hc1 & Hlen1 & Hr1 & Hst1 & Ho1).
    assert (Ht' : t' = run_events (one_by_one kids) (run_events [c.1; c.2] t)).
    { subst t'. change (one_by_one (c :: kids)) with ([c.1; c.2] ++ one_by_one kids).
      apply run_events_app. }
    change (handle c.2 (handle c.1 t).1).1 with (run_events [c.1; c.2] t) in Hrest.
    set (t1 := run_events [c.1; c.2] t) in *.
    destruct (IH t1 P1 Hs1 Hp1 HP1) as [IHkids IHparent]; [by rewrite Hty1|done|].
    rewrite <- Ht' in IHkids, IHparent. split.
    + intros [|N] c' Hc'; simpl in Hc'.
      * injection Hc' as <-. rewrite Nat.add_0_r.
        destruct (safe_run_events (one_by_one kids) t1) as [_ Hext].
        rewrite <- Ht' in Hext.
        destruct (ext_heap _ _ Hext _ _ Hr1) as (r' & Hr' & Hev).
        exists r'. rewrite (ev_type _ _ Hev), (ev_uuid _ _ Hev), (ev_order _ _ Hev).
        split_and!; try done; lia.
      * destruct (IHkids N c' Hc') as (r' & Hr' & Hst' & Ho').
        exists r'. rewrite Hlen1 in Hr'.
        replace (length (heap t) + S N) with (S (length (heap t)) + N) by lia.
        split_and!; try done; lia.
    + destruct IHparent as (P' & HP' & Hc'). exists P'. split; [done|].
      simpl length. lia.
Qed.

(** * More on BaseTracer *)

(** ** Every handler, case by case *)

Lemma handle_start_fresh e k a par :
  start_of e = Some (k, a, par) ->
  exists mk, builds mk k a par /\ builds_fresh mk /\
             handle e = start_shape mk (hook_of e) par.
Proof.
  destruct e; intros [= <- <- <-]; eexists; (split; [|split; [|reflexivity]]);
    by constructor.
Qed.

Lemma handle_close_message e k a :
  close_of e = Some (k, a) ->
  handle e = close_shape k (no_run_message k) (close_update e) (hook_of e) a.
Proof. destruct e; intros [= <- <-]; reflexivity. Qed.

Lemma ensure_session_result t t1 s :
  ensure_session t = (t1, Returns s) ->
  session t1 = Some s /\ (forall s0, session t = Some s0 -> s0 = s).
Proof.
  unfold Tracer.ensure_session, bind, get, external, modify, ret.
  destruct (session t) as [s0|] eqn:Hs.
  - intros [= <- <-]. split; [done|]. by intros ? [= <-].
  - destruct (loadDefaultSession (world t)) as [w [s'|err]]; [|done].
    intros [= <- <-]. by split.
Qed.

Lemma _getExecutionOrder_dangling p lp t :
  runMap t !! p = Some lp -> heap t !! lp = None ->
  _getExecutionOrder (Some p) t = (t, Throws BadReference).
Proof.
  intros Hp HP. unfold _getExecutionOrder, bind, get, deref. by rewrite Hp, HP.
Qed.

Lemma _startTrace_missing run p t :
  truthy (parent_uuid run) = Some p -> runMap t !! p = None ->
  _startTrace run t = (t, Throws (CallerNotFound p)).
Proof.
  intros Hp Hlp. unfold _startTrace, bind, get. rewrite Hp; simpl. by rewrite Hlp.
Qed.

Lemma start_cases e k a par t :
  start_of e = Some (k, a, par) ->
  start_result t (handle e t).1 (handle e t).2 k a par.
Proof.
  intros He. destruct (handle_start_fresh _ _ _ _ He) as (mk & Hmk & Hfresh & ->).
  destruct (ensure_session_registry t) as [Hh Hm].
  destruct (ensure_session t) as [t1 [s|err]] eqn:Hs; simpl in Hh, Hm; cycle 1.
  { rewrite (start_shape_session_fails _ _ _ _ _ _ Hs); simpl. split.
    - intros s0 Hs0. by rewrite (ensure_session_set _ _ Hs0) in Hs.
    - left. eauto. }
  destruct (ensure_session_result _ _ _ Hs) as [Hs1 Hsame].
  assert (Hfail : forall err, start_result t t1 (Throws err) k a par).
  { intros err. split; [|left; eauto].
    intros s0 Hs0. by rewrite Hs1, (Hsame _ Hs0). }
  assert (Hreg : forall v hp,
    resolves t par v -> attaches t par k hp ->
    start_result t
      (call_hook (hook_of e) (mk s v) (registered (mk s v) hp t1)).1
      (call_hook (hook_of e) (mk s v) (registered (mk s v) hp t1)).2 k a par).
  { intros v hp Hres Hatt.
    destruct (call_hook_registry (hook_of e) (mk s v) (registered (mk s v) hp t1))
      as (Hh' & Hm' & Hs').
    split.
    - intros s0 Hs0. rewrite Hs'. simpl. by rewrite Hs1, (Hsame _ Hs0).
    - right. exists s, v, (mk s v), hp. rewrite Hh', Hm', Hs'. simpl.
      rewrite (b_uuid _ _ _ _ Hmk), Hh, Hm. split_and!; try done.
      destruct Hmk, Hfresh. by constructor. }
  rewrite (start_shape_eq _ _ _ _ _ _ Hs).
  destruct par as [p|].
  - destruct (runMap t !! p) as [lp|] eqn:Hp; cycle 1.
    { rewrite _getExecutionOrder_missing by by rewrite Hm. apply Hfail. }
    destruct (heap t !! lp) as [P|] eqn:HP; cycle 1.
    { rewrite (_getExecutionOrder_dangling p lp) by by rewrite ?Hh, ?Hm. apply Hfail. }
    rewrite (_getExecutionOrder_found p lp P) by by rewrite ?Hh, ?Hm. simpl.
    assert (Hres : resolves t (Some p) (child_execution_order P + 1)).
    { exists lp, P. done. }
    destruct (decide (p = EmptyString)) as [->|Hne].
    + rewrite _startTrace_root by by rewrite (b_parent _ _ _ _ Hmk).
      rewrite Hh. by apply Hreg.
    + destruct (decide (type P = llm)) as [Hty|Hty].
      * rewrite (_startTrace_invalid _ p lp P);
          [apply Hfail
          |rewrite (b_parent _ _ _ _ Hmk); by apply truthy_Some
          |by rewrite Hm|by rewrite Hh|done].
      * rewrite (_startTrace_child _ p lp P);
          [|rewrite (b_parent _ _ _ _ Hmk); by apply truthy_Some
           |by rewrite Hm|by rewrite Hh|done].
        rewrite (b_type _ _ _ _ Hmk), Hh. apply Hreg; [done|].
        unfold attaches. rewrite truthy_Some by done. exists lp, P. done.
  - simpl. rewrite _startTrace_root by by rewrite (b_parent _ _ _ _ Hmk).
    rewrite Hh. by apply Hreg.
Qed.

Lemma _endTrace_dangling l run p lp t :
  heap t !! l = Some run -> truthy (parent_uuid run) = Some p ->
  runMap t !! p = Some lp -> heap t !! lp = None ->
  _endTrace l t = (t, Throws BadReference).
Proof.
  intros Hl Hp Hlp HP. unfold Tracer._endTrace, bind, deref, get, mutate.
  rewrite Hl, Hp; simpl. by rewrite Hlp, HP.
Qed.

Lemma close_shape_unknown k what upd h a t :
  runMap t !! a = None ->
  close_shape k what upd h a t = (t, Throws (NoSuchOpenRun what)).
Proof. intros Ha. unfold Tracer.close_shape, bind, get. by rewrite Ha. Qed.

Lemma close_shape_dangling k what upd h a l t :
  runMap t !! a = Some l -> heap t !! l = None ->
  close_shape k what upd h a t = (t, Throws BadReference).
Proof.
  intros Ha Hl. unfold Tracer.close_shape, bind, get, deref. by rewrite Ha, Hl.
Qed.

Lemma close_cases e k a t :
  close_of e = Some (k, a) ->
  close_result e t (handle e t).1 (handle e t).2 k a.
Proof.
  intros He.
  destruct (runMap t !! a) as [l|] eqn:Ha; cycle 1.
  { rewrite (handle_close_message _ _ _ He), (close_shape_unknown _ _ _ _ _ _ Ha).
    split; [done|]. left. eauto. }
  destruct (heap t !! l) as [r|] eqn:Hl; cycle 1.
  { rewrite (handle_close_message _ _ _ He), (close_shape_dangling _ _ _ _ _ _ _ Ha Hl).
    split; [done|]. left. eauto. }
  destruct (decide (type r = k)) as [Hk|Hk]; cycle 1.
  { rewrite (handle_close_message _ _ _ He),
      (close_shape_wrong_kind _ _ _ _ _ _ _ _ Ha Hl Hk).
    split; [done|]. left. eauto. }
  rewrite (handle_close_eq _ _ _ _ _ _ He Ha Hl Hk).
  set (t1 := set_heap (<[l := close_update e r]> (heap t)) t).
  destruct (call_hook_registry (hook_of e) (close_update e r) t1) as (Hh2 & Hm2 & Hs2).
  destruct (call_hook (hook_of e) (close_update e r) t1) as [t2 [[]|err]];
    simpl in Hh2, Hm2, Hs2; cycle 1.
  { simpl. split; [done|]. right. exists l, r. split_and!; try done. left. eauto. }
  assert (Hl2 : heap t2 !! l = Some (close_update e r)).
  { rewrite Hh2. apply list_lookup_insert_eq. by eapply lookup_lt_Some. }
  destruct (truthy (parent_uuid r)) as [p|] eqn:Hp.
  - destruct (runMap t !! p) as [lp|] eqn:Hlp; cycle 1.
    { rewrite (_endTrace_orphan _ (close_update e r) p);
        [|done|by rewrite close_update_parent|by rewrite Hm2].
      simpl. split; [done|]. right. exists l, r. split_and!; try done. left. eauto. }
    destruct (heap t2 !! lp) as [P|] eqn:HP; cycle 1.
    { rewrite (_endTrace_dangling _ (close_update e r) p lp);
        [|done|by rewrite close_update_parent|by rewrite Hm2|done].
      simpl. split; [done|]. right. exists l, r. split_and!; try done. left. eauto. }
    rewrite (_endTrace_child _ (close_update e r) p lp P);
      [|done|by rewrite close_update_parent|by rewrite Hm2|done].
    unfold close_result. simpl.
    rewrite close_update_uuid, close_update_child_order, Hh2, Hm2.
    split; [done|]. right. exists l, r. split_and!; try done. right. right.
    exists p, lp, P. rewrite Hh2 in HP. done.
  - destruct (persistRun (heap t2) l (world t2)) as [w o] eqn:Hpersist.
    rewrite (_endTrace_root _ (close_update e r) _ w o);
      [|done|by rewrite close_update_parent|done].
    rewrite close_update_uuid. unfold close_result. destruct o as [[]|err]; simpl.
    + rewrite Hh2, Hm2. split; [done|]. right. exists l, r. split_and!; try done.
      right. left. done.
    + rewrite Hh2, Hm2. split; [done|]. right. exists l, r. split_and!; try done.
      left. eauto.
Qed.

Lemma agent_cases act a t :
  agent_result act a t (handleAgentAction hooks act a t).1.
Proof.
  unfold handleAgentAction. unfold bind at 1, get at 1.
  destruct (runMap t !! a) as [l|] eqn:Ha; [|by split_and!; [..|left]].
  unfold bind at 1, deref at 1. destruct (heap t !! l) as [r|] eqn:Hl;
    [|by split_and!; [..|left]].
  destruct (decide (type r = chain)) as [Hk|Hk]; cycle 1.
  { rewrite bool_decide_false by done. by split_and!; [..|left]. }
  rewrite bool_decide_true by done. simpl.
  unfold bind at 1, mutate. rewrite Hl.
  unfold bind at 1, deref at 1. simpl.
  rewrite list_lookup_insert_eq by by eapply lookup_lt_Some.
  unfold agent_result.
  match goal with |- context [call_hook ?h ?x ?u] =>
    destruct (call_hook_registry h x u) as (-> & -> & ->) end.
  simpl. split_and!; try done. right. exists l, r. done.
Qed.

Lemma event_kind e :
  (exists k a par, start_of e = Some (k, a, par)) \/
  (exists k a, close_of e = Some (k, a)) \/
  (exists act a, e = AgentAction act a).
Proof. destruct e; eauto 10. Qed.

(** ** What is written once stays *)

Lemma grows_refl r : grows r r.
Proof. by constructor. Qed.

Lemma grows_trans r1 r2 r3 : grows r1 r2 -> grows r2 r3 -> grows r1 r3.
Proof.
  intros [] []. constructor; try congruence; by etrans.
Qed.

Lemma grows__addChildRun r l k : grows r (_addChildRun r l k).
Proof. destruct k; constructor; simpl; try done; by apply prefix_app_r. Qed.

Lemma grows_close_update e r : grows r (close_update e r).
Proof. destruct e; by constructor. Qed.

Lemma grows_set_child_execution_order v r : grows r (set_child_execution_order v r).
Proof. by constructor. Qed.

Lemma grows_set_actions v r : grows r (set_actions v r).
Proof. by constructor. Qed.

(** Replacing one object of a store by a related one relates the stores. *)
Lemma lookup_insert_related (R : Run -> Run -> Prop) (h : list Run) l0 r0 x :
  (forall r, R r r) -> h !! l0 = Some r0 -> R r0 x ->
  forall l r, h !! l = Some r -> exists r', <[l0 := x]> h !! l = Some r' /\ R r r'.
Proof.
  intros Hrefl Hl0 Hx l r Hl. destruct (decide (l0 = l)) as [<-|Hne].
  - exists x. rewrite list_lookup_insert_eq by by eapply lookup_lt_Some.
    split; [done|]. by simplify_eq.
  - exists r. by rewrite list_lookup_insert_ne.
Qed.

Lemma handle_grows e t l r :
  heap t !! l = Some r ->
  exists r', heap (handle e t).1 !! l = Some r' /\ grows r r'.
Proof.
  intros Hl. assert (Hlt : l < length (heap t)) by by eapply lookup_lt_Some.
  destruct (event_kind e) as [(k & a & par & He)|[(k & a & He)|(act & a & ->)]].
  - destruct (start_cases _ _ _ _ t He) as [_ [(-> & _)|Hnew]];
      [exists r; split; [done | apply grows_refl]|].
    destruct Hnew as (s & v & new & hp & _ & _ & _ & Hatt & -> & _).
    unfold attaches in Hatt. destruct (truthy par) as [p|].
    + destruct Hatt as (lp & P & _ & HP & _ & ->).
      destruct (lookup_insert_related grows (heap t) lp P
                  (_addChildRun P (length (heap t)) k) grows_refl HP
                  (grows__addChildRun _ _ _) l r Hl) as (r' & Hr' & Hg).
      exists r'. split; [|done]. rewrite lookup_app_l; [done|]. by rewrite length_insert.
    + subst hp. exists r. split; [|apply grows_refl]. by rewrite lookup_app_l.
  - destruct (close_cases _ _ _ t He) as [_ [(-> & _)|Hclose]];
      [exists r; split; [done | apply grows_refl]|].
    destruct Hclose as (l0 & r0 & _ & Hl0 & _ & Hcase).
    destruct (lookup_insert_related grows (heap t) l0 r0 (close_update e r0)
                grows_refl Hl0 (grows_close_update _ _) l r Hl) as (r1 & Hr1 & Hg1).
    destruct Hcase as [(-> & _)|[(-> & _)|(p & lp & P & _ & _ & HP & -> & _)]];
      [by exists r1..|].
    destruct (lookup_insert_related grows _ lp P
                (set_child_execution_order
                   (Z.max (child_execution_order P) (child_execution_order r0)) P)
                grows_refl HP
                (grows_set_child_execution_order _ _) l r1 Hr1) as (r2 & Hr2 & Hg2).
    exists r2. split; [done|]. by eapply grows_trans.
  - simpl. destruct (agent_cases act a t) as (_ & _ & [->|Hact]);
      [exists r; split; [done | apply grows_refl]|].
    destruct Hact as (l0 & r0 & _ & Hl0 & _ & ->).
    apply (lookup_insert_related grows (heap t) l0 r0); [apply grows_refl|done| |done].
    apply grows_set_actions.
Qed.

Lemma run_events_grows es t l r :
  heap t !! l = Some r ->
  exists r', heap (run_events es t) !! l = Some r' /\ grows r r'.
Proof.
  revert t r. induction es as [|e es IH]; intros t r Hl; simpl.
  - exists r. split; [done | apply grows_refl].
  - destruct (handle_grows e t l r Hl) as (r1 & Hl1 & Hg1).
    destruct (IH _ _ Hl1) as (r2 & Hl2 & Hg2).
    exists r2. split; [done | by eapply grows_trans].
Qed.

(** ** Siblings *)

Lemma start_is_not_close e k a par : start_of e = Some (k, a, par) -> close_of e = None.
Proof. by destruct e. Qed.

(** A call that is not an End or Fail leaves the child-execution-order of
    every run as it is. *)
Lemma handle_keeps_child_order e t l r :
  close_of e = None -> heap t !! l = Some r ->
  exists r', heap (handle e t).1 !! l = Some r' /\
             child_execution_order r' = child_execution_order r.
Proof.
  intros Hnc Hl. assert (Hlt : l < length (heap t)) by by eapply lookup_lt_Some.
  set (R := fun r r' : Run => child_execution_order r' = child_execution_order r).
  destruct (event_kind e) as [(k & a & par & He)|[(k & a & He)|(act & a & ->)]].
  - destruct (start_cases _ _ _ _ t He) as [_ [(-> & _)|Hnew]]; [by exists r|].
    destruct Hnew as (s & v & new & hp & _ & _ & _ & Hatt & -> & _).
    unfold attaches in Hatt. destruct (truthy par) as [p|].
    + destruct Hatt as (lp & P & _ & HP & _ & ->).
      destruct (lookup_insert_related R (heap t) lp P
                  (_addChildRun P (length (heap t)) k) ltac:(done) HP
                  ltac:(by destruct k) l r Hl) as (r' & Hr' & Hg).
      exists r'. split; [|done]. rewrite lookup_app_l; [done|]. by rewrite length_insert.
    + subst hp. exists r. split; [|done]. by rewrite lookup_app_l.
  - congruence.
  - simpl. destruct (agent_cases act a t) as (_ & _ & [->|Hact]); [by exists r|].
    destruct Hact as (l0 & r0 & _ & Hl0 & _ & ->).
    by apply (lookup_insert_related R (heap t) l0 r0).
Qed.

Lemma run_events_keeps_child_order es t l r :
  Forall (fun e => close_of e = None) es -> heap t !! l = Some r ->
  exists r', heap (run_events es t) !! l = Some r' /\
             child_execution_order r' = child_execution_order r.
Proof.
  intros Hes. revert t r. induction Hes as [|e es He _ IH]; intros t r Hl; simpl.
  - by exists r.
  - destruct (handle_keeps_child_order e t l r He Hl) as (r1 & Hr1 & Hc1).
    destruct (IH _ _ Hr1) as (r2 & Hr2 & Hc2). exists r2. split; [done|congruence].
Qed.

(** C3, as the code has it. Two runs started under the same parent object,
    in this order, both Starts returning, with any call sequence in
    between: the later one never gets a smaller execution order; it gets
    the same one when no End or Fail call is made in between; and it gets
    a strictly greater one when the earlier one was closed, by an End or
    Fail event that returned, before the later one started (and the parent
    id is not the empty string, so that closing reaches the parent). *)
Theorem sibling_order t eA kA a p lp es eB kB b :
  WF t ->
  start_of eA = Some (kA, a, Some p) ->
  runMap t !! p = Some lp ->
  (handle eA t).2 = Returns tt ->
  let t1 := (handle eA t).1 in
  let t2 := run_events es t1 in
  start_of eB = Some (kB, b, Some p) ->
  runMap t2 !! p = Some lp ->
  (handle eB t2).2 = Returns tt ->
  let t3 := (handle eB t2).1 in
  exists rA rB,
    heap t3 !! length (heap t) = Some rA /\
    heap t3 !! length (heap t2) = Some rB /\
    uuid rA = a /\ uuid rB = b /\
    parent_uuid rA = Some p /\ parent_uuid rB = Some p /\
    (execution_order rA <= execution_order rB)%Z /\
    (p <> EmptyString -> closes_run es a (length (heap t)) t1 ->
     (execution_order rA < execution_order rB)%Z) /\
    (Forall (fun e => close_of e = None) es ->
     execution_order rA = execution_order rB).
Proof.
  intros Hwf HeA Hp HretA t1 t2 HeB Hp2 HretB t3.
  destruct (wf_ref _ Hwf _ _ Hp) as (P & HP & _).
  destruct (start_returns _ _ _ _ _ _ _ HeA Hp HP HretA)
    as (rA0 & HrA0 & _ & HuA & _ & HpA & HoA & _).
  destruct (safe_handle eA t) as [Hwf1 Hext1]. fold t1 in Hwf1, Hext1, HrA0.
  destruct (safe_run_events es t1) as [Hwf2 Hext2]. fold t2 in Hwf2, Hext2.
  destruct (safe_handle eB t2) as [Hwf3 Hext3]. fold t3 in Hwf3, Hext3.
  pose proof (extends_trans _ _ _ Hext1 Hext2) as Hext02.
  destruct (ext_heap _ _ Hext02 _ _ HP) as (P2 & HP2 & HevP).
  destruct (start_returns _ _ _ _ _ _ _ HeB Hp2 HP2 HretB)
    as (rB & HrB & _ & HuB & _ & HpB & HoB & _). fold t3 in HrB.
  destruct (ext_heap _ _ (extends_trans _ _ _ Hext2 Hext3) _ _ HrA0)
    as (rA & HrA & HevA).
  exists rA, rB.
  rewrite (ev_uuid _ _ HevA), (ev_parent _ _ HevA), (ev_order _ _ HevA), HoA, HoB.
  split_and!; try done.
  - pose proof (ev_child_order _ _ HevP). lia.
  - intros Hne (es1 & eC & es2 & kC & Hes & HeC & Ha & HretC).
    set (u := run_events es1 t1) in *.
    destruct (safe_run_events es1 t1) as [Hwfu Hextu]. fold u in Hwfu, Hextu.
    destruct (safe_handle eC u) as [Hwfu' Hextu'].
    set (u' := (handle eC u).1) in *.
    assert (Ht2 : t2 = run_events es2 u').
    { subst t2 u' u. by rewrite Hes, run_events_app. }
    destruct (safe_run_events es2 u') as [_ Hext']. rewrite <- Ht2 in Hext'.
    destruct (ext_heap _ _ Hextu _ _ HrA0) as (rAu & HrAu & HevAu).
    assert (HpAu : truthy (parent_uuid rAu) = Some p).
    { rewrite (ev_parent _ _ HevAu), HpA. by apply truthy_Some. }
    destruct (close_returns_child _ _ _ _ _ _ _ HeC (Hwfu (Hwf1 Hwf)) Ha HrAu HpAu HretC)
      as (lp' & P' & Hlp' & HP' & Hle & Hmap). fold u' in HP', Hmap.
    assert (lp' = lp) as ->.
    { destruct (ext_map _ _ Hext' _ _ Hp2) as [Hin|Hge].
      - rewrite Hmap in Hin. apply lookup_delete_Some in Hin as [_ Hin].
        by simplify_eq.
      - apply lookup_lt_Some in HP.
        pose proof (extends_length _ _ Hext1).
        pose proof (extends_length _ _ Hextu).
        pose proof (extends_length _ _ Hextu'). lia. }
    destruct (ext_heap _ _ Hext' _ _ HP') as (P2' & HP2' & HevP').
    simplify_eq.
    pose proof (ev_child_order _ _ HevP').
    pose proof (wf_order _ (Hwfu (Hwf1 Hwf)) _ _ HrAu).
    pose proof (ev_order _ _ HevAu). lia.
  - intros Hes.
    destruct (run_events_keeps_child_order (eA :: es) t lp P) as (P2' & HP2' & Hc);
      [|done|].
    + constructor; [by eapply start_is_not_close|done].
    + change (run_events (eA :: es) t) with t2 in HP2'. simplify_eq. lia.
Qed.

(** X1. Across any call sequence a run object is never freed; its id,
    parent id, kind, execution order, start time, descriptor, session id
    and input payload are those it was created with; its
    child-execution-order never decreases; its three child lists are only
    appended to. *)
Theorem runs_are_written_once es t l r :
  heap t !! l = Some r ->
  exists r', heap (run_events es t) !! l = Some r' /\ evolves r r' /\ grows r r'.
Proof.
  intros Hl. destruct (run_events_grows es t l r Hl) as (r' & Hl' & Hg).
  destruct (safe_run_events es t) as [_ Hext].
  destruct (ext_heap _ _ Hext _ _ Hl) as (r'' & Hl'' & Hev).
  exists r'. split; [done|]. split; [|done]. by simplify_eq.
Qed.

Lemma run_events_cons e es t :
  run_events (e :: es) t = run_events es (handle e t).1.
Proof. reflexivity. Qed.

(** ** The session *)

Lemma attaches_length t par k hp : attaches t par k hp -> length hp = length (heap t).
Proof.
  unfold attaches. destruct (truthy par) as [p|]; [|by intros ->].
  intros (lp & P & _ & _ & _ & ->). apply length_insert.
Qed.

Lemma close_result_length e t t' o k a :
  close_result e t t' o k a -> length (heap t') = length (heap t).
Proof.
  intros [_ [(-> & _)|(l & r & _ & _ & _ & Hcase)]]; [done|].
  destruct Hcase as [(-> & _)|[(-> & _)|(p & lp & P & _ & _ & _ & -> & _)]];
    by rewrite ?length_insert.
Qed.

Lemma agent_result_length act a t t' :
  agent_result act a t t' -> length (heap t') = length (heap t).
Proof.
  intros (_ & _ & [->|(l & r & _ & _ & _ & ->)]); by rewrite ?length_insert.
Qed.

Lemma handle_session e t s :
  session t = Some s -> session (handle e t).1 = Some s.
Proof.
  intros Hs.
  destruct (event_kind e) as [(k & a & par & He)|[(k & a & He)|(act & a & ->)]].
  - destruct (start_cases _ _ _ _ t He) as [Hkeep _]. by apply Hkeep.
  - destruct (close_cases _ _ _ t He) as [-> _]. done.
  - simpl. destruct (agent_cases act a t) as (-> & _). done.
Qed.

Lemma handle_new_object e t s l r :
  session t = Some s ->
  heap (handle e t).1 !! l = Some r -> length (heap t) <= l ->
  session_id r = id s.
Proof.
  intros Hs Hl Hge. pose proof (lookup_lt_Some _ _ _ Hl) as Hlt.
  destruct (event_kind e) as [(k & a & par & He)|[(k & a & He)|(act & a & ->)]].
  - destruct (start_cases _ _ _ _ t He) as [Hkeep [(Hh & _)|Hnew]];
      [rewrite Hh in Hlt; lia|].
    destruct Hnew as (s' & v & new & hp & Hs' & _ & Hfresh & Hatt & Hh & _).
    rewrite (Hkeep _ Hs) in Hs'. injection Hs' as <-.
    apply attaches_length in Hatt. rewrite Hh in Hl.
    rewrite lookup_app_r in Hl by lia.
    apply list_lookup_singleton_Some in Hl as [_ <-]. apply Hfresh.
  - pose proof (close_result_length _ _ _ _ _ _ (close_cases _ _ _ t He)). lia.
  - simpl in *. pose proof (agent_result_length _ _ _ _ (agent_cases act a t)). lia.
Qed.

(** X2. The session is kept: a session that is set is the session after
    any call sequence, and every run created by that sequence carries its
    id. *)
Theorem session_is_loaded_once es t s :
  session t = Some s ->
  session (run_events es t) = Some s /\
  forall l r, heap (run_events es t) !! l = Some r -> length (heap t) <= l ->
              session_id r = id s.
Proof.
  revert t. induction es as [|e es IH]; intros t Hs.
  - split; [done|]. intros l r Hl Hge. apply lookup_lt_Some in Hl. simpl in Hl. lia.
  - rewrite run_events_cons. pose proof (handle_session e t s Hs) as Hs1.
    destruct (IH _ Hs1) as [Hfinal Hnew]. split; [done|].
    intros l r Hl Hge.
    destruct (decide (length (heap (handle e t).1) <= l)) as [Hge1|Hlt1]; [eauto|].
    destruct (lookup_lt_is_Some_2 (heap (handle e t).1) l) as [r1 Hr1]; [lia|].
    destruct (run_events_grows es _ _ _ Hr1) as (r' & Hr' & Hg).
    assert (r' = r) as -> by congruence.
    rewrite (g_session_id _ _ Hg). exact (handle_new_object e t s l r1 Hs Hr1 Hge).
Qed.

(** ** Runs that have left the registry *)

Lemma handle_unregistered e t l :
  l < length (heap t) -> unregistered l t ->
  heap (handle e t).1 !! l = heap t !! l /\ unregistered l (handle e t).1.
Proof.
  intros Hlt Hun.
  destruct (event_kind e) as [(k & a & par & He)|[(k & a & He)|(act & a & ->)]].
  - destruct (start_cases _ _ _ _ t He) as [_ [(-> & Hm & _)|Hnew]].
    { split; [done|]. intros b. rewrite Hm. apply Hun. }
    destruct Hnew as (s & v & new & hp & _ & _ & _ & Hatt & -> & Hm).
    pose proof (attaches_length _ _ _ _ Hatt) as Hlen. split.
    + rewrite lookup_app_l by lia. unfold attaches in Hatt.
      destruct (truthy par) as [p|]; [|by subst hp].
      destruct Hatt as (lp & P & Hp & _ & _ & ->).
      apply list_lookup_insert_ne. intros ->. by apply (Hun p).
    + intros b. rewrite Hm. destruct (decide (a = b)) as [<-|Hne].
      * rewrite lookup_insert_eq. intros [= Heq]. lia.
      * rewrite lookup_insert_ne by done. apply Hun.
  - destruct (close_cases _ _ _ t He) as [_ [(-> & Hm & _)|Hclose]].
    { split; [done|]. intros b. rewrite Hm. apply Hun. }
    destruct Hclose as (l0 & r0 & Ha & _ & _ & Hcase).
    assert (Hne0 : l0 <> l) by (intros ->; by apply (Hun a)).
    assert (Hdel : forall b x, delete x (runMap t) !! b <> Some l).
    { intros b x Hb. apply lookup_delete_Some in Hb as [_ Hb]. by apply (Hun b). }
    destruct Hcase as [(-> & Hm & _)|[(-> & Hm & _)|(p & lp & P & _ & Hp & _ & -> & Hm & _)]].
    + split; [by apply list_lookup_insert_ne|]. intros b. rewrite Hm. apply Hun.
    + split; [by apply list_lookup_insert_ne|]. intros b. rewrite Hm. apply Hdel.
    + assert (lp <> l) by (intros ->; by apply (Hun p)).
      split; [by rewrite !list_lookup_insert_ne|]. intros b. rewrite Hm. apply Hdel.
  - simpl. destruct (agent_cases act a t) as (_ & Hm & Hh).
    split; [|intros b; rewrite Hm; apply Hun].
    destruct Hh as [->|(l0 & r0 & Ha & _ & _ & ->)]; [done|].
    apply list_lookup_insert_ne. intros ->. by apply (Hun a).
Qed.

Lemma run_events_unregistered es t l :
  l < length (heap t) -> unregistered l t ->
  heap (run_events es t) !! l = heap t !! l /\ unregistered l (run_events es t).
Proof.
  revert t. induction es as [|e es IH]; intros t Hlt Hun; [done|].
  rewrite run_events_cons.
  destruct (handle_unregistered e t l Hlt Hun) as [Hl1 Hun1].
  destruct (safe_handle e t) as [_ Hext]. pose proof (extends_length _ _ Hext).
  destruct (IH (handle e t).1) as [Hl2 Hun2]; [lia|done|].
  split; [congruence | done].
Qed.

(** X3. A run that has been closed is final: once its End or Fail event
    has returned, no later call changes any field of the run object, and no
    id leads to it any more. *)
Theorem closed_runs_are_final e k a l t es :
  WF t ->
  close_of e = Some (k, a) ->
  runMap t !! a = Some l ->
  (handle e t).2 = Returns tt ->
  heap (run_events es (handle e t).1) !! l = heap (handle e t).1 !! l /\
  unregistered l (run_events es (handle e t).1).
Proof.
  intros Hwf He Ha Hret.
  destruct (wf_ref _ Hwf _ _ Ha) as (r & Hl & Hu).
  destruct (safe_handle e t) as [_ Hext]. pose proof (extends_length _ _ Hext) as Hlen.
  apply run_events_unregistered; [apply lookup_lt_Some in Hl; lia|].
  assert (Hdel : unregistered l (set_runMap (delete (uuid r) (runMap t)) t)).
  { intros b Hb. simpl in Hb. apply lookup_delete_Some in Hb as [Hne Hb].
    destruct (wf_ref _ Hwf _ _ Hb) as (r' & Hl' & Hu'). by simplify_eq. }
  destruct (close_cases _ _ _ t He) as [_ [(_ & _ & err & Herr)|Hclose]];
    [by rewrite Herr in Hret|].
  destruct Hclose as (l0 & r0 & Ha0 & Hl0 & _ & Hcase). simplify_eq.
  destruct Hcase as [(_ & _ & err & Herr)|[(_ & Hm & _)|(p & lp & P & _ & _ & _ & _ & Hm & _)]];
    [by rewrite Herr in Hret|..]; intros b; rewrite Hm; apply Hdel.
Qed.

(** ** Ending what is not open *)

(** X4. An End or Fail event for an id that is not registered, or that is
    registered for a run of another kind, throws "No ... run to end" and
    changes nothing: registry, run objects, session and world are as
    before, so that no hook has acted on the world. *)
Theorem end_of_unknown_run e k a t :
  close_of e = Some (k, a) ->
  (runMap t !! a = None \/
   exists l r, runMap t !! a = Some l /\ heap t !! l = Some r /\ type r <> k) ->
  handle e t = (t, Throws (NoSuchOpenRun (no_run_message k))).
Proof.
  intros He Hcase. rewrite (handle_close_message _ _ _ He).
  destruct Hcase as [Ha|(l & r & Ha & Hl & Hk)].
  - by apply close_shape_unknown.
  - by eapply close_shape_wrong_kind.
Qed.

(** ** Agent actions *)

Lemma agent_on_chain act a l r t :
  runMap t !! a = Some l -> heap t !! l = Some r -> type r = chain ->
  handleAgentAction hooks act a t
    = call_hook (onAgentAction hooks)
        (set_actions (Some (default [] (actions r) ++ [act])) r)
        (set_heap (<[l := set_actions (Some (default [] (actions r) ++ [act])) r]>
                     (heap t)) t).
Proof.
  intros Ha Hl Hk. unfold handleAgentAction. unfold bind at 1, get at 1.
  rewrite Ha. unfold bind at 1, deref at 1. rewrite Hl.
  rewrite bool_decide_true by done. simpl.
  unfold bind at 1, mutate. rewrite Hl.
  unfold bind at 1, deref at 1. simpl.
  by rewrite list_lookup_insert_eq by by eapply lookup_lt_Some.
Qed.

(** X5. An AgentAction event for an id that is not registered, or that is
    registered for a run that is not a chain run, returns without error
    and changes nothing, the world included. *)
Theorem agent_action_ignored act a t :
  (runMap t !! a = None \/
   exists l r, runMap t !! a = Some l /\ heap t !! l = Some r /\ type r <> chain) ->
  handle (AgentAction act a) t = (t, Returns tt).
Proof.
  intros Hcase. simpl. unfold handleAgentAction, bind, get, deref.
  destruct Hcase as [Ha|(l & r & Ha & Hl & Hk)].
  - by rewrite Ha.
  - rewrite Ha, Hl. by rewrite bool_decide_false.
Qed.

(** X6. The actions recorded for an open chain run accumulate in call
    order, after those it already had, whether or not the action hook
    throws; nothing else in the run, and no other run, changes. *)
Theorem agent_actions_accumulate acts a l r t :
  runMap t !! a = Some l -> heap t !! l = Some r -> type r = chain ->
  acts <> [] ->
  let t' := run_events (map (fun act => AgentAction act a) acts) t in
  runMap t' = runMap t /\
  heap t' = <[l := set_actions (Some (default [] (actions r) ++ acts)) r]> (heap t).
Proof.
  intros Ha Hl Hk Hne.
  assert (Hgen : forall acts t r,
    runMap t !! a = Some l -> heap t !! l = Some r -> type r = chain ->
    runMap (run_events (map (fun act => AgentAction act a) acts) t) = runMap t /\
    heap (run_events (map (fun act => AgentAction act a) acts) t)
      = match acts with
        | [] => heap t
        | _ => <[l := set_actions (Some (default [] (actions r) ++ acts)) r]> (heap t)
        end).
  { clear. intros acts. induction acts as [|act acts IH]; intros t r Ha Hl Hk; [done|].
    rewrite map_cons, run_events_cons. simpl handle.
    rewrite (agent_on_chain act a l r t Ha Hl Hk).
    set (r1 := set_actions (Some (default [] (actions r) ++ [act])) r) in *.
    match goal with |- context [call_hook ?h ?x ?u] =>
      destruct (call_hook_registry h x u) as (Hh & Hm & _);
      set (t1 := (call_hook h x u).1) in * end.
    simpl in Hh, Hm.
    assert (Hl1 : heap t1 !! l = Some r1).
    { rewrite Hh. apply list_lookup_insert_eq. by eapply lookup_lt_Some. }
    destruct (IH t1 r1) as [Hm2 Hh2]; [by rewrite Hm|done|done|].
    split; [by rewrite Hm2|]. rewrite Hh2. destruct acts as [|act' acts]; [done|].
    rewrite Hh, list_insert_insert_eq. f_equal. subst r1. simpl.
    by rewrite <- (assoc_L (++)). }
  destruct (Hgen acts t r Ha Hl Hk) as [Hm Hh]. split; [done|].
  rewrite Hh. by destruct acts.
Qed.

(** ** Start: registration and hook *)

Lemma call_hook_outcome (h : option (@Hook W)) r t :
  (call_hook h r t).2
    = match h with Some f => (f r (world t)).2 | None => Returns tt end /\
  world (call_hook h r t).1
    = match h with Some f => (f r (world t)).1 | None => world t end.
Proof.
  destruct h as [f|]; [|done]. unfold call_hook, external.
  by destruct (f r (world t)).
Qed.

Lemma start_shape_registered mk h k a par t t1 s v hp :
  builds mk k a par -> ensure_session t = (t1, Returns s) ->
  resolves t par v -> attaches t par k hp ->
  start_shape mk h par t = call_hook h (mk s v) (registered (mk s v) hp t1).
Proof.
  intros Hmk Hs Hres Hatt.
  destruct (ensure_session_registry t) as [Hh Hm]. rewrite Hs in Hh, Hm; simpl in Hh, Hm.
  unfold attaches in Hatt. destruct par as [p|]; simpl in Hres.
  - destruct Hres as (lp & P & Hp & HP & ->).
    destruct (decide (p = EmptyString)) as [->|Hne].
    + simpl in Hatt. subst hp. eapply start_shape_detached; [done..|].
      by rewrite (_getExecutionOrder_found _ lp P) by by rewrite ?Hh, ?Hm.
    + rewrite truthy_Some in Hatt by done.
      destruct Hatt as (lp' & P' & Hp' & HP' & Hty & ->). simplify_eq.
      by eapply start_shape_child.
  - simpl in Hatt. subst v hp. by eapply start_shape_detached.
Qed.

(** X7. A Start event whose parent id resolves, and whose parent can take
    the child, registers the run before the hook runs: whatever the hook
    does, the run is in the store and in the registry; if its parent id
    counts as one, the location of the run is the last entry of the
    parent's child list of its kind and nothing else in the parent, and no
    other run, has changed, and otherwise no run has changed; the outcome
    of the handler is the outcome of the hook. *)
Theorem start_registers_before_hook e k a par t t1 s v :
  start_of e = Some (k, a, par) ->
  ensure_session t = (t1, Returns s) ->
  resolves t par v ->
  (forall p, truthy par = Some p ->
     exists lp P, runMap t !! p = Some lp /\ heap t !! lp = Some P /\ type P <> llm) ->
  exists new hp,
    fresh_run new k a par v s /\
    heap (handle e t).1 = hp ++ [new] /\
    runMap (handle e t).1 = <[a := length (heap t)]> (runMap t) /\
    (handle e t).2
      = match hook_of e with
        | Some f => (f new (world t1)).2
        | None => Returns tt
        end /\
    match truthy par with
    | Some p =>
        exists lp P P',
          runMap t !! p = Some lp /\ heap t !! lp = Some P /\
          hp = <[lp := P']> (heap t) /\
          adopts P P' k (length (heap t))
    | None => hp = heap t
    end.
Proof.
  intros He Hs Hres Hpar.
  assert (Hatt : exists hp,
            attaches t par k hp /\
            match truthy par with
            | Some p =>
                exists lp P P',
                  runMap t !! p = Some lp /\ heap t !! lp = Some P /\
                  hp = <[lp := P']> (heap t) /\
                  adopts P P' k (length (heap t))
            | None => hp = heap t
            end).
  { unfold attaches. destruct (truthy par) as [p|]; [|by exists (heap t)].
    destruct (Hpar p eq_refl) as (lp & P & Hp & HP & Hty).
    exists (<[lp := _addChildRun P (length (heap t)) k]> (heap t)). split.
    - by exists lp, P.
    - exists lp, P, (_addChildRun P (length (heap t)) k). split_and!; try done.
      apply adopts__addChildRun. }
  destruct Hatt as (hp & Hatt & Hparent).
  destruct (handle_start_fresh _ _ _ _ He) as (mk & Hmk & Hfresh & ->).
  destruct (ensure_session_registry t) as [Hh Hm]. rewrite Hs in Hh, Hm; simpl in Hh, Hm.
  rewrite (start_shape_registered mk _ k a par t t1 s v hp Hmk Hs Hres Hatt).
  exists (mk s v), hp.
  destruct (call_hook_registry (hook_of e) (mk s v) (registered (mk s v) hp t1))
    as (-> & -> & _).
  destruct (call_hook_outcome (hook_of e) (mk s v) (registered (mk s v) hp t1))
    as (-> & _).
  simpl. rewrite (b_uuid _ _ _ _ Hmk), Hh, Hm. split_and!; try done.
  destruct Hmk, Hfresh. by constructor.
Qed.

(** X8. Start then End (or Fail) of a root run under an id that is free,
    every hook returning: [persistRun] is handed the store with the
    stamped run as its last object; when it returns, the registry is
    exactly the one before the Start; when it throws, the run is still
    registered. The store has the closed run appended and nothing else
    changed. *)
Theorem root_start_end_round_trip eS eC k a t s :
  start_of eS = Some (k, a, None) ->
  close_of eC = Some (k, a) ->
  session t = Some s ->
  runMap t !! a = None ->
  (forall e r w, hook_returns e r w) ->
  exists new,
    fresh_run new k a None 1 s /\
    heap (run_events [eS; eC] t) = heap t ++ [close_update eC new] /\
    stamped eC (close_update eC new) /\
    match persistRun (heap t ++ [close_update eC new]) (length (heap t))
            (hook_world eC (close_update eC new) (hook_world eS new (world t))) with
    | (w, Returns _) =>
        runMap (run_events [eS; eC] t) = runMap t /\ world (run_events [eS; eC] t) = w
    | (w, Throws _) =>
        runMap (run_events [eS; eC] t) = <[a := length (heap t)]> (runMap t) /\
        world (run_events [eS; eC] t) = w
    end.
Proof.
  intros HeS HeC Hs Ha Hhooks.
  destruct (handle_start_fresh _ _ _ _ HeS) as (mk & Hmk & Hfresh & HeqS).
  set (new := mk s 1%Z). exists new.
  assert (Hnew : fresh_run new k a None 1 s).
  { unfold new. destruct Hmk, Hfresh. by constructor. }
  split; [done|].
  assert (Ht1 : handle eS t =
    (set_world (hook_world eS new (world t)) (registered new (heap t) t), Returns tt)).
  { rewrite HeqS.
    rewrite (start_shape_registered mk _ k a None t t s 1 (heap t) Hmk
               (ensure_session_set _ _ Hs)) by done.
    by rewrite call_hook_returns. }
  unfold Tracer.run_events. simpl foldl. rewrite Ht1. simpl fst.
  set (t1 := set_world _ _).
  assert (Ha1 : runMap t1 !! a = Some (length (heap t))).
  { simpl. by rewrite (fr_uuid _ _ _ _ _ _ Hnew), lookup_insert_eq. }
  assert (Hl1 : heap t1 !! length (heap t) = Some new).
  { simpl. by apply list_lookup_middle. }
  rewrite (handle_close_returns _ _ _ _ _ _ HeC Ha1 Hl1 (fr_type _ _ _ _ _ _ Hnew)
             (Hhooks _ _ _)).
  set (t2 := closing_state eC (length (heap t)) new t1).
  assert (Hh2 : heap t2 = heap t ++ [close_update eC new]).
  { simpl. replace (length (heap t)) with (length (heap t) + 0) at 1 by lia.
    by rewrite insert_app_r. }
  destruct (persistRun (heap t2) (length (heap t)) (world t2)) as [w o] eqn:Hpersist.
  rewrite (_endTrace_root _ (close_update eC new) _ w o);
    [|by rewrite Hh2; apply list_lookup_middle
     |by rewrite close_update_parent, (fr_parent _ _ _ _ _ _ Hnew)|done].
  rewrite Hh2 in Hpersist. simpl in Hpersist. rewrite Hpersist.
  rewrite close_update_uuid, (fr_uuid _ _ _ _ _ _ Hnew).
  split_and!; [by destruct o|apply stamped_close_update|].
  destruct o as [[]|err]; subst t2 t1; simpl; split; try done.
  - rewrite (fr_uuid _ _ _ _ _ _ Hnew). by apply delete_insert_id.
  - by rewrite (fr_uuid _ _ _ _ _ _ Hnew).
Qed.

(** X9. A Start event under an id that is already registered takes the id
    over: the id leads to the new run, no id leads to the run that had it,
    and no later call changes any field of that run object. *)
Theorem restarted_id_orphans_run e k a par l0 t es :
  WF t ->
  start_of e = Some (k, a, par) ->
  runMap t !! a = Some l0 ->
  (handle e t).2 = Returns tt ->
  runMap (handle e t).1 !! a = Some (length (heap t)) /\
  unregistered l0 (handle e t).1 /\
  heap (run_events es (handle e t).1) !! l0 = heap (handle e t).1 !! l0.
Proof.
  intros Hwf He Ha Hret.
  destruct (wf_ref _ Hwf _ _ Ha) as (r0 & Hl0 & Hu0).
  pose proof (lookup_lt_Some _ _ _ Hl0) as Hlt.
  destruct (start_cases _ _ _ _ t He) as [_ [(_ & _ & err & Herr)|Hnew]];
    [by rewrite Herr in Hret|].
  destruct Hnew as (s & v & new & hp & _ & _ & _ & Hatt & Hh & Hm).
  assert (Hun : unregistered l0 (handle e t).1).
  { intros b. rewrite Hm. destruct (decide (a = b)) as [<-|Hne].
    - rewrite lookup_insert_eq. intros [= Heq].
      lia.
    - rewrite lookup_insert_ne by done. intros Hb.
      destruct (wf_ref _ Hwf _ _ Hb) as (r' & Hl' & Hu'). by simplify_eq. }
  split_and!; [by rewrite Hm, lookup_insert_eq|done|].
  apply run_events_unregistered; [|done].
  rewrite Hh, length_app, (attaches_length _ _ _ _ Hatt). lia.
Qed.

(** ** The run objects form a forest *)

Lemma frozen_refl r : frozen r r.
Proof. by constructor. Qed.

Lemma frozen_close_update e r : frozen r (close_update e r).
Proof. destruct e; by constructor. Qed.

Lemma frozen_set_child_execution_order v r : frozen r (set_child_execution_order v r).
Proof. by constructor. Qed.

Lemma frozen_set_actions v r : frozen r (set_actions v r).
Proof. by constructor. Qed.

Lemma frozen_children r r' : frozen r r' -> children r' = children r.
Proof. intros []. unfold children. congruence. Qed.

Lemma Forest_order_positive t l r :
  Forest t -> heap t !! l = Some r -> (1 <= execution_order r)%Z.
Proof.
  intros Hf Hl. destruct (parent_uuid r) as [p|] eqn:Hp.
  - assert (2 <= execution_order r)%Z; [|lia].
    eapply (f_inner _ Hf); [done|]. by rewrite Hp.
  - by rewrite (f_root _ Hf _ _ Hl Hp).
Qed.

(** The forest is a matter of the place of each object in the tree. *)
Lemma Forest_transfer t t' :
  (forall l r', heap t' !! l = Some r' -> exists r, heap t !! l = Some r /\ frozen r r') ->
  (forall l r, heap t !! l = Some r -> exists r', heap t' !! l = Some r' /\ frozen r r') ->
  Forest t -> Forest t'.
Proof.
  intros Hback Hforth Hf. constructor.
  - intros l r' Hl Hp. destruct (Hback _ _ Hl) as (r & Hr & Hfz).
    rewrite (fz_order _ _ Hfz). eapply (f_root _ Hf); [done|].
    by rewrite <- (fz_parent _ _ Hfz).
  - intros l r' Hl Hp. destruct (Hback _ _ Hl) as (r & Hr & Hfz).
    rewrite (fz_order _ _ Hfz). eapply (f_inner _ Hf); [done|].
    by rewrite <- (fz_parent _ _ Hfz).
  - intros l r' Hl Hty. destruct (Hback _ _ Hl) as (r & Hr & Hfz).
    rewrite (frozen_children _ _ Hfz). eapply (f_leaf _ Hf); [done|].
    by rewrite <- (fz_type _ _ Hfz).
  - intros lp P' c HP Hc. destruct (Hback _ _ HP) as (P & HP0 & HfzP).
    rewrite (frozen_children _ _ HfzP) in Hc.
    destruct (f_child _ Hf _ _ _ HP0 Hc) as (Hlt & r & Hr & Hpar & Ho).
    split; [done|]. destruct (Hforth _ _ Hr) as (r' & Hr' & Hfzr).
    exists r'. split; [done|].
    rewrite (fz_parent _ _ Hfzr), (fz_uuid _ _ HfzP), (fz_order _ _ Hfzr),
      (fz_order _ _ HfzP). done.
  - intros lp P' c r' HP Hr'. destruct (Hback _ _ HP) as (P & HP0 & HfzP).
    destruct (Hback _ _ Hr') as (r & Hr & Hfzr).
    rewrite (fz_llm _ _ HfzP), (fz_chain _ _ HfzP), (fz_tool _ _ HfzP),
      (fz_type _ _ Hfzr).
    by eapply (f_kind _ Hf).
  - intros lp P' HP. destruct (Hback _ _ HP) as (P & HP0 & HfzP).
    rewrite (frozen_children _ _ HfzP). by eapply (f_once _ Hf).
Qed.

Lemma Forest_insert_frozen t t' l0 r0 x :
  heap t !! l0 = Some r0 -> frozen r0 x -> heap t' = <[l0 := x]> (heap t) ->
  Forest t -> Forest t'.
Proof.
  intros Hl0 Hx Hh. apply Forest_transfer; rewrite Hh.
  - intros l r' Hl. apply list_lookup_insert_Some in Hl as [(<- & <- & _)|(Hne & Hl)].
    + by exists r0.
    + exists r'. split; [done | apply frozen_refl].
  - exact (lookup_insert_related frozen (heap t) l0 r0 x frozen_refl Hl0 Hx).
Qed.

Lemma Forest_heap t t' : heap t' = heap t -> Forest t -> Forest t'.
Proof.
  intros Hh. apply Forest_transfer; rewrite Hh; intros l r Hl;
    (exists r; split; [done | apply frozen_refl]).
Qed.

(** A childless run that nothing refers to is appended. *)
Lemma Forest_append t t' new :
  heap t' = heap t ++ [new] ->
  children new = [] ->
  (parent_uuid new = None -> execution_order new = 1%Z) ->
  (parent_uuid new <> None -> (2 <= execution_order new)%Z) ->
  Forest t -> Forest t'.
Proof.
  intros Hh Hnew Hroot Hinner Hf.
  assert (Hlook : forall l r, heap t' !! l = Some r ->
            heap t !! l = Some r \/ (l = length (heap t) /\ r = new)).
  { intros l r. rewrite Hh. intros Hl.
    apply lookup_app_Some in Hl as [Hl|[Hge Hl]]; [by left|].
    apply list_lookup_singleton_Some in Hl as [Hz <-]. right. split; [lia|done]. }
  assert (Hkeep : forall l r, heap t !! l = Some r -> heap t' !! l = Some r).
  { intros l r Hl. rewrite Hh. apply lookup_app_l_Some. done. }
  constructor.
  - intros l r Hl. destruct (Hlook _ _ Hl) as [Hl0|[_ ->]]; [by eapply (f_root _ Hf)|done].
  - intros l r Hl. destruct (Hlook _ _ Hl) as [Hl0|[_ ->]]; [by eapply (f_inner _ Hf)|done].
  - intros l r Hl. destruct (Hlook _ _ Hl) as [Hl0|[_ ->]]; [by eapply (f_leaf _ Hf)|done].
  - intros lp P c HP Hc. destruct (Hlook _ _ HP) as [HP0|[_ ->]];
      [|rewrite Hnew in Hc; by apply elem_of_nil in Hc].
    destruct (f_child _ Hf _ _ _ HP0 Hc) as (Hlt & r & Hr & Hrest).
    split; [done|]. exists r. split; [by apply Hkeep | done].
  - intros lp P c r HP Hr. destruct (Hlook _ _ HP) as [HP0|[_ ->]]; cycle 1.
    { unfold children in Hnew. apply app_eq_nil in Hnew as [-> Hnew].
      apply app_eq_nil in Hnew as [-> ->]. split_and!; intros Hc; by apply elem_of_nil in Hc. }
    destruct (Hlook _ _ Hr) as [Hr0|[-> ->]]; [by eapply (f_kind _ Hf)|].
    assert (Hout : length (heap t) ∉ children P).
    { intros Hc. destruct (f_child _ Hf _ _ _ HP0 Hc) as (_ & r & Hr0 & _).
      apply lookup_lt_Some in Hr0. lia. }
    unfold children in Hout. rewrite !not_elem_of_app in Hout.
    destruct Hout as (? & ? & ?). split_and!; intros Hc; done.
  - intros lp P HP. destruct (Hlook _ _ HP) as [HP0|[_ ->]]; [by eapply (f_once _ Hf)|].
    rewrite Hnew. constructor.
Qed.

Lemma elem_of_children__addChildRun P c k x :
  x ∈ children (_addChildRun P c k) <-> x = c \/ x ∈ children P.
Proof.
  unfold children. destruct k; simpl; rewrite !elem_of_app, ?list_elem_of_singleton; tauto.
Qed.

Lemma children__addChildRun_perm P c k :
  children (_addChildRun P c k) ≡ₚ c :: children P.
Proof.
  unfold children. destruct k; simpl.
  - rewrite <- (assoc_L (++)). simpl. symmetry. apply Permutation_middle.
  - rewrite <- (assoc_L (++) (child_chain_runs P)). simpl.
    rewrite (assoc_L (++) (child_llm_runs P)).
    rewrite (assoc_L (++) (child_llm_runs P) (child_chain_runs P) (child_tool_runs P)).
    symmetry. apply Permutation_middle.
  - rewrite !(assoc_L (++)). symmetry. rewrite <- Permutation_middle.
    by rewrite (right_id_L [] (++)).
Qed.

Lemma NoDup_children__addChildRun P c k :
  c ∉ children P -> NoDup (children P) -> NoDup (children (_addChildRun P c k)).
Proof.
  intros Hc Hnd. rewrite children__addChildRun_perm. by constructor.
Qed.

(** A parent that is not an LLM run takes a run that names it. *)
Lemma Forest_adopt t t' lp P c r k :
  heap t !! lp = Some P -> type P <> llm ->
  heap t !! c = Some r -> lp < c ->
  parent_uuid r = Some (uuid P) ->
  (execution_order P < execution_order r)%Z ->
  type r = k -> c ∉ children P ->
  heap t' = <[lp := _addChildRun P c k]> (heap t) ->
  Forest t -> Forest t'.
Proof.
  intros HP Hty Hr Hlt Hpar Ho Hk Hout Hh Hf.
  assert (Hlook : forall l x, heap t' !! l = Some x ->
            (l = lp /\ x = _addChildRun P c k) \/ (l <> lp /\ heap t !! l = Some x)).
  { intros l x. rewrite Hh. intros Hl.
    apply list_lookup_insert_Some in Hl as [(<- & <- & _)|(Hne & Hl)]; [by left|].
    right. split; [congruence | done]. }
  assert (Hforth : forall l x, heap t !! l = Some x ->
            exists x', heap t' !! l = Some x' /\ evolves x x').
  { rewrite Hh. exact (lookup_insert_related evolves (heap t) lp P _ evolves_refl HP
                         (evolves__addChildRun _ _ _)). }
  assert (Hsame : forall x, type (_addChildRun P c x) = type P /\
            parent_uuid (_addChildRun P c x) = parent_uuid P /\
            uuid (_addChildRun P c x) = uuid P /\
            execution_order (_addChildRun P c x) = execution_order P).
  { intros x. by destruct x. }
  destruct (Hsame k) as (Hs1 & Hs2 & Hs3 & Hs4).
  constructor.
  - intros l x Hl. destruct (Hlook _ _ Hl) as [[-> ->]|[_ Hl0]]; [|by eapply (f_root _ Hf)].
    rewrite Hs2, Hs4. by eapply (f_root _ Hf).
  - intros l x Hl. destruct (Hlook _ _ Hl) as [[-> ->]|[_ Hl0]]; [|by eapply (f_inner _ Hf)].
    rewrite Hs2, Hs4. by eapply (f_inner _ Hf).
  - intros l x Hl. destruct (Hlook _ _ Hl) as [[-> ->]|[_ Hl0]]; [|by eapply (f_leaf _ Hf)].
    by rewrite Hs1.
  - intros lp' P' c' HP' Hc'.
    assert (Hchild : lp' < c' /\ exists r0 P0, heap t !! c' = Some r0 /\
              heap t !! lp' = Some P0 /\ uuid P' = uuid P0 /\
              execution_order P' = execution_order P0 /\
              parent_uuid r0 = Some (uuid P0) /\
              (execution_order P0 < execution_order r0)%Z).
    { destruct (Hlook _ _ HP') as [[-> ->]|[_ HP0]].
      - apply elem_of_children__addChildRun in Hc' as [->|Hc'].
        + split; [done|]. exists r, P. by rewrite Hs3, Hs4.
        + destruct (f_child _ Hf _ _ _ HP Hc') as (? & r0 & ? & ? & ?).
          split; [done|]. exists r0, P. by rewrite Hs3, Hs4.
      - destruct (f_child _ Hf _ _ _ HP0 Hc') as (? & r0 & ? & ? & ?).
        split; [done|]. by exists r0, P'. }
    destruct Hchild as (Hlt' & r0 & P0 & Hr0 & _ & Hu & Ho' & Hp0 & Hlt0).
    split; [done|]. destruct (Hforth _ _ Hr0) as (x' & Hx' & Hev).
    exists x'. split; [done|].
    rewrite (ev_parent _ _ Hev), (ev_order _ _ Hev), Hu, Ho'. done.
  - intros lp' P' c' x HP' Hx.
    assert (Htyx : exists x0, heap t !! c' = Some x0 /\ type x = type x0).
    { destruct (Hlook _ _ Hx) as [[-> ->]|[_ Hx0]]; [exists P; by rewrite Hs1|by exists x]. }
    destruct Htyx as (x0 & Hx0 & ->).
    destruct (Hlook _ _ HP') as [[-> ->]|[_ HP0]]; [|by eapply (f_kind _ Hf)].
    destruct (f_kind _ Hf _ _ _ _ HP Hx0) as (Hk1 & Hk2 & Hk3).
    assert (Hnew : c' = c -> type x0 = k) by (intros ->; by simplify_eq).
    destruct k; simpl; split_and!; try done;
      rewrite elem_of_app, list_elem_of_singleton; intros [?|?]; auto.
  - intros lp' P' HP'. destruct (Hlook _ _ HP') as [[-> ->]|[_ HP0]];
      [|by eapply (f_once _ Hf)].
    apply NoDup_children__addChildRun; [done|]. by eapply (f_once _ Hf).
Qed.

Lemma Forest_handle e t : WF t -> Forest t -> Forest (handle e t).1.
Proof.
  intros Hwf Hf.
  destruct (event_kind e) as [(k & a & par & He)|[(k & a & He)|(act & a & ->)]].
  - destruct (start_cases _ _ _ _ t He) as [_ [(Hh & _)|Hnew]];
      [by eapply Forest_heap|].
    destruct Hnew as (s & v & new & hp & _ & Hres & Hfresh & Hatt & Hh & _).
    destruct Hfresh as [Hu Hk Hp Ho _ Hch _ _].
    assert (Hv : par <> None -> (2 <= v)%Z).
    { destruct par as [p|]; [|done]. intros _.
      destruct Hres as (lp & P & _ & HP & ->).
      pose proof (Forest_order_positive _ _ _ Hf HP).
      pose proof (wf_order _ Hwf _ _ HP). lia. }
    assert (Happ : Forest (set_heap (heap t ++ [new]) t)).
    { eapply Forest_append; [done|done| | |done]; rewrite Hp, Ho.
      - intros ->. done.
      - done. }
    unfold attaches in Hatt. destruct (truthy par) as [p|] eqn:Hpar;
      [|eapply Forest_heap; [|exact Happ]; by rewrite Hh, Hatt].
    destruct Hatt as (lp & P & Hlp & HP & Hty & ->).
    apply truthy_Some_inv in Hpar as [-> Hne].
    destruct Hres as (lp' & P' & Hlp' & HP' & ->).
    assert (lp' = lp) as -> by congruence. assert (P' = P) as -> by congruence.
    destruct (wf_ref _ Hwf _ _ Hlp) as (P'' & HP'' & HuP).
    assert (P'' = P) as -> by congruence.
    pose proof (lookup_lt_Some _ _ _ HP) as Hlt.
    eapply (Forest_adopt _ _ lp P (length (heap t)) new (type new)); [..|exact Happ];
      simpl.
    + by apply lookup_app_l_Some.
    + done.
    + by apply list_lookup_middle.
    + done.
    + by rewrite Hp, HuP.
    + rewrite Ho. pose proof (wf_order _ Hwf _ _ HP). lia.
    + done.
    + intros Hc. destruct (f_child _ Hf _ _ _ HP Hc) as (_ & r0 & Hr0 & _).
      apply lookup_lt_Some in Hr0. lia.
    + rewrite Hh, Hk. by rewrite insert_app_l.
  - destruct (close_cases _ _ _ t He) as [_ [(Hh & _)|Hclose]];
      [by eapply Forest_heap|].
    destruct Hclose as (l0 & r0 & _ & Hl0 & _ & Hcase).
    assert (H1 : Forest (set_heap (<[l0 := close_update e r0]> (heap t)) t)).
    { eapply Forest_insert_frozen; [done|apply frozen_close_update|done|done]. }
    destruct Hcase as [(Hh & _)|[(Hh & _)|(p & lp & P & _ & _ & HP & Hh & _)]];
      [by eapply Forest_heap; [|exact H1]..|].
    eapply (Forest_insert_frozen (set_heap (<[l0 := close_update e r0]> (heap t)) t));
      [exact HP|apply frozen_set_child_execution_order| |exact H1].
    by rewrite Hh.
  - simpl. destruct (agent_cases act a t) as (_ & _ & [Hh|(l0 & r0 & _ & Hl0 & _ & Hh)]);
      [by eapply Forest_heap|].
    eapply Forest_insert_frozen; [done|apply frozen_set_actions|done|done].
Qed.

Lemma Forest_initial (w : W) : Forest (initial w).
Proof. constructor; simpl; intros *; rewrite lookup_nil; done. Qed.

(** X10. In every state reached from the constructed tracer the run
    objects form a forest. A run without parent id has execution order 1,
    any other at least 2; an LLM run has no children; every location in a
    child list of a run is that of a run created later, whose parent id is
    the id of the run, whose execution order is greater, whose kind is
    that of the list, and which is listed once. *)
Theorem runs_form_a_forest (w : W) es : Forest (run_events es (initial w)).
Proof.
  assert (Hgen : forall es t, WF t -> Forest t -> Forest (run_events es t)).
  { clear. intros es. induction es as [|e es IH]; intros t Hwf Hf; [done|].
    rewrite run_events_cons. apply IH.
    - by apply (safe_handle e t).
    - by apply Forest_handle. }
  apply Hgen; [apply WF_initial | apply Forest_initial].
Qed.

End Facts.
End TracerFacts.

(** * Properties of LangChainTracer *)

Module TracerLangChainFacts.
Import TracerLangChain.

(** Induction on a run tree: a property that holds of a run whenever it
    holds of its children holds of every run. *)
Section RunInduction.
Variable P : Run.t -> Prop.
Hypothesis step : forall run, Forall P (Run.child_runs run) -> P run.

Fixpoint Run_tree_ind (run : Run.t) : P run :=
  step run
    ((fix children (rs : list Run.t) : Forall P rs :=
        match rs with
        | [] => @List.Forall_nil _ P
        | r :: rest => @List.Forall_cons _ P r rest (Run_tree_ind r) (children rest)
        end) (Run.child_runs run)).
End RunInduction.

Section Facts.

Variable remote_tenants : list Request -> Request -> Response (option (list Tenant.t)).
Variable remote_sessions : list Request -> Request -> Response Session.t.
Variable remote_runs : list Request -> Request -> Response unit.
Variable runtime : string.

#[local] Abbreviation ensureTenantId := (TracerLangChain.ensureTenantId remote_tenants).
#[local] Abbreviation ensureSession :=
  (TracerLangChain.ensureSession remote_tenants remote_sessions).
#[local] Abbreviation _convertToCreate :=
  (TracerLangChain._convertToCreate remote_tenants remote_sessions runtime).
#[local] Abbreviation persistRun :=
  (TracerLangChain.persistRun remote_tenants remote_sessions remote_runs runtime).
#[local] Abbreviation perform :=
  (TracerLangChain.perform remote_tenants remote_sessions remote_runs runtime).
#[local] Abbreviation perform_all :=
  (TracerLangChain.perform_all remote_tenants remote_sessions remote_runs runtime).

Implicit Types (t : State) (run : Run.t) (c d : RunCreate.t).

(** ** Conversion to the wire record *)

Lemma _convertToCreate_unfold run example_id :
  _convertToCreate run example_id =
    (let* session_ := ensureSession in
     let* child_runs_ :=
       Promise_all_map (fun child_run => _convertToCreate child_run None)
         (Run.child_runs run) in
     ret {| RunCreate.id := Run.id run;
            RunCreate.name := Run.name run;
            RunCreate.start_time := Run.start_time run;
            RunCreate.end_time := Run.end_time run;
            RunCreate.run_type := Run.run_type run;
            RunCreate.reference_example_id := example_id;
            RunCreate.extra := <["runtime" := runtime]> (default ∅ (Run.extra run));
            RunCreate.execution_order := Run.execution_order run;
            RunCreate.serialized := Run.serialized run;
            RunCreate.error := Run.error run;
            RunCreate.inputs := Run.inputs run;
            RunCreate.outputs := default "{}" (Run.outputs run);
            RunCreate.session_id := Session.id session_;
            RunCreate.child_runs := child_runs_ |}).
Proof. by destruct run. Qed.

Lemma Promise_all_map_Forall {A B} (f : A -> M B) (Q : B -> Prop) xs :
  Forall (fun x => forall t t' y, f x t = (t', Returns y) -> Q y) xs ->
  forall t t' ys, Promise_all_map f xs t = (t', Returns ys) -> Forall Q ys.
Proof.
  induction 1 as [|x xs Hx _ IH]; intros t t' ys; simpl.
  - intros [= _ <-]. constructor.
  - unfold bind at 1. destruct (f x t) as [t1 [y|err]] eqn:Hf; [|done].
    unfold bind at 1. destruct (Promise_all_map f xs t1) as [t2 [ys'|err]] eqn:Hm; [|done].
    intros [= _ <-]. constructor; eauto.
Qed.

Lemma descendants_unfold c :
  descendants c = concat (map (fun d => d :: descendants d) (RunCreate.child_runs c)).
Proof.
  destruct c as [? ? ? ? ? ? ? ? ? ? ? ? ? ds]; simpl.
  induction ds as [|d ds IH]; simpl; [done|]. by rewrite IH.
Qed.

(** C6, as the code has it. In the wire record of a run, the root carries
    the reference example id handed to the conversion, which for
    [persistRun] is the one the tracer was configured with; every record
    below the root carries none. *)
Theorem reference_example_id_root_only run example_id t t' c :
  _convertToCreate run example_id t = (t', Returns c) ->
  RunCreate.reference_example_id c = example_id /\
  Forall (fun d => RunCreate.reference_example_id d = None) (descendants c).
Proof.
  revert example_id t t' c. induction run as [run IH] using Run_tree_ind.
  intros example_id t t' c. rewrite _convertToCreate_unfold.
  unfold bind at 1. destruct (ensureSession t) as [t1 [s|err]]; [|done].
  unfold bind at 1.
  destruct (Promise_all_map _ _ t1) as [t2 [cs|err]] eqn:Hcs; [|done].
  intros [= _ <-]. split; [done|].
  rewrite descendants_unfold; simpl.
  eapply Promise_all_map_Forall in Hcs; cycle 1.
  { eapply Forall_impl; [exact IH|]. intros r Hr u u' y Hy. exact (Hr None u u' y Hy). }
  induction Hcs as [|d ds [Hd Hds] _ IHds]; simpl; [constructor|].
  constructor; [done|]. apply Forall_app. by split.
Qed.

(** ** Tenant and session resolution *)

Lemma ensureTenantId_cached t tid :
  truthy (tenantId t) = Some tid -> ensureTenantId t = (t, Returns tid).
Proof. intros Ht. unfold TracerLangChain.ensureTenantId, bind, get. by rewrite Ht. Qed.

Lemma ensureSession_cached t s :
  session t = Some s -> ensureSession t = (t, Returns s).
Proof. intros Hs. unfold TracerLangChain.ensureSession, bind, get. by rewrite Hs. Qed.

Lemma ensureTenantId_sets t t' tid :
  ensureTenantId t = (t', Returns tid) -> tenantId t' = Some tid.
Proof.
  unfold TracerLangChain.ensureTenantId, bind, get, call, modify, ret, throw.
  destruct (truthy (tenantId t)) as [tid'|] eqn:Ht.
  - intros [= <- <-]. by apply truthy_Some_inv in Ht as [-> _].
  - simpl. destruct (negb _); [done|].
    destruct (json _) as [[|tenant ?]|]; try done. by intros [= <- <-].
Qed.

Lemma ensureSession_sets t t' s :
  ensureSession t = (t', Returns s) -> session t' = Some s.
Proof.
  unfold TracerLangChain.ensureSession. unfold bind at 1, get at 1.
  destruct (session t) as [s'|] eqn:Hs; [by intros [= <- <-]|].
  unfold bind at 1. destruct (ensureTenantId t) as [t1 [tid|err]]; [|done].
  unfold bind, call, modify, ret, throw; simpl.
  destruct (negb _); [done|]. by intros [= <- <-].
Qed.

Lemma stable_refl t : stable t t.
Proof. by split. Qed.

Lemma stable_trans t1 t2 t3 : stable t1 t2 -> stable t2 t3 -> stable t1 t3.
Proof.
  intros [Ht12 Hs12] [Ht23 Hs23]. split.
  - intros tid Ht. rewrite <- (Ht12 _ Ht). apply (Ht23 tid).
    by rewrite (Ht12 _ Ht).
  - eauto.
Qed.

Lemma stable_bind {A B} (m : M A) (k : A -> M B) t :
  stable t (m t).1 -> (forall a u, stable u (k a u).1) -> stable t (bind m k t).1.
Proof.
  intros Hm Hk. unfold bind. destruct (m t) as [t1 [a|err]]; simpl in *; [|done].
  eapply stable_trans; [done | apply Hk].
Qed.

Lemma ensureTenantId_stable t : stable t (ensureTenantId t).1.
Proof.
  unfold TracerLangChain.ensureTenantId, bind, get, call, modify, ret, throw.
  destruct (truthy (tenantId t)) as [tid|] eqn:Ht; [apply stable_refl|].
  split; [intros ? ?; congruence|]. simpl.
  destruct (negb _); [done|]. by destruct (json _) as [[|tenant ?]|].
Qed.

Lemma ensureSession_stable t : stable t (ensureSession t).1.
Proof.
  unfold TracerLangChain.ensureSession. unfold bind at 1, get at 1.
  destruct (session t) as [s|] eqn:Hs; [apply stable_refl|].
  pose proof (ensureTenantId_stable t) as [Ht _].
  split; [|by rewrite Hs]. intros tid Htid. rewrite <- (Ht _ Htid).
  unfold bind at 1. destruct (ensureTenantId t) as [t1 [tid'|err]]; [|done].
  unfold bind, call, modify, ret, throw; simpl. by destruct (negb _).
Qed.

Lemma Promise_all_map_stable {A B} (f : A -> M B) xs :
  Forall (fun x => forall t, stable t (f x t).1) xs ->
  forall t, stable t (Promise_all_map f xs t).1.
Proof.
  induction 1 as [|x xs Hx _ IH]; intros t; simpl; [apply stable_refl|].
  apply stable_bind; [done|]. intros y u.
  apply stable_bind; [done|]. intros ys v. apply stable_refl.
Qed.

Lemma _convertToCreate_stable run example_id t :
  stable t (_convertToCreate run example_id t).1.
Proof.
  revert example_id t. induction run as [run IH] using Run_tree_ind.
  intros example_id t. rewrite _convertToCreate_unfold.
  apply stable_bind; [apply ensureSession_stable|]. intros s u.
  apply stable_bind; [|intros; apply stable_refl].
  apply Promise_all_map_stable. eapply Forall_impl; [exact IH|].
  intros r Hr. apply Hr.
Qed.

Lemma persistRun_stable run t : stable t (persistRun run t).1.
Proof.
  unfold TracerLangChain.persistRun. unfold bind at 1, get at 1.
  apply stable_bind; [apply _convertToCreate_stable|]. intros c u.
  unfold bind, call, ret, throw; simpl. by destruct (negb _).
Qed.

Lemma perform_all_stable cs t : stable t (perform_all cs t).
Proof.
  revert t. induction cs as [|c cs IH]; intros t; simpl; [apply stable_refl|].
  eapply stable_trans; [|apply IH].
  destruct c; simpl;
    [apply ensureTenantId_stable | apply ensureSession_stable
    | apply _convertToCreate_stable | apply persistRun_stable].
Qed.

Lemma ensureTenantId_none t :
  truthy (tenantId t) = None ->
  ok (remote_tenants (sent t) (tenants_request t)) = true ->
  default [] (json (remote_tenants (sent t) (tenants_request t))) = [] ->
  ensureTenantId t =
    (set_sent (sent t ++ [tenants_request t]) t,
     Throws (NoTenantAvailable (endpoint t ++ "/tenants"))).
Proof.
  intros Ht Hok Hjson.
  unfold TracerLangChain.ensureTenantId, bind, get, call, modify, ret, throw.
  rewrite Ht. fold (tenants_request t). rewrite Hok. simpl.
  by destruct (json _) as [[|tenant ?]|].
Qed.

Lemma ensureSession_tenant_fails t t1 err :
  session t = None -> ensureTenantId t = (t1, Throws err) ->
  ensureSession t = (t1, Throws err).
Proof.
  intros Hs Ht. unfold TracerLangChain.ensureSession. unfold bind at 1, get at 1.
  rewrite Hs. unfold bind at 1. by rewrite Ht.
Qed.

Lemma _convertToCreate_session_fails run example_id t t1 err :
  ensureSession t = (t1, Throws err) ->
  _convertToCreate run example_id t = (t1, Throws err).
Proof.
  intros Hs. rewrite _convertToCreate_unfold. unfold bind at 1. by rewrite Hs.
Qed.

Lemma persistRun_convert_fails run t t1 err :
  _convertToCreate run (exampleId t) t = (t1, Throws err) ->
  persistRun run t = (t1, Throws err).
Proof.
  intros Hc. unfold TracerLangChain.persistRun. unfold bind at 1, get at 1.
  unfold bind at 1. by rewrite Hc.
Qed.

(** C9. When neither a tenant id nor a session is there and the remote
    store answers the tenant query with an empty or missing list,
    [persistRun] throws "No tenants found" and the only request made is
    that query: no session is created. A tenant id, once resolved (and not
    the empty string), and a session, once resolved, stay in the tracer
    through every later call, and are returned from there without any
    request. *)
Theorem tenant_and_session_resolution :
  (forall t run,
     truthy (tenantId t) = None -> session t = None ->
     ok (remote_tenants (sent t) (tenants_request t)) = true ->
     default [] (json (remote_tenants (sent t) (tenants_request t))) = [] ->
     persistRun run t =
       (set_sent (sent t ++ [tenants_request t]) t,
        Throws (NoTenantAvailable (endpoint t ++ "/tenants"))) /\
     creates_session (tenants_request t) = false) /\
  (forall t t' tid cs,
     ensureTenantId t = (t', Returns tid) -> tid <> EmptyString ->
     let u := perform_all cs t' in
     tenantId u = Some tid /\ ensureTenantId u = (u, Returns tid)) /\
  (forall t t' s cs,
     ensureSession t = (t', Returns s) ->
     let u := perform_all cs t' in
     session u = Some s /\ ensureSession u = (u, Returns s)).
Proof.
  split_and!.
  - intros t run Ht Hs Hok Hjson. split; [|done].
    apply persistRun_convert_fails, _convertToCreate_session_fails.
    apply ensureSession_tenant_fails; [done|]. by apply ensureTenantId_none.
  - intros t t' tid cs Hres Hne u.
    apply ensureTenantId_sets in Hres.
    assert (Htruthy : truthy (tenantId t') = Some tid).
    { rewrite Hres. by apply truthy_Some. }
    destruct (perform_all_stable cs t') as [Hkeep _]. fold u in Hkeep.
    assert (Hu : tenantId u = Some tid) by by rewrite (Hkeep _ Htruthy).
    split; [done|]. apply ensureTenantId_cached. rewrite Hu. by apply truthy_Some.
  - intros t t' s cs Hres u. apply ensureSession_sets in Hres.
    destruct (perform_all_stable cs t') as [_ Hkeep]. fold u in Hkeep.
    split; [by apply Hkeep|]. apply ensureSession_cached. by apply Hkeep.
Qed.

(** * More on LangChainTracer *)

(** ** The wire record is a function of the run tree and the session *)

Lemma Promise_all_map_wire s (f : Run.t -> M RunCreate.t) xs :
  Forall (fun x => forall t, session t = Some s ->
            f x t = (t, Returns (wire (Session.id s) runtime None x))) xs ->
  forall t, session t = Some s ->
    Promise_all_map f xs t = (t, Returns (map (wire (Session.id s) runtime None) xs)).
Proof.
  induction 1 as [|x xs Hx _ IH]; intros t Hs; simpl; [done|].
  unfold bind at 1. rewrite (Hx t Hs). unfold bind at 1. by rewrite (IH t Hs).
Qed.

Lemma wire_unfold sid ex run :
  wire sid runtime ex run =
    {| RunCreate.id := Run.id run;
       RunCreate.name := Run.name run;
       RunCreate.start_time := Run.start_time run;
       RunCreate.end_time := Run.end_time run;
       RunCreate.run_type := Run.run_type run;
       RunCreate.reference_example_id := ex;
       RunCreate.extra := <["runtime" := runtime]> (default ∅ (Run.extra run));
       RunCreate.execution_order := Run.execution_order run;
       RunCreate.serialized := Run.serialized run;
       RunCreate.error := Run.error run;
       RunCreate.inputs := Run.inputs run;
       RunCreate.outputs := default "{}" (Run.outputs run);
       RunCreate.session_id := sid;
       RunCreate.child_runs := map (wire sid runtime None) (Run.child_runs run) |}.
Proof. by destruct run. Qed.

Lemma _convertToCreate_cached run example_id t s :
  session t = Some s ->
  _convertToCreate run example_id t
    = (t, Returns (wire (Session.id s) runtime example_id run)).
Proof.
  revert example_id t. induction run as [run IH] using Run_tree_ind.
  intros example_id t Hs. rewrite _convertToCreate_unfold, wire_unfold.
  unfold bind at 1. rewrite (ensureSession_cached _ _ Hs).
  unfold bind at 1. rewrite (Promise_all_map_wire s _ (Run.child_runs run)); [done| |done].
  eapply Forall_impl; [exact IH|]. intros r Hr u Hu. by apply Hr.
Qed.

(** X11. Once the session is resolved, the conversion of a run tree sends
    no request, changes nothing in the tracer and cannot fail; its result
    is a function of the tree, the session id, the runtime descriptor and
    the example id. *)
Theorem conversion_with_session_is_pure run example_id t s :
  session t = Some s ->
  _convertToCreate run example_id t
    = (t, Returns (wire (Session.id s) runtime example_id run)).
Proof. apply _convertToCreate_cached. Qed.

Lemma _convertToCreate_after_session run example_id t t1 s :
  ensureSession t = (t1, Returns s) ->
  _convertToCreate run example_id t
    = (t1, Returns (wire (Session.id s) runtime example_id run)).
Proof.
  intros Hs. pose proof (ensureSession_sets _ _ _ Hs) as Hs1.
  rewrite _convertToCreate_unfold, wire_unfold.
  unfold bind at 1. rewrite Hs.
  unfold bind at 1. rewrite (Promise_all_map_wire s _ (Run.child_runs run)); [done| |done].
  apply Forall_forall. intros r _ u Hu. by apply _convertToCreate_cached.
Qed.

Lemma descendants_wire sid ex run :
  descendants (wire sid runtime ex run)
    = map (wire sid runtime None) (run_descendants run).
Proof.
  revert ex. induction run as [run IH] using Run_tree_ind. intros ex.
  rewrite descendants_unfold, wire_unfold. simpl.
  destruct run as [? ? ? ? ? ? ? ? ? ? ? rs]. simpl in *.
  induction IH as [|r rs Hr _ IHrs]; simpl; [done|].
  rewrite map_app, (Hr None), IHrs. done.
Qed.

(** X12. Whenever the conversion of a run tree succeeds, the tracer holds
    a session, every record of the result, the root and all below it,
    carries the id of that session, and the records are those of the runs
    of the tree, in the same order and with the same ids. *)
Theorem conversion_mirrors_the_tree run example_id t t' c :
  _convertToCreate run example_id t = (t', Returns c) ->
  exists s,
    session t' = Some s /\
    c = wire (Session.id s) runtime example_id run /\
    Forall (fun d => RunCreate.session_id d = Session.id s) (c :: descendants c) /\
    map RunCreate.id (c :: descendants c) = map Run.id (run :: run_descendants run).
Proof.
  intros Hc. destruct (ensureSession t) as [t1 [s|err]] eqn:Hs; cycle 1.
  { by rewrite (_convertToCreate_session_fails _ _ _ _ _ Hs) in Hc. }
  rewrite (_convertToCreate_after_session _ _ _ _ _ Hs) in Hc.
  injection Hc as <- <-. exists s.
  split; [by eapply ensureSession_sets|]. split; [done|].
  rewrite descendants_wire. split.
  - constructor; [by rewrite wire_unfold|].
    apply Forall_forall. intros d Hd. apply list_elem_of_fmap in Hd as (r & -> & _).
    by rewrite wire_unfold.
  - simpl. f_equal; [by rewrite wire_unfold|].
    rewrite <- list_fmap_compose. apply list_fmap_ext. intros i r _. simpl.
    by rewrite wire_unfold.
Qed.

(** ** Submission *)

Lemma persistRun_after_session run t t1 s :
  ensureSession t = (t1, Returns s) ->
  exampleId t1 = exampleId t -> endpoint t1 = endpoint t -> st_headers t1 = st_headers t ->
  persistRun run t =
    (set_sent (sent t1 ++ [runs_request t (wire (Session.id s) runtime (exampleId t) run)]) t1,
     if ok (remote_runs (sent t1)
              (runs_request t (wire (Session.id s) runtime (exampleId t) run)))
     then Returns tt
     else
       let response :=
         remote_runs (sent t1)
           (runs_request t (wire (Session.id s) runtime (exampleId t) run)) in
       Throws (TransportFailure "Failed to persist run"
                 (status response) (statusText response) (text response))).
Proof.
  intros Hs He Hend Hh. unfold TracerLangChain.persistRun. unfold bind at 1, get at 1.
  unfold bind at 1. rewrite (_convertToCreate_after_session _ _ _ _ _ Hs).
  unfold bind, call, ret, throw, runs_request. simpl.
  by destruct (ok _).
Qed.

(** X13. With the session resolved, [persistRun] makes exactly one request:
    a POST to [/runs] whose body is the wire record of the tree with the
    configured example id on the root. It returns when the answer is ok
    and otherwise throws with the status, status text and body of the
    answer; in both cases the request is the only change to the tracer
    (no retry, nothing cached). *)
Theorem persistRun_posts_once run t s :
  session t = Some s ->
  let req := runs_request t (wire (Session.id s) runtime (exampleId t) run) in
  let response := remote_runs (sent t) req in
  persistRun run t =
    (set_sent (sent t ++ [req]) t,
     if ok response then Returns tt
     else Throws (TransportFailure "Failed to persist run"
                    (status response) (statusText response) (text response))).
Proof.
  intros Hs req response.
  by rewrite (persistRun_after_session run t t s (ensureSession_cached _ _ Hs)).
Qed.

(** ** Resolution on a tracer that has neither tenant id nor session *)

Lemma ensureTenantId_first t tenant rest :
  truthy (tenantId t) = None ->
  ok (remote_tenants (sent t) (tenants_request t)) = true ->
  json (remote_tenants (sent t) (tenants_request t)) = Some (tenant :: rest) ->
  ensureTenantId t =
    (set_tenantId (Some (Tenant.id tenant)) (set_sent (sent t ++ [tenants_request t]) t),
     Returns (Tenant.id tenant)).
Proof.
  intros Ht Hok Hjson.
  unfold TracerLangChain.ensureTenantId, bind, get, call, modify, ret, throw.
  rewrite Ht. fold (tenants_request t). rewrite Hok. simpl. by rewrite Hjson.
Qed.

Lemma ensureSession_first t tenant rest :
  truthy (tenantId t) = None -> session t = None ->
  ok (remote_tenants (sent t) (tenants_request t)) = true ->
  json (remote_tenants (sent t) (tenants_request t)) = Some (tenant :: rest) ->
  let req := session_request t (Tenant.id tenant) in
  let res := remote_sessions (sent t ++ [tenants_request t]) req in
  let u := set_tenantId (Some (Tenant.id tenant))
             (set_sent (sent t ++ [tenants_request t; req]) t) in
  ensureSession t =
    if ok res then (set_session (Some (json res)) u, Returns (json res))
    else (u, Throws (TransportFailure "Failed to create session"
                       (status res) (statusText res) (text res))).
Proof.
  intros Ht Hs Hok Hjson req res u.
  unfold TracerLangChain.ensureSession. unfold bind at 1, get at 1. rewrite Hs.
  unfold bind at 1. rewrite (ensureTenantId_first t tenant rest Ht Hok Hjson).
  subst u res req.
  unfold bind, call, modify, ret, throw, session_request, set_tenantId, set_sent, set_session.
  simpl. rewrite <- (assoc_L (++)). simpl. destruct (ok (remote_sessions _ _)); simpl; reflexivity.
Qed.

(** X14. Session resolution on a tracer that has neither tenant id nor
    session, the store naming at least one tenant: the id of the first
    tenant is cached, and the session request carries the session name,
    that tenant id and the extra. If the store accepts it the session of
    the answer is cached and returned; if it refuses, the error carries
    status, status text and body, no session is set, and the tenant id
    stays cached. Two requests are made, in this order. *)
Theorem session_resolution_from_scratch t tenant rest :
  truthy (tenantId t) = None -> session t = None ->
  ok (remote_tenants (sent t) (tenants_request t)) = true ->
  json (remote_tenants (sent t) (tenants_request t)) = Some (tenant :: rest) ->
  let req := session_request t (Tenant.id tenant) in
  let res := remote_sessions (sent t ++ [tenants_request t]) req in
  sent (ensureSession t).1 = sent t ++ [tenants_request t; req] /\
  tenantId (ensureSession t).1 = Some (Tenant.id tenant) /\
  body req = SessionBody (sessionName t) (Tenant.id tenant) (sessionExtra t) /\
  if ok res
  then session (ensureSession t).1 = Some (json res) /\
       (ensureSession t).2 = Returns (json res)
  else session (ensureSession t).1 = None /\
       (ensureSession t).2 =
         Throws (TransportFailure "Failed to create session"
                   (status res) (statusText res) (text res)).
Proof.
  intros Ht Hs Hok Hjson req res.
  rewrite (ensureSession_first t tenant rest Ht Hs Hok Hjson).
  fold req. fold res. destruct (ok res); simpl; by split_and!.
Qed.

(** X15. A failure of the tenant query is not cached: whenever
    [ensureTenantId] throws, the tracer is as before but for the one
    request made, so that the next call queries the store again. A refused
    query throws with the status, status text and body of the answer. *)
Theorem tenant_failure_is_not_cached t :
  (forall t' err, ensureTenantId t = (t', Throws err) ->
     t' = set_sent (sent t ++ [tenants_request t]) t /\
     truthy (tenantId t') = None) /\
  (truthy (tenantId t) = None ->
   ok (remote_tenants (sent t) (tenants_request t)) = false ->
   (ensureTenantId t).2 =
     let response := remote_tenants (sent t) (tenants_request t) in
     Throws (TransportFailure "Failed to fetch tenant ID"
               (status response) (statusText response) (text response))).
Proof.
  split.
  - intros t' err.
    unfold TracerLangChain.ensureTenantId, bind, get, call, modify, ret, throw.
    destruct (truthy (tenantId t)) as [tid|] eqn:Ht; [done|].
    fold (tenants_request t). simpl.
    destruct (negb _); [by intros [= <- _]|].
    destruct (json _) as [[|tenant ?]|]; try done; by intros [= <- _].
  - intros Ht Hok.
    unfold TracerLangChain.ensureTenantId, bind, get, call, modify, ret, throw.
    rewrite Ht. fold (tenants_request t). by rewrite Hok.
Qed.

(** X16. [persistRun] on a tracer that has neither tenant id nor session,
    the store naming a tenant and accepting the session: three requests
    are made, in this order: the tenant query, the session request for the
    first tenant, the run with the id of the new session in every record.
    Tenant id and session are cached whether or not the run is accepted. *)
Theorem persistRun_from_scratch run t tenant rest :
  truthy (tenantId t) = None -> session t = None ->
  ok (remote_tenants (sent t) (tenants_request t)) = true ->
  json (remote_tenants (sent t) (tenants_request t)) = Some (tenant :: rest) ->
  let req2 := session_request t (Tenant.id tenant) in
  let res := remote_sessions (sent t ++ [tenants_request t]) req2 in
  ok res = true ->
  let req3 := runs_request t (wire (Session.id (json res)) runtime (exampleId t) run) in
  let response := remote_runs (sent t ++ [tenants_request t; req2]) req3 in
  sent (persistRun run t).1 = sent t ++ [tenants_request t; req2; req3] /\
  tenantId (persistRun run t).1 = Some (Tenant.id tenant) /\
  session (persistRun run t).1 = Some (json res) /\
  (persistRun run t).2 =
    if ok response then Returns tt
    else Throws (TransportFailure "Failed to persist run"
                   (status response) (statusText response) (text response)).
Proof.
  intros Ht Hs Hok Hjson req2 res Hres req3 response.
  pose proof (ensureSession_first t tenant rest Ht Hs Hok Hjson) as Hfirst.
  subst response req3 res req2. cbv zeta in Hfirst. rewrite Hres in Hfirst.
  rewrite (persistRun_after_session run t _ _ Hfirst) by done.
  simpl. rewrite <- (assoc_L (++)). simpl.
  split_and!; done.
Qed.

(** ** A tracer with a tenant id does not ask for one *)

Lemma _convertToCreate_state run example_id t :
  (_convertToCreate run example_id t).1 = (ensureSession t).1.
Proof.
  destruct (ensureSession t) as [t1 [s|err]] eqn:Hs.
  - by rewrite (_convertToCreate_after_session _ _ _ _ _ Hs).
  - by rewrite (_convertToCreate_session_fails _ _ _ _ _ Hs).
Qed.

Lemma ensureSession_frame t :
  exampleId (ensureSession t).1 = exampleId t /\
  endpoint (ensureSession t).1 = endpoint t /\
  st_headers (ensureSession t).1 = st_headers t.
Proof.
  unfold TracerLangChain.ensureSession, TracerLangChain.ensureTenantId,
    bind, get, call, modify, ret, throw.
  destruct (session t); [done|].
  destruct (truthy (tenantId t)); simpl.
  - by destruct (negb _).
  - destruct (negb _); [done|].
    destruct (json _) as [[|tenant ?]|]; try done. simpl. by destruct (negb _).
Qed.

Lemma adds_for_refl tid t : adds_for tid t t.
Proof. split; [done|]. exists []. by rewrite (right_id_L [] (++)). Qed.

Lemma adds_for_trans tid t1 t2 t3 :
  adds_for tid t1 t2 -> adds_for tid t2 t3 -> adds_for tid t1 t3.
Proof.
  intros [H1 (n1 & S1 & F1)] [H2 (n2 & S2 & F2)]. split; [congruence|].
  exists (n1 ++ n2). split; [by rewrite S2, S1, (assoc_L (++))|by apply Forall_app].
Qed.

Lemma ensureSession_adds_for t tid :
  truthy (tenantId t) = Some tid -> adds_for tid t (ensureSession t).1.
Proof.
  intros Ht. unfold TracerLangChain.ensureSession. unfold bind at 1, get at 1.
  destruct (session t); [apply adds_for_refl|].
  unfold bind at 1. rewrite (ensureTenantId_cached _ _ Ht).
  unfold bind, call, modify, ret, throw. simpl.
  assert (Hreq : Forall (for_tenant tid)
            [{| url := (endpoint t ++ "/sessions?upsert=true")%string; method := "POST";
                headers := st_headers t;
                body := SessionBody (sessionName t) tid (sessionExtra t) |}]).
  { repeat constructor. simpl. by intros ??? [= _ <- _]. }
  destruct (negb _); simpl; (split; [done|]); by eexists.
Qed.

Lemma persistRun_adds_for run t tid :
  truthy (tenantId t) = Some tid -> adds_for tid t (persistRun run t).1.
Proof.
  intros Ht. pose proof (ensureSession_adds_for t tid Ht) as Hs.
  destruct (ensureSession_frame t) as (He & Hend & Hh).
  destruct (ensureSession t) as [t1 [s|err]] eqn:E; simpl in *.
  - rewrite (persistRun_after_session run t t1 s E He Hend Hh). simpl.
    eapply adds_for_trans; [exact Hs|]. split; [done|]. eexists. split; [done|].
    repeat constructor. simpl. by intros ??? [=].
  - by rewrite (persistRun_convert_fails run t t1 err
                  (_convertToCreate_session_fails run _ t t1 err E)).
Qed.

Lemma perform_adds_for (cl : Call) t tid :
  truthy (tenantId t) = Some tid -> adds_for tid t (perform cl t).
Proof.
  intros Ht. destruct cl as [| |run example_id|run]; simpl.
  - rewrite (ensureTenantId_cached _ _ Ht). apply adds_for_refl.
  - by apply ensureSession_adds_for.
  - rewrite _convertToCreate_state. by apply ensureSession_adds_for.
  - by apply persistRun_adds_for.
Qed.

(** X17. A tracer that has a tenant id (configured or resolved) never asks
    the store for one: through any sequence of calls, every request it
    makes is a POST, and every session it asks for is for that tenant. *)
Theorem known_tenant_is_never_queried cs t tid :
  truthy (tenantId t) = Some tid ->
  tenantId (perform_all cs t) = tenantId t /\
  exists new,
    sent (perform_all cs t) = sent t ++ new /\
    Forall (for_tenant tid) new /\
    tenants_request t ∉ new.
Proof.
  intros Ht.
  assert (H : adds_for tid t (perform_all cs t)).
  { revert t Ht. induction cs as [|cl cs IH]; intros t Ht; [apply adds_for_refl|].
    pose proof (perform_adds_for cl t tid Ht) as Hc.
    eapply adds_for_trans; [exact Hc|]. apply IH. destruct Hc as [-> _]. done. }
  destruct H as [Hten (new & Hsent & Hall)]. split; [done|].
  exists new. split_and!; try done.
  intros Hin. rewrite Forall_forall in Hall. by destruct (Hall _ Hin) as [[=] _].
Qed.

(** ** The constructor and the tenant id *)

Lemma ensureTenantId_queries t :
  truthy (tenantId t) = None ->
  sent (ensureTenantId t).1 = sent t ++ [tenants_request t].
Proof.
  intros Ht. unfold TracerLangChain.ensureTenantId, bind, get, call, modify, ret, throw.
  rewrite Ht. fold (tenants_request t). simpl.
  destruct (negb _); [done|]. by destruct (json _) as [[|tenant ?]|].
Qed.

(** X18. The tenant id of a new tracer: the field of the constructor
    where there is one, the environment otherwise, and such an id, unless
    empty, is returned without a request. An empty string as the field
    still takes the place of the environment's tenant id, and as it does
    not count as a tenant id, the first call queries the store. *)
Theorem constructed_tenant_id fields env :
  (forall tid, truthy (f_tenantId fields) = Some tid ->
     ensureTenantId (new fields env) = (new fields env, Returns tid)) /\
  (forall tid, f_tenantId fields = None -> truthy (LANGCHAIN_TENANT_ID env) = Some tid ->
     ensureTenantId (new fields env) = (new fields env, Returns tid)) /\
  (f_tenantId fields = Some EmptyString ->
     sent (ensureTenantId (new fields env)).1 = [tenants_request (new fields env)]).
Proof.
  split_and!.
  - intros tid Ht. apply ensureTenantId_cached. simpl.
    destruct (truthy_Some_inv _ _ Ht) as [Hf Hne]. rewrite Hf. by apply truthy_Some.
  - intros tid Hf Ht. apply ensureTenantId_cached. simpl. by rewrite Hf.
  - intros Hf. apply (ensureTenantId_queries (new fields env)). simpl. by rewrite Hf.
Qed.

End Facts.
End TracerLangChainFacts.

(** * The properties on concrete call sequences *)

(** * The legacy LangChainTracer *)

Module LegacyTracerFacts.
Import Tracer LegacyTracer.

Section Facts.
Variable remote_runs :
  list Request -> Request -> Outcome (TracerLangChain.Response unit).
Variable remote_new_session :
  list Request -> Request -> Outcome (TracerLangChain.Response (Outcome Z)).
Variable remote_sessions :
  list Request -> Request ->
  Outcome (TracerLangChain.Response (Outcome (list TracerSession))).
Variable JSON_stringify : Serialized -> string.
Variable hooks : @Hooks World.

#[local] Abbreviation persistRun := (LegacyTracer.persistRun remote_runs).
#[local] Abbreviation persistSession := (LegacyTracer.persistSession remote_new_session).
#[local] Abbreviation loadSession := (LegacyTracer.loadSession remote_sessions).
#[local] Abbreviation loadDefaultSession := (LegacyTracer.loadDefaultSession remote_sessions).
#[local] Abbreviation loadDefaultSession_world :=
  (LegacyTracer.loadDefaultSession_world remote_sessions).
#[local] Abbreviation handle :=
  (LegacyTracer.handle remote_runs remote_sessions JSON_stringify hooks).
#[local] Abbreviation run_events :=
  (Tracer.run_events loadDefaultSession_world persistRun JSON_stringify hooks).
#[local] Abbreviation newSession := (LegacyTracer.newSession remote_new_session).

Lemma answered_ok req line w : answered req true line w = set_sent (sent w ++ [req]) w.
Proof. unfold answered, set_console. simpl. by rewrite (right_id_L [] (++)). Qed.

(** ** Loading a session *)

Lemma loadSession_eq name t :
  let w := world t in
  let req := sessions_request w name in
  loadSession name t =
    match remote_sessions (sent w) req with
    | Throws err => (set_world (set_sent (sent w ++ [req]) w) t, Throws err)
    | Returns response =>
        if TracerLangChain.ok response
        then
          match TracerLangChain.json response with
          | Throws err => (set_world (set_sent (sent w ++ [req]) w) t, Throws err)
          | Returns l =>
              (set_session (Some (hd (fallback_session w) l))
                 (set_world (set_sent (sent w ++ [req]) w) t),
               Returns (hd (fallback_session w) l))
          end
        else
          (set_session (Some (fallback_session w))
             (set_world
                (answered req false
                   (mkConsoleError "Failed to load session"
                      (TracerLangChain.status response)
                      (TracerLangChain.statusText response)) w) t),
           Returns (fallback_session w))
    end.
Proof.
  intros w req. subst req w.
  unfold LegacyTracer.loadSession, _handleSessionResponse, bind, get, external, fetch,
    modify, ret, throw, sessions_request, answered, console_error, fallback_session.
  simpl. destruct (remote_sessions _ _) as [response|err]; simpl; [|done].
  destruct (TracerLangChain.ok response); simpl; [|done].
  by destruct (TracerLangChain.json response) as [[|first ?]|err].
Qed.

(** X19. [loadSession] makes one GET request for the session name and
    touches neither registry nor runs; [loadDefaultSession] is
    [loadSession] for the name default. It throws exactly when the request
    is rejected, or is answered ok with a body that cannot be read as a
    list of sessions, and then sets no session and writes nothing on the
    console. An answer that is not ok is not thrown: the session with id 1
    stamped with the clock is returned and set, and a line is written on
    the console. An ok answer gives the first session of the list, or the
    session with id 1 stamped with the clock when the list is empty, with
    no line on the console. *)
Theorem legacy_session_load name t :
  let req := sessions_request (world t) name in
  let answer := remote_sessions (sent (world t)) req in
  let t' := (loadSession name t).1 in
  loadDefaultSession t = loadSession "default" t /\
  sent (world t') = sent (world t) ++ [req] /\
  runMap t' = runMap t /\ heap t' = heap t /\
  (forall err,
     (loadSession name t).2 = Throws err <->
     answer = Throws err \/
     exists response, answer = Returns response /\
                      TracerLangChain.ok response = true /\
                      TracerLangChain.json response = Throws err) /\
  (forall err, (loadSession name t).2 = Throws err ->
     session t' = session t /\ console (world t') = console (world t)) /\
  (forall response,
     answer = Returns response -> TracerLangChain.ok response = false ->
     (loadSession name t).2 = Returns (fallback_session (world t)) /\
     session t' = Some (fallback_session (world t)) /\
     console (world t') =
       console (world t) ++
         [mkConsoleError "Failed to load session"
            (TracerLangChain.status response) (TracerLangChain.statusText response)]) /\
  (forall response l,
     answer = Returns response -> TracerLangChain.ok response = true ->
     TracerLangChain.json response = Returns l ->
     (loadSession name t).2 = Returns (hd (fallback_session (world t)) l) /\
     session t' = Some (hd (fallback_session (world t)) l) /\
     console (world t') = console (world t)).
Proof.
  intros req answer t'. subst t'. rewrite (loadSession_eq name t). cbv zeta.
  fold req. fold answer.
  split; [done|].
  destruct answer as [response|err0] eqn:Ha; simpl;
    [destruct (TracerLangChain.ok response) eqn:Hok; simpl;
     [destruct (TracerLangChain.json response) as [l|err0] eqn:Hj; simpl|]|];
    (split_and!; try done; try (intros err; split); intros;
     repeat match goal with
            | H : _ \/ _ |- _ => destruct H
            | H : ex _ |- _ => destruct H
            | H : _ /\ _ |- _ => destruct H
            end;
     simplify_eq; try done; try congruence;
     try (by left);
     try (right; eexists; split_and!; [reflexivity|eassumption..]);
     try (split_and!; congruence)).
Qed.

(** ** The start handlers load the default session *)

Lemma ensure_session_legacy t :
  session t = None ->
  Tracer.ensure_session loadDefaultSession_world t = loadDefaultSession t.
Proof.
  intros Hs. unfold Tracer.ensure_session, bind, get, external, modify, ret.
  rewrite Hs. unfold LegacyTracer.loadDefaultSession_world.
  change (LegacyTracer.loadDefaultSession remote_sessions)
    with (LegacyTracer.loadSession remote_sessions "default").
  rewrite (loadSession_eq "default" (initial (world t))), (loadSession_eq "default" t).
  simpl. destruct (remote_sessions _ _) as [response|err]; simpl; [|done].
  destruct (TracerLangChain.ok response); simpl; [|done].
  by destruct (TracerLangChain.json response).
Qed.

Lemma loadDefaultSession_throws t t1 err :
  loadDefaultSession t = (t1, Throws err) ->
  session t1 = session t /\ runMap t1 = runMap t /\ heap t1 = heap t.
Proof.
  change (LegacyTracer.loadDefaultSession remote_sessions)
    with (LegacyTracer.loadSession remote_sessions "default").
  rewrite (loadSession_eq "default" t). simpl.
  destruct (remote_sessions _ _) as [response|err0]; simpl; [|by intros [= <- _]].
  destruct (TracerLangChain.ok response); simpl; [|done].
  destruct (TracerLangChain.json response); simpl; [done|by intros [= <- _]].
Qed.

(** X20. A Start event of a root run on a legacy tracer that has no
    session yet. If [loadDefaultSession] returns, the handler's own
    assignment of the session and the one inside [loadDefaultSession]
    agree, the run is created in that session with execution order 1, and
    the outcome of the handler is the outcome of the hook. If it throws,
    the handler throws the same error and no run is created: registry,
    runs and session are as before. *)
Theorem legacy_root_start e k a t :
  start_of e = Some (k, a, None) -> session t = None ->
  match loadDefaultSession t with
  | (t1, Returns s) =>
      exists new,
        fresh_run new k a None 1 s /\
        session (handle e t).1 = Some s /\
        heap (handle e t).1 = heap t ++ [new] /\
        runMap (handle e t).1 = <[a := length (heap t)]> (runMap t) /\
        (handle e t).2
          = match hook_of hooks e with
            | Some f => (f new (world t1)).2
            | None => Returns tt
            end
  | (t1, Throws err) =>
      handle e t = (t1, Throws err) /\
      session t1 = None /\ runMap t1 = runMap t /\ heap t1 = heap t
  end.
Proof.
  intros He Hs.
  destruct (TracerFacts.handle_start_fresh loadDefaultSession_world persistRun
              JSON_stringify hooks e k a None He) as (mk & Hmk & Hfresh & Hh).
  pose proof (ensure_session_legacy t Hs) as Hens.
  destruct (loadDefaultSession t) as [t1 [s|err]] eqn:Hload.
  - exists (mk s 1%Z).
    unfold LegacyTracer.handle. rewrite Hh.
    rewrite (TracerFacts.start_shape_registered loadDefaultSession_world mk _ k a None
               t t1 s 1%Z (heap t) Hmk Hens eq_refl eq_refl).
    destruct (TracerFacts.ensure_session_registry loadDefaultSession_world t)
      as [Hheap Hmap].
    rewrite Hens in Hheap, Hmap; simpl in Hheap, Hmap.
    assert (Hs1 : session t1 = Some s).
    { pose proof (TracerFacts.ensure_session_result loadDefaultSession_world t t1 s Hens).
      tauto. }
    match goal with
    | |- context [call_hook ?h ?r ?u] =>
        destruct (TracerFacts.call_hook_registry h r u) as (-> & -> & ->);
        destruct (TracerFacts.call_hook_outcome h r u) as (-> & _)
    end.
    simpl. rewrite (b_uuid _ _ _ _ Hmk), Hheap, Hmap. split_and!; try done.
    destruct Hmk, Hfresh. by constructor.
  - destruct (loadDefaultSession_throws t t1 err Hload) as (Hs1 & Hm1 & Hh1).
    split_and!; try done; [|congruence].
    unfold LegacyTracer.handle. rewrite Hh.
    by apply TracerFacts.start_shape_session_fails.
Qed.

(** ** The end handlers and [persistRun] *)

Lemma persistRun_eq h l r w :
  h !! l = Some r ->
  let req := run_request w h l (type r) in
  persistRun h l w =
    match remote_runs (sent w) req with
    | Throws err => (set_sent (sent w ++ [req]) w, Throws err)
    | Returns response =>
        (answered req (TracerLangChain.ok response)
           (mkConsoleError "Failed to persist run"
              (TracerLangChain.status response) (TracerLangChain.statusText response)) w,
         Returns tt)
    end.
Proof.
  intros Hl req. subst req.
  unfold LegacyTracer.persistRun, fetch, run_request, run_path. rewrite Hl.
  destruct (type r); simpl; destruct (remote_runs _ _) as [response|err]; simpl;
    try done; destruct (TracerLangChain.ok response); simpl; by rewrite ?answered_ok.
Qed.

(** X21. The End or Fail event of a registered root run whose hook
    returns, on the legacy tracer: the run is stamped and one POST is made
    to the endpoint of the run's kind, with the stamped run as body. If
    the request is answered, whatever the status, the handler returns and
    the run has left the registry; an answer that is not ok only writes a
    line on the console. If the request is rejected, the handler throws
    that error and the run is still registered. *)
Theorem legacy_root_close e k a l r t :
  close_of e = Some (k, a) ->
  runMap t !! a = Some l -> heap t !! l = Some r -> type r = k ->
  truthy (parent_uuid r) = None ->
  hook_returns hooks e (close_update e r) (world t) ->
  let h' := <[l := close_update e r]> (heap t) in
  let w1 := hook_world hooks e (close_update e r) (world t) in
  let req := run_request w1 h' l k in
  heap (handle e t).1 = h' /\
  h' !! l = Some (close_update e r) /\ stamped e (close_update e r) /\
  sent (world (handle e t).1) = sent w1 ++ [req] /\
  match remote_runs (sent w1) req with
  | Returns response =>
      (handle e t).2 = Returns tt /\
      runMap (handle e t).1 = delete (uuid r) (runMap t) /\
      console (world (handle e t).1) =
        console w1 ++
          (if TracerLangChain.ok response then []
           else [mkConsoleError "Failed to persist run"
                   (TracerLangChain.status response)
                   (TracerLangChain.statusText response)])
  | Throws err =>
      (handle e t).2 = Throws err /\
      runMap (handle e t).1 = runMap t /\
      console (world (handle e t).1) = console w1
  end.
Proof.
  intros He Ha Hl Hk Hroot Hhook h' w1 req.
  assert (Hl' : h' !! l = Some (close_update e r)).
  { apply list_lookup_insert_eq. by eapply lookup_lt_Some. }
  unfold LegacyTracer.handle.
  rewrite (TracerFacts.handle_close_returns loadDefaultSession_world persistRun
             JSON_stringify hooks e k a l r t He Ha Hl Hk Hhook).
  pose proof (persistRun_eq h' l (close_update e r) w1 Hl') as Hp.
  rewrite (ev_type _ _ (TracerFacts.evolves_close_update e r)), Hk in Hp. cbv zeta in Hp.
  fold req in Hp.
  destruct (remote_runs (sent w1) req) as [response|err].
  - rewrite (TracerFacts._endTrace_root persistRun l (close_update e r)
               (closing_state hooks e l r t) _ _ Hl'
               ltac:(by rewrite TracerFacts.close_update_parent) Hp).
    simpl. rewrite TracerFacts.close_update_uuid.
    split_and!; try done. apply TracerFacts.stamped_close_update.
  - rewrite (TracerFacts._endTrace_root persistRun l (close_update e r)
               (closing_state hooks e l r t) _ _ Hl'
               ltac:(by rewrite TracerFacts.close_update_parent) Hp).
    simpl. split_and!; try done. apply TracerFacts.stamped_close_update.
Qed.

(** ** New sessions *)

Lemma run_events_session es u s :
  session u = Some s -> session (run_events es u) = Some s.
Proof.
  revert u. induction es as [|e es IH]; intros u Hu; [done|].
  simpl. apply IH.
  by apply (TracerFacts.handle_session loadDefaultSession_world persistRun
              JSON_stringify hooks e u s).
Qed.

Lemma newSession_eq name now t :
  let w := world t in
  let req := new_session_request w (SessionCreate.mk now name) in
  newSession name now t =
    match remote_new_session (sent w) req with
    | Throws err => (set_world (set_sent (sent w ++ [req]) w) t, Throws err)
    | Returns response =>
        if TracerLangChain.ok response
        then
          match TracerLangChain.json response with
          | Throws err => (set_world (set_sent (sent w ++ [req]) w) t, Throws err)
          | Returns id_ =>
              (set_session (Some (mkSession id_ now name))
                 (set_world (set_sent (sent w ++ [req]) w) t),
               Returns (mkSession id_ now name))
          end
        else
          (set_session (Some (mkSession 1 now name))
             (set_world
                (answered req false
                   (mkConsoleError "Failed to persist session"
                      (TracerLangChain.status response)
                      (TracerLangChain.statusText response)) w) t),
           Returns (mkSession 1 now name))
    end.
Proof.
  intros w req. subst req w.
  unfold LegacyTracer.newSession, Tracer.newSession, bind, external, modify, ret,
    LegacyTracer.persistSession, fetch, new_session_request, answered, console_error.
  simpl. destruct (remote_new_session _ _) as [response|err]; simpl; [|done].
  destruct (TracerLangChain.ok response); simpl; [|done].
  by destruct (TracerLangChain.json response).
Qed.

(** X22. [newSession] on the legacy tracer posts the session name and the
    start time to [/sessions] and touches neither registry nor runs. If
    the request is rejected, or is answered ok with a body from which no
    id can be read, the error is thrown and the session of the tracer is
    as before. Otherwise the session returned has that name and start
    time and the id of the answer, or the id 1, with a line on the
    console, when the answer is not ok; it replaces whatever session was
    set and stays the session of the tracer through all later events. *)
Theorem legacy_newSession name now t :
  let req := new_session_request (world t) (SessionCreate.mk now name) in
  let t' := (newSession name now t).1 in
  runMap t' = runMap t /\ heap t' = heap t /\
  sent (world t') = sent (world t) ++ [req] /\
  match remote_new_session (sent (world t)) req with
  | Throws err =>
      (newSession name now t).2 = Throws err /\
      session t' = session t /\ console (world t') = console (world t)
  | Returns response =>
      if TracerLangChain.ok response
      then
        match TracerLangChain.json response with
        | Throws err =>
            (newSession name now t).2 = Throws err /\
            session t' = session t /\ console (world t') = console (world t)
        | Returns id_ =>
            (newSession name now t).2 = Returns (mkSession id_ now name) /\
            console (world t') = console (world t) /\
            forall es, session (run_events es t') = Some (mkSession id_ now name)
        end
      else
        (newSession name now t).2 = Returns (mkSession 1 now name) /\
        console (world t') =
          console (world t) ++
            [mkConsoleError "Failed to persist session"
               (TracerLangChain.status response) (TracerLangChain.statusText response)] /\
        forall es, session (run_events es t') = Some (mkSession 1 now name)
  end.
Proof.
  intros req t'. subst t'. rewrite (newSession_eq name now t). cbv zeta. fold req.
  destruct (remote_new_session (sent (world t)) req) as [response|err]; simpl; [|done].
  destruct (TracerLangChain.ok response); simpl.
  - destruct (TracerLangChain.json response) as [id_|err]; simpl; [|done].
    split_and!; try done. intros es. by apply run_events_session.
  - split_and!; try done. intros es. by apply run_events_session.
Qed.

End Facts.
End LegacyTracerFacts.

Module Checks.
Import Tracer Scenario.

(** After chain A has started: B starts under A with order 2. *)
Lemma start_execution_order_witness :
  new_run_at (run_events [start_A] (initial tt))
    (handle start_B (run_events [start_A] (initial tt))).1 llm "B" (Some "A") 2.
Proof.
  pose proof (TracerFacts.start_execution_order loadDefaultSession persist_ok
                stringify no_hooks start_B llm "B" (Some "A")
                (run_events [start_A] (initial tt))
                (run_events [start_A] (initial tt)) defaultSession
                eq_refl eq_refl) as H.
  vm_compute in H. destruct (H _ eq_refl) as [_ Hnew]. exact Hnew.
Defined.

#[local] Abbreviation after_A := (run_events [start_A] (initial tt)).
#[local] Abbreviation after_AB := (run_events [start_A; start_B] (initial tt)).

(** B, a child of A, ends: A moves from 1 to 2 and B leaves the registry. *)
Lemma close_spec_witness :
  (handle end_B after_AB).2 = Returns tt /\
  runMap (handle end_B after_AB).1 = delete "B" (runMap after_AB) /\
  exists A', heap (handle end_B after_AB).1 !! 0 = Some A' /\
             child_execution_order A' = 2%Z.
Proof.
  pose proof (TracerFacts.close_spec loadDefaultSession persist_ok stringify no_hooks
                end_B llm "B" 1 _ after_AB eq_refl
                (TracerFacts.WF_reachable _ _ _ _ tt [start_A; start_B])
                eq_refl eq_refl eq_refl I) as H.
  vm_compute in H. destruct (H _ eq_refl) as (Hret & Hmap & (A' & HA' & Hc) & _).
  split; [exact Hret|]. split; [exact Hmap|]. exists A'. split; [exact HA' | exact Hc].
Defined.

(** B is closed before C starts under the same parent: C comes strictly
    after B. *)
Lemma sibling_order_witness :
  exists rB rC,
    heap (run_events [start_A; start_B; end_B; start_C] (initial tt)) !! 1 = Some rB /\
    heap (run_events [start_A; start_B; end_B; start_C] (initial tt)) !! 2 = Some rC /\
    uuid rB = "B" /\ uuid rC = "C" /\
    (execution_order rB < execution_order rC)%Z.
Proof.
  destruct (TracerFacts.sibling_order loadDefaultSession persist_ok stringify no_hooks
              after_A start_B llm "B" "A" 0 [end_B] start_C llm "C"
              (TracerFacts.WF_reachable _ _ _ _ tt [start_A])
              eq_refl eq_refl eq_refl eq_refl eq_refl eq_refl)
    as (rB & rC & HB & HC & HuB & HuC & _ & _ & _ & Hlt & _).
  exists rB, rC. split; [exact HB|]. split; [exact HC|].
  split; [exact HuB|]. split; [exact HuC|].
  apply Hlt; [discriminate|].
  exists [], end_B, [], llm. repeat split.
Defined.

(** B then C, each closed before the next: orders 2 and 3 under A, whose
    own order is 1. *)
Lemma sequential_children_witness :
  exists rC, heap (run_events [start_A; start_B; end_B; start_C; end_C] (initial tt)) !! 2
               = Some rC /\
             uuid rC = "C" /\ execution_order rC = 3%Z.
Proof.
  assert (Hkids : Forall (leaf_child "A") [(start_B, end_B); (start_C, end_C)]).
  { repeat constructor.
    - exists llm, "B". repeat split. discriminate.
    - exists llm, "C". repeat split. discriminate. }
  assert (Hret : returns_all loadDefaultSession persist_ok stringify no_hooks
                   (one_by_one [(start_B, end_B); (start_C, end_C)]) after_A).
  { repeat split. }
  pose proof (TracerFacts.sequential_children loadDefaultSession persist_ok stringify
                no_hooks after_A defaultSession "A" 0 _
                [(start_B, end_B); (start_C, end_C)]
                eq_refl ltac:(discriminate) eq_refl eq_refl
                ltac:(discriminate) Hkids Hret) as [H _].
  destruct (H 1 (start_C, end_C) eq_refl) as (rC & HrC & Hst & Ho).
  exists rC. split; [exact HrC|]. split.
  - simpl in Hst. by injection Hst as _ <-.
  - exact Ho.
Defined.

(** The same End of B: it returns, and B is gone from the registry. *)
Lemma close_removes_on_return_witness :
  runMap (handle end_B after_AB).1 !! "B" = None.
Proof.
  destruct (TracerFacts.close_removes_on_return loadDefaultSession persist_ok stringify
              no_hooks end_B llm "B" 1 _ after_AB eq_refl
              (TracerFacts.WF_reachable _ _ _ _ tt [start_A; start_B])
              eq_refl eq_refl eq_refl I) as (Hret & _ & _).
  apply Hret. reflexivity.
Defined.

(** Tool T1 under a parent that was never started: [ParentNotFound], and
    the registry stays empty. *)
Lemma start_missing_parent_witness :
  (handle start_T1 (initial tt)).2 = Throws (ParentNotFound "missing") /\
  runMap (handle start_T1 (initial tt)).1 = ∅ /\
  heap (handle start_T1 (initial tt)).1 = [].
Proof.
  destruct (TracerFacts.start_missing_parent loadDefaultSession persist_ok stringify
              no_hooks start_T1 tool "T1" "missing" (initial tt) eq_refl eq_refl)
    as (Hmap & Hheap & _ & Herr).
  split; [exact (Herr _ _ eq_refl)|]. split; [exact Hmap | exact Hheap].
Defined.

(** A run started under the LLM run L: [InvalidParentKind]. *)
Lemma start_under_parent_kind_witness :
  (handle start_B_under_L (run_events [start_L] (initial tt))).2
    = Throws InvalidParentKind /\
  runMap (handle start_B_under_L (run_events [start_L] (initial tt))).1 !! "B" = None.
Proof.
  pose proof (TracerFacts.start_under_parent_kind loadDefaultSession persist_ok stringify
                no_hooks start_B_under_L llm "B" "L" 0 _
                (run_events [start_L] (initial tt)) (run_events [start_L] (initial tt))
                defaultSession eq_refl ltac:(discriminate) eq_refl eq_refl eq_refl) as H.
  vm_compute in H. destruct H as (Heq & _ & _).
  split; [exact (f_equal snd Heq) | reflexivity].
Defined.

(** The [onLLMEnd] hook throws while B ends: B stays registered, stamped,
    and A stays at 1. *)
Lemma hook_failure_skips_close_witness :
  let t := Tracer.run_events loadDefaultSession persist_ok stringify
             hooks_failing_onLLMEnd [start_A; start_B] (initial tt) in
  let t' := (Tracer.handle loadDefaultSession persist_ok stringify
               hooks_failing_onLLMEnd end_B t).1 in
  runMap t' !! "B" = Some 1 /\
  (exists B', heap t' !! 1 = Some B' /\ end_time B' = 102%Z /\ response B' = Some "answer") /\
  (exists A', heap t' !! 0 = Some A' /\ child_execution_order A' = 1%Z).
Proof.
  intros t t'.
  destruct (TracerFacts.hook_failure_skips_close loadDefaultSession persist_ok stringify
              hooks_failing_onLLMEnd end_B llm "B" 1 _ t failing_hook tt
              (External "hook failed") eq_refl eq_refl eq_refl eq_refl eq_refl eq_refl)
    as (_ & Hmap & (B' & HB' & Hst) & Hc & _).
  fold t' in Hmap, HB', Hc. split; [by rewrite Hmap|]. split.
  - exists B'. split; [exact HB' | exact Hst].
  - destruct (Hc 0 _ eq_refl) as (A' & HA' & HcA). exists A'. split; [exact HA' | exact HcA].
Defined.

(** C3 fails on the code. B and C both start under A before either ends:
    both get order 2. *)
Lemma siblings_can_share_order :
  exists rA rB rC,
    heap (run_events [start_A; start_B; start_C] (initial tt)) !! 0 = Some rA /\
    heap (run_events [start_A; start_B; start_C] (initial tt)) !! 1 = Some rB /\
    heap (run_events [start_A; start_B; start_C] (initial tt)) !! 2 = Some rC /\
    uuid rA = "A" /\ child_llm_runs rA = [1; 2] /\
    parent_uuid rB = Some "A" /\ parent_uuid rC = Some "A" /\
    ~ (execution_order rB < execution_order rC)%Z.
Proof.
  vm_compute. eexists _, _, _. repeat (split; [reflexivity|]). discriminate.
Qed.

(** C4 fails on the code. The first child started under the root A has
    order 2, not 1. The second child of A has order 4 when the first one,
    X, had a child of its own, and order 2 when the first one, B, is still
    open. *)
Lemma child_order_is_not_its_rank :
  (exists rA rB,
     heap (run_events [start_A; start_B] (initial tt)) !! 0 = Some rA /\
     heap (run_events [start_A; start_B] (initial tt)) !! 1 = Some rB /\
     uuid rA = "A" /\ parent_uuid rA = None /\
     child_llm_runs rA = [1] /\ child_chain_runs rA = [] /\ child_tool_runs rA = [] /\
     execution_order rB <> 1%Z) /\
  (exists rA rC,
     heap (run_events [start_A; start_X; start_Y; end_Y; end_X; start_C] (initial tt)) !! 0
       = Some rA /\
     heap (run_events [start_A; start_X; start_Y; end_Y; end_X; start_C] (initial tt)) !! 3
       = Some rC /\
     uuid rC = "C" /\
     child_chain_runs rA = [1] /\ child_llm_runs rA = [3] /\ child_tool_runs rA = [] /\
     execution_order rC = 4%Z) /\
  (exists rC,
     heap (run_events [start_A; start_B; start_C] (initial tt)) !! 2 = Some rC /\
     uuid rC = "C" /\ execution_order rC = 2%Z).
Proof.
  vm_compute. split; [|split].
  - eexists _, _. repeat (split; [reflexivity|]). discriminate.
  - eexists _, _. repeat (split; [reflexivity|]). reflexivity.
  - eexists _. repeat (split; [reflexivity|]). reflexivity.
Qed.

(** C5 fails on the code. The store refuses the root run A: End throws,
    and A is still in the registry when the error reaches the caller. *)
Lemma root_still_registered_after_failed_persistence :
  (handle_refused end_A (handle_refused start_A (initial adapter)).1).2
    = Throws (TransportFailure "Failed to persist run" 500 "Internal Server Error" "no") /\
  runMap (handle_refused end_A (handle_refused start_A (initial adapter)).1).1 !! "A"
    <> None.
Proof. vm_compute. split; [reflexivity | discriminate]. Qed.

#[local] Abbreviation convert :=
  (TracerLangChain._convertToCreate one_tenant session_created "node").

(** C6 fails on the code. The tracer is configured with example-1; the
    record of the child B carries no reference example id, unlike the
    record of the root A. *)
Lemma child_record_has_no_reference_example :
  exists t' c d,
    convert root_run (TracerLangChain.exampleId adapter) adapter = (t', Returns c) /\
    TracerLangChain.RunCreate.child_runs c = [d] /\
    TracerLangChain.RunCreate.id d = "B" /\
    TracerLangChain.RunCreate.reference_example_id c = Some "example-1" /\
    TracerLangChain.RunCreate.reference_example_id d
      <> TracerLangChain.RunCreate.reference_example_id c.
Proof.
  vm_compute. eexists _, _, _. repeat (split; [reflexivity|]). discriminate.
Qed.

(** The same conversion: example-1 on the root, nothing below. *)
Lemma reference_example_id_root_only_witness :
  exists c,
    (convert root_run (Some "example-1") adapter).2 = Returns c /\
    TracerLangChain.RunCreate.reference_example_id c = Some "example-1" /\
    Forall (fun d => TracerLangChain.RunCreate.reference_example_id d = None)
      (TracerLangChain.descendants c).
Proof.
  destruct (convert root_run (Some "example-1") adapter) as [t' [c|err]] eqn:Hc;
    [|vm_compute in Hc; discriminate].
  exists c. split; [reflexivity|].
  exact (TracerLangChainFacts.reference_example_id_root_only one_tenant session_created
           "node" root_run (Some "example-1") adapter t' c Hc).
Defined.

(** With no tenant on the store, persisting A fails after the tenant query
    alone; with one tenant, the tenant id and the session are resolved on
    the first call and are still there after a run has been persisted. *)
Lemma tenant_and_session_resolution_witness :
  (TracerLangChain.persistRun no_tenant session_created runs_accepted "node"
     root_run adapter).2
    = Throws (NoTenantAvailable "http://localhost:8000/tenants") /\
  TracerLangChain.tenantId
    (TracerLangChain.perform_all one_tenant session_created runs_accepted "node"
       [TracerLangChain.CallPersistRun root_run] adapter_with_tenant)
    = Some "tenant-1" /\
  TracerLangChain.session
    (TracerLangChain.perform_all one_tenant session_created runs_accepted "node"
       [TracerLangChain.CallPersistRun root_run] adapter_with_session)
    = Some the_session.
Proof.
  split; [|split].
  - destruct (TracerLangChainFacts.tenant_and_session_resolution
                no_tenant session_created runs_accepted "node") as (Hnone & _ & _).
    destruct (Hnone adapter root_run eq_refl eq_refl eq_refl eq_refl) as [Heq _].
    exact (f_equal snd Heq).
  - destruct (TracerLangChainFacts.tenant_and_session_resolution
                one_tenant session_created runs_accepted "node") as (_ & Htenant & _).
    apply (Htenant adapter adapter_with_tenant "tenant-1"
             [TracerLangChain.CallPersistRun root_run]);
      [vm_compute; reflexivity | discriminate].
  - destruct (TracerLangChainFacts.tenant_and_session_resolution
                one_tenant session_created runs_accepted "node") as (_ & _ & Hsession).
    apply (Hsession adapter adapter_with_session the_session
             [TracerLangChain.CallPersistRun root_run]).
    vm_compute; reflexivity.
Defined.

(** C8 fails on the code at the empty string as a parent id. The LLM run
    E is registered under the empty string and F is started with that
    parent id. [_getExecutionOrder] compares the id with [undefined] and
    finds E; [_startTrace] tests the id for truthiness and takes F for a
    root: the Start returns and F is registered, with order 2, though the
    run its parent id resolves to is an LLM run. This is why the
    statements on parents above ask for a non-empty parent id. *)
Lemma empty_parent_id_counts_as_none :
  runMap (run_events [start_E] (initial tt)) !! EmptyString = Some 0 /\
  start_of start_F = Some (llm, "F", Some EmptyString) /\
  (handle start_F (run_events [start_E] (initial tt))).2 = Returns tt /\
  (handle start_F (run_events [start_E] (initial tt))).2 <> Throws InvalidParentKind /\
  exists rE rF,
    heap (run_events [start_E; start_F] (initial tt)) !! 0 = Some rE /\
    heap (run_events [start_E; start_F] (initial tt)) !! 1 = Some rF /\
    type rE = llm /\ child_llm_runs rE = [] /\
    parent_uuid rF = Some EmptyString /\
    runMap (run_events [start_E; start_F] (initial tt)) !! "F" = Some 1 /\
    execution_order rF = 2%Z.
Proof.
  vm_compute. repeat (split; [reflexivity|]). split; [discriminate|].
  eexists _, _. repeat (split; [reflexivity|]). reflexivity.
Qed.

(** ** More on BaseTracer *)

#[local] Abbreviation after_L := (run_events [start_L] (initial tt)).

(** The object of chain A, through the start and end of its child B. *)
Lemma runs_are_written_once_witness :
  exists r r',
    heap after_A !! 0 = Some r /\
    heap (run_events [start_B; end_B] after_A) !! 0 = Some r' /\
    evolves r r' /\ grows r r'.
Proof.
  eexists.
  destruct (TracerFacts.runs_are_written_once loadDefaultSession persist_ok stringify
              no_hooks [start_B; end_B] after_A 0 _ eq_refl) as (r' & Hr' & He & Hg).
  exists r'. split; [reflexivity|]. split; [exact Hr'|]. split; [exact He | exact Hg].
Defined.

(** The session loaded at the start of A is the one B is created in. *)
Lemma session_is_loaded_once_witness :
  session (run_events [start_B] after_A) = Some defaultSession /\
  forall l r, heap (run_events [start_B] after_A) !! l = Some r ->
              length (heap after_A) <= l -> session_id r = id defaultSession.
Proof.
  exact (TracerFacts.session_is_loaded_once loadDefaultSession persist_ok stringify
           no_hooks [start_B] after_A defaultSession eq_refl).
Defined.

(** B has ended: the start of C leaves the object of B as it is. *)
Lemma closed_runs_are_final_witness :
  heap (run_events [start_C] (handle end_B after_AB).1) !! 1
    = heap (handle end_B after_AB).1 !! 1 /\
  unregistered 1 (run_events [start_C] (handle end_B after_AB).1).
Proof.
  exact (TracerFacts.closed_runs_are_final loadDefaultSession persist_ok stringify
           no_hooks end_B llm "B" 1 after_AB [start_C]
           (TracerFacts.WF_reachable _ _ _ _ tt [start_A; start_B])
           eq_refl eq_refl eq_refl).
Defined.

(** B ends on a tracer that has started nothing; a chain end names the
    LLM run B. *)
Lemma end_of_unknown_run_witness :
  handle end_B (initial tt) = (initial tt, Throws (NoSuchOpenRun "No LLM run to end.")) /\
  (handle (ChainEnd "result" "B" 102) after_AB).2
    = Throws (NoSuchOpenRun "No chain run to end.").
Proof.
  split.
  - exact (TracerFacts.end_of_unknown_run loadDefaultSession persist_ok stringify
             no_hooks end_B llm "B" (initial tt) eq_refl (or_introl eq_refl)).
  - refine (f_equal snd
              (TracerFacts.end_of_unknown_run loadDefaultSession persist_ok stringify
                 no_hooks (ChainEnd "result" "B" 102) chain "B" after_AB eq_refl _)).
    right. eexists 1, _. split; [reflexivity|]. split; [reflexivity|]. discriminate.
Defined.

(** An agent action on the LLM run B does nothing. *)
Lemma agent_action_ignored_witness :
  handle (AgentAction "search" "B") after_AB = (after_AB, Returns tt).
Proof.
  apply (TracerFacts.agent_action_ignored loadDefaultSession persist_ok stringify
           no_hooks "search" "B" after_AB).
  right. eexists 1, _. split; [reflexivity|]. split; [reflexivity|]. discriminate.
Defined.

(** Two agent actions on the chain A. *)
Lemma agent_actions_accumulate_witness :
  exists rA, heap (run_events actions_on_A after_A) !! 0 = Some rA /\
             actions rA = Some ["search"; "lookup"].
Proof.
  destruct (TracerFacts.agent_actions_accumulate loadDefaultSession persist_ok stringify
              no_hooks ["search"; "lookup"] "A" 0 _ after_A eq_refl eq_refl eq_refl
              ltac:(discriminate)) as [_ Hh].
  eexists. split.
  - etransitivity; [exact (f_equal (fun h => h !! 0) Hh)|reflexivity].
  - reflexivity.
Defined.

(** B starts under A: B is the only entry of the list of LLM children of
    A. *)
Lemma start_registers_before_hook_witness :
  exists new rA,
    fresh_run new llm "B" (Some "A") 2 defaultSession /\
    heap (handle start_B after_A).1 !! 1 = Some new /\
    heap (handle start_B after_A).1 !! 0 = Some rA /\
    child_llm_runs rA = [1] /\ child_chain_runs rA = [] /\ child_tool_runs rA = [] /\
    runMap (handle start_B after_A).1 = <["B" := 1]> (runMap after_A) /\
    (handle start_B after_A).2 = Returns tt.
Proof.
  edestruct (TracerFacts.start_registers_before_hook loadDefaultSession persist_ok
               stringify no_hooks start_B llm "B" (Some "A") after_A after_A
               defaultSession 2)
    as (new & hp & Hfresh & Hheap & Hmap & Hout & lp & P & P' & Hlp & HP & Hhp & Had).
  - reflexivity.
  - reflexivity.
  - eexists 0, _. split; [reflexivity|]. split; reflexivity.
  - intros p [= <-]. eexists 0, _. split; [reflexivity|]. split; [reflexivity|discriminate].
  - injection Hlp as <-. injection HP as <-. subst hp. exists new, P'.
    split; [exact Hfresh|].
    split; [exact (eq_trans (f_equal (fun h => h !! 1) Hheap) eq_refl)|].
    split; [exact (eq_trans (f_equal (fun h => h !! 0) Hheap) eq_refl)|].
    split; [exact (ad_llm _ _ _ _ Had)|]. split; [exact (ad_chain _ _ _ _ Had)|].
    split; [exact (ad_tool _ _ _ _ Had)|]. split; [exact Hmap | exact Hout].
Defined.

(** A starts and ends beside the open run L: the registry is as before. *)
Lemma root_start_end_round_trip_witness :
  runMap (run_events [start_A; end_A] after_L) = runMap after_L.
Proof.
  assert (Hhooks : forall e r (w : unit), hook_returns no_hooks e r w).
  { intros e r w. destruct e; exact I. }
  destruct (TracerFacts.root_start_end_round_trip loadDefaultSession persist_ok stringify
              no_hooks start_A end_A chain "A" after_L defaultSession
              eq_refl eq_refl eq_refl eq_refl Hhooks) as (new & _ & _ & _ & Hend).
  simpl in Hend. exact (proj1 Hend).
Defined.

(** A second Start under the id of the open run A: no id leads to the
    first object any more, and the End of A, which closes the second,
    leaves it as it is. *)
Lemma restarted_id_orphans_run_witness :
  runMap (handle restart_A after_A).1 !! "A" = Some 1 /\
  unregistered 0 (handle restart_A after_A).1 /\
  heap (run_events [end_A] (handle restart_A after_A).1) !! 0
    = heap (handle restart_A after_A).1 !! 0.
Proof.
  exact (TracerFacts.restarted_id_orphans_run loadDefaultSession persist_ok stringify
           no_hooks restart_A chain "A" None 0 after_A [end_A]
           (TracerFacts.WF_reachable _ _ _ _ tt [start_A]) eq_refl eq_refl eq_refl).
Defined.

(** ** More on LangChainTracer *)

(** With its session, the tracer converts A without a request. *)
Lemma conversion_with_session_is_pure_witness :
  convert root_run (Some "example-1") adapter_with_session
    = (adapter_with_session,
       Returns (TracerLangChain.wire "session-1" "node" (Some "example-1") root_run)).
Proof.
  exact (TracerLangChainFacts.conversion_with_session_is_pure one_tenant session_created
           "node" root_run (Some "example-1") adapter_with_session the_session eq_refl).
Defined.

(** The records of A and B, in session-1. *)
Lemma conversion_mirrors_the_tree_witness :
  exists c,
    (convert root_run None adapter).2 = Returns c /\
    Forall (fun d => TracerLangChain.RunCreate.session_id d = "session-1")
      (c :: TracerLangChain.descendants c) /\
    map TracerLangChain.RunCreate.id (c :: TracerLangChain.descendants c) = ["A"; "B"].
Proof.
  destruct (convert root_run None adapter) as [t' [c|err]] eqn:Hc;
    [|vm_compute in Hc; discriminate].
  destruct (TracerLangChainFacts.conversion_mirrors_the_tree one_tenant session_created
              "node" root_run None adapter t' c Hc) as (s & Hs & _ & Hall & Hids).
  assert (Ht' : t' = adapter_with_session).
  { vm_compute in Hc. by injection Hc as <- _. }
  rewrite Ht' in Hs. injection Hs as <-.
  exists c. split; [reflexivity|]. split; [exact Hall | exact Hids].
Defined.

(** The store refuses A: one request more, and the error. *)
Lemma persistRun_posts_once_witness :
  (TracerLangChain.persistRun one_tenant session_created runs_refused "node"
     root_run adapter_with_session).2
    = Throws (TransportFailure "Failed to persist run" 500 "Internal Server Error" "no") /\
  length (TracerLangChain.sent
            (TracerLangChain.persistRun one_tenant session_created runs_refused "node"
               root_run adapter_with_session).1)
    = S (length (TracerLangChain.sent adapter_with_session)).
Proof.
  pose proof (TracerLangChainFacts.persistRun_posts_once one_tenant session_created
                runs_refused "node" root_run adapter_with_session the_session eq_refl)
    as H.
  cbv zeta in H. rewrite H. split; reflexivity.
Defined.

(** The store names tenant-1 and refuses the session: the tenant id is
    kept, no session is set. *)
Lemma session_resolution_from_scratch_witness :
  TracerLangChain.tenantId
    (TracerLangChain.ensureSession one_tenant session_refused adapter).1 = Some "tenant-1" /\
  TracerLangChain.session
    (TracerLangChain.ensureSession one_tenant session_refused adapter).1 = None.
Proof.
  destruct (TracerLangChainFacts.session_resolution_from_scratch one_tenant
              session_refused adapter (TracerLangChain.Tenant.mk "tenant-1") []
              eq_refl eq_refl eq_refl eq_refl) as (_ & Hten & _ & Hres).
  split; [exact Hten | exact (proj1 Hres)].
Defined.

(** The tenant query finds no tenant, or is refused. *)
Lemma tenant_failure_is_not_cached_witness :
  truthy (TracerLangChain.tenantId
            (TracerLangChain.ensureTenantId no_tenant adapter).1) = None /\
  (TracerLangChain.ensureTenantId tenants_refused adapter).2
    = Throws (TransportFailure "Failed to fetch tenant ID" 403 "Forbidden" "no").
Proof.
  split.
  - destruct (TracerLangChainFacts.tenant_failure_is_not_cached no_tenant adapter)
      as [Hkeep _].
    exact (proj2 (Hkeep _ _ eq_refl)).
  - destruct (TracerLangChainFacts.tenant_failure_is_not_cached tenants_refused adapter)
      as [_ Hrefused].
    exact (Hrefused eq_refl eq_refl).
Defined.

(** The first run a new tracer persists: three requests. *)
Lemma persistRun_from_scratch_witness :
  map TracerLangChain.url
    (TracerLangChain.sent
       (TracerLangChain.persistRun one_tenant session_created runs_accepted "node"
          root_run adapter).1)
    = ["http://localhost:8000/tenants"; "http://localhost:8000/sessions?upsert=true";
       "http://localhost:8000/runs"].
Proof.
  destruct (TracerLangChainFacts.persistRun_from_scratch one_tenant session_created
              runs_accepted "node" root_run adapter (TracerLangChain.Tenant.mk "tenant-1")
              [] eq_refl eq_refl eq_refl eq_refl eq_refl) as (Hsent & _).
  rewrite Hsent. reflexivity.
Defined.

(** The tracer knows tenant-1 and persists A. *)
Lemma known_tenant_is_never_queried_witness :
  let calls := [TracerLangChain.CallPersistRun root_run; TracerLangChain.CallEnsureTenantId] in
  let u := TracerLangChain.perform_all one_tenant session_created runs_accepted "node"
             calls adapter_with_tenant in
  TracerLangChain.tenantId u = TracerLangChain.tenantId adapter_with_tenant /\
  exists new,
    TracerLangChain.sent u = TracerLangChain.sent adapter_with_tenant ++ new /\
    Forall (TracerLangChain.for_tenant "tenant-1") new /\
    TracerLangChain.tenants_request adapter_with_tenant ∉ new.
Proof.
  exact (TracerLangChainFacts.known_tenant_is_never_queried one_tenant session_created
           runs_accepted "node"
           [TracerLangChain.CallPersistRun root_run; TracerLangChain.CallEnsureTenantId]
           adapter_with_tenant "tenant-1" eq_refl).
Defined.

(** The constructor is given the empty string as tenant id while the
    environment names env-tenant: the store is queried. Without the field,
    env-tenant is returned. *)
Lemma constructed_tenant_id_witness :
  map TracerLangChain.url
    (TracerLangChain.sent
       (TracerLangChain.ensureTenantId one_tenant
          (TracerLangChain.new adapter_fields_empty_tenant env_with_tenant)).1)
    = ["http://localhost:8000/tenants"] /\
  (TracerLangChain.ensureTenantId one_tenant
     (TracerLangChain.new adapter_fields env_with_tenant)).2 = Returns "env-tenant" /\
  (TracerLangChain.ensureTenantId one_tenant
     (TracerLangChain.new adapter_fields_tenant env_with_tenant)).2 = Returns "field-tenant".
Proof.
  split; [|split].
  - destruct (TracerLangChainFacts.constructed_tenant_id one_tenant
                adapter_fields_empty_tenant env_with_tenant) as (_ & _ & Hempty).
    exact (f_equal (map TracerLangChain.url) (Hempty eq_refl)).
  - destruct (TracerLangChainFacts.constructed_tenant_id one_tenant
                adapter_fields env_with_tenant) as (_ & Henv & _).
    exact (f_equal snd (Henv "env-tenant" eq_refl eq_refl)).
  - destruct (TracerLangChainFacts.constructed_tenant_id one_tenant
                adapter_fields_tenant env_with_tenant) as (Hfield & _ & _).
    exact (f_equal snd (Hfield "field-tenant" eq_refl)).
Defined.

(** ** The legacy tracer *)

(** The store knows no session: the session with id 1 is used. The
    transport rejects the request: the error is thrown. *)
Lemma legacy_session_load_witness :
  (LegacyTracer.loadSession legacy_no_session "default" (initial legacy_world)).2
    = Returns (mkSession 1 1000 None) /\
  (LegacyTracer.loadSession legacy_unreachable "default" (initial legacy_world)).2
    = Throws (External "fetch failed").
Proof.
  split.
  - destruct (LegacyTracerFacts.legacy_session_load legacy_no_session "default"
                (initial legacy_world)) as (_ & _ & _ & _ & _ & _ & Hrefused & _).
    exact (proj1 (Hrefused _ eq_refl eq_refl)).
  - destruct (LegacyTracerFacts.legacy_session_load legacy_unreachable "default"
                (initial legacy_world)) as (_ & _ & _ & _ & Hthrows & _).
    apply Hthrows. left. reflexivity.
Defined.

(** A starts on a new legacy tracer whose store knows no session: A is in
    session 1. *)
Lemma legacy_root_start_witness :
  (legacy_handle start_A (initial legacy_world)).2 = Returns tt /\
  exists rA, heap (legacy_handle start_A (initial legacy_world)).1 !! 0 = Some rA /\
             session_id rA = 1%Z.
Proof.
  pose proof (LegacyTracerFacts.legacy_root_start legacy_runs_refused legacy_no_session
                stringify no_hooks start_A chain "A" (initial legacy_world)
                eq_refl eq_refl) as H.
  destruct (LegacyTracer.loadDefaultSession legacy_no_session (initial legacy_world))
    as [t1 [s|err]] eqn:Hload; [|vm_compute in Hload; discriminate].
  destruct H as (new & Hfresh & _ & Hheap & _ & Hout).
  split; [exact Hout|]. exists new. split.
  - exact (eq_trans (f_equal (fun h => h !! 0) Hheap) eq_refl).
  - rewrite (fr_session _ _ _ _ _ _ Hfresh).
    vm_compute in Hload. by injection Hload as _ <-.
Defined.

(** A ends. The store refuses it: the handler returns, A has left the
    registry, and the console has a line more. The transport rejects the
    request: the handler throws and A is still registered. *)
Lemma legacy_root_close_witness :
  let t := (legacy_handle start_A (initial legacy_world)).1 in
  ((legacy_handle end_A t).2 = Returns tt /\
   runMap (legacy_handle end_A t).1 !! "A" = None /\
   length (LegacyTracer.console (world (legacy_handle end_A t).1))
     = S (length (LegacyTracer.console (world t)))) /\
  ((legacy_handle_unreachable end_A t).2 = Throws (External "fetch failed") /\
   runMap (legacy_handle_unreachable end_A t).1 !! "A" = Some 0).
Proof.
  intros t. split.
  - destruct (LegacyTracerFacts.legacy_root_close legacy_runs_refused legacy_no_session
                stringify no_hooks end_A chain "A" 0 _ t eq_refl eq_refl eq_refl eq_refl
                eq_refl I) as (_ & _ & _ & _ & Hout & Hmap & Hconsole).
    split; [exact Hout|]. split.
    + exact (f_equal (fun m => m !! "A") Hmap).
    + exact (f_equal length Hconsole).
  - destruct (LegacyTracerFacts.legacy_root_close legacy_unreachable legacy_no_session
                stringify no_hooks end_A chain "A" 0 _ t eq_refl eq_refl eq_refl eq_refl
                eq_refl I) as (_ & _ & _ & _ & Hout & Hmap & _).
    split; [exact Hout|]. exact (f_equal (fun m => m !! "A") Hmap).
Defined.

End Checks.
